(** * LLMProvider: provider dispatch, schema normalisation and error mapping

    A shallow embedding of the TypeScript sources

      - [src/core/llm.ts]        (provider detection, the [LLM] facade and the
                                  convenience functions),
      - [src/core/errors.ts]     (the error taxonomy),
      - [src/providers/openai.ts] (the OpenAI adapter),

    together with the properties the specification states about them
    (C1 to C10) and further properties read off the code (X1 to X20).

    JavaScript strings are modelled as [string] (sequences of 8-bit
    characters; the case mapping is the ASCII one), numbers as [Z]
    (timeouts, status codes and token counts are integers; [0] is the only
    falsy number), objects and arrays as cells of an explicit heap, so that
    aliasing between the caller and the library is visible. *)

From Stdlib Require Import ZArith Ascii String List Lia Bool.
From Stdlib Require Import DecimalString.
From stdpp Require Import base option list strings.

Local Open Scope string_scope.
Local Open Scope list_scope.
Local Open Scope Z_scope.

(** ** Strings *)

(** [String.prototype.toLowerCase], on ASCII. *)
Definition lower_ascii (c : ascii) : ascii :=
  let n := N_of_ascii c in
  if ((65 <=? n) && (n <=? 90))%N then ascii_of_N (n + 32) else c.

Fixpoint toLowerCase (s : string) : string :=
  match s with
  | EmptyString => EmptyString
  | String c s' => String (lower_ascii c) (toLowerCase s')
  end.

(** [pat] is a prefix of [s]. *)
Fixpoint startsWith (s pat : string) : bool :=
  match pat, s with
  | EmptyString, _ => true
  | String p pat', String c s' => Ascii.eqb p c && startsWith s' pat'
  | String _ _, EmptyString => false
  end.

(** [String.prototype.includes]: [pat] occurs somewhere in [s]. *)
Fixpoint includes (s pat : string) : bool :=
  startsWith s pat ||
  match s with
  | EmptyString => false
  | String _ s' => includes s' pat
  end.

(** ** The data model ([src/core/types.ts]) *)

Inductive LLMProvider := OpenAI | Anthropic | Gemini.

Definition provider_string (p : LLMProvider) : string :=
  match p with
  | OpenAI => "openai"
  | Anthropic => "anthropic"
  | Gemini => "gemini"
  end.

(** ** Provider detection ([detectProvider], llm.ts) *)

Definition openai_markers : list string :=
  ["gpt"; "o1"; "o3"; "davinci"; "curie"; "babbage"; "ada"].
Definition anthropic_markers : list string := ["claude"].
Definition gemini_markers : list string := ["gemini"; "palm"].

Definition detectProvider (model : string) : LLMProvider :=
  let modelLower := toLowerCase model in
  if includes modelLower "gpt" ||
     includes modelLower "o1" ||
     includes modelLower "o3" ||
     includes modelLower "davinci" ||
     includes modelLower "curie" ||
     includes modelLower "babbage" ||
     includes modelLower "ada"
  then OpenAI
  else if includes modelLower "claude" then Anthropic
  else if includes modelLower "gemini" || includes modelLower "palm" then Gemini
  else (* console.warn(...) *) OpenAI.

(** [pat] occurs in [s]. *)
Definition occurs (pat s : string) : Prop :=
  exists pre suf, s = pre +:+ pat +:+ suf.

(** Two characters, and two strings, that differ in the case of ASCII
    letters at most. *)
Definition upper_lower (a b : ascii) : Prop :=
  (65 <= N_of_ascii a <= 90)%N /\ N_of_ascii b = (N_of_ascii a + 32)%N.

Definition same_letter (a b : ascii) : Prop :=
  a = b \/ upper_lower a b \/ upper_lower b a.

Inductive caseless : string -> string -> Prop :=
  | caseless_nil : caseless EmptyString EmptyString
  | caseless_cons a b s t :
      same_letter a b -> caseless s t -> caseless (String a s) (String b t).

(** ** JavaScript values and the heap *)

Abbreviation loc := nat.

Inductive val :=
  | VUndef
  | VNull
  | VBool (b : bool)
  | VNum (n : Z)
  | VStr (s : string)
  | VRef (l : loc).

(** A heap cell is a plain object (its own enumerable properties, in
    enumeration order) or an array. *)
Inductive cell :=
  | CObj (props : list (string * val))
  | CArr (elems : list val).

Abbreviation heap := (list cell).

Definition val_eqb (a b : val) : bool :=
  match a, b with
  | VUndef, VUndef | VNull, VNull => true
  | VBool x, VBool y => Bool.eqb x y
  | VNum x, VNum y => Z.eqb x y
  | VStr x, VStr y => String.eqb x y
  | VRef x, VRef y => Nat.eqb x y
  | _, _ => false
  end.

(** [a === b] *)
Definition strict_equal (a b : val) : bool := val_eqb a b.

(** Truthiness ([if (v)], [v || d], [!v]). *)
Definition truthy (v : val) : bool :=
  match v with
  | VUndef | VNull => false
  | VBool b => b
  | VNum n => negb (n =? 0)
  | VStr s => negb (String.eqb s "")
  | VRef _ => true
  end.

(** [v ?? d] *)
Definition nullish (v : val) : bool :=
  match v with
  | VUndef | VNull => true
  | _ => false
  end.

(** [typeof v === 'object'] *)
Definition typeof_object (v : val) : bool :=
  match v with
  | VNull | VRef _ => true
  | _ => false
  end.

(** Property lists. *)
Fixpoint assoc {A} (k : string) (l : list (string * A)) : option A :=
  match l with
  | [] => None
  | (k', a) :: l' => if String.eqb k k' then Some a else assoc k l'
  end.

Definition has_key {A} (k : string) (l : list (string * A)) : bool :=
  match assoc k l with Some _ => true | None => false end.

(** [o.k = a] on a property list: overwrite in place, or append. *)
Fixpoint assign {A} (k : string) (a : A) (l : list (string * A)) : list (string * A) :=
  match l with
  | [] => [(k, a)]
  | (k', a') :: l' =>
      if String.eqb k k' then (k, a) :: l' else (k', a') :: assign k a l'
  end.

(** Object spread, [{ ...base, ...ext }]: the properties of [ext] are
    assigned onto [base] in order. *)
Definition spread {A} (base ext : list (string * A)) : list (string * A) :=
  fold_left (fun acc kv => assign (fst kv) (snd kv) acc) ext base.

(** The values a cell holds. *)
Definition cell_values (c : cell) : list val :=
  match c with
  | CObj props => map snd props
  | CArr elems => elems
  end.

(** Property keys: names of object properties and array indices. *)
Inductive pkey :=
  | PName (k : string)
  | PIndex (i : nat).

(** The keys a [for ... in] loop (or [forEach]) visits. *)
Definition ownKeys (c : cell) : list pkey :=
  match c with
  | CObj props => map (fun kv => PName (fst kv)) props
  | CArr elems => map PIndex (seq 0 (length elems))
  end.

(** [c[key]] *)
Definition getKey (c : cell) (key : pkey) : val :=
  match c, key with
  | CObj props, PName k => default VUndef (assoc k props)
  | CArr elems, PIndex i => default VUndef (elems !! i)
  | CArr elems, PName k =>
      if String.eqb k "length" then VNum (Z.of_nat (length elems)) else VUndef
  | CObj _, PIndex _ => VUndef
  end.

(** [v[key]] for a value that is not [null] or [undefined]. *)
Definition get (h : heap) (v : val) (key : pkey) : val :=
  match v with
  | VRef l => match h !! l with Some c => getKey c key | None => VUndef end
  | _ => VUndef
  end.

Definition getField (h : heap) (v : val) (k : string) : val := get h v (PName k).

(** ['k' in v], for an object [v]. *)
Definition hasField (h : heap) (v : val) (k : string) : bool :=
  match v with
  | VRef l =>
      match h !! l with
      | Some (CObj props) => has_key k props
      | Some (CArr _) => String.eqb k "length"
      | None => false
      end
  | _ => false
  end.

(** [v.k = a], for a plain object [v]. *)
Definition setField (h : heap) (v : val) (k : string) (a : val) : heap :=
  match v with
  | VRef l =>
      match h !! l with
      | Some (CObj props) => <[l := CObj (assign k a props)]> h
      | _ => h
      end
  | _ => h
  end.

(** [Array.isArray(v)] *)
Definition isArray (h : heap) (v : val) : bool :=
  match v with
  | VRef l => match h !! l with Some (CArr _) => true | _ => false end
  | _ => false
  end.

(** Allocation of a fresh cell. *)
Definition alloc (c : cell) (h : heap) : val * heap := (VRef (length h), h ++ [c]).

(** ** JSON texts

    A JSON text is represented by the tree it denotes. *)

#[local] Set Warnings "-register-all".
Inductive json :=
  | JNull
  | JBool (b : bool)
  | JNum (n : Z)
  | JStr (s : string)
  | JArr (elems : list json)
  | JObj (members : list (string * json)).

(** [JSON.stringify], reading the heap.  A property whose value is
    [undefined] is left out, an [undefined] array element is written as
    [null].  [None] stands for the [TypeError] raised on a circular
    structure (no amount of fuel suffices) and for the [undefined] that
    [JSON.stringify(undefined)] returns. *)
Fixpoint stringify_members (str : val -> option json) (ps : list (string * val))
  : option (list (string * json)) :=
  match ps with
  | [] => Some []
  | (k, VUndef) :: ps' => stringify_members str ps'
  | (k, a) :: ps' =>
      match str a, stringify_members str ps' with
      | Some t, Some ms => Some ((k, t) :: ms)
      | _, _ => None
      end
  end.

Fixpoint stringify_elements (str : val -> option json) (es : list val)
  : option (list json) :=
  match es with
  | [] => Some []
  | e :: es' =>
      match (match e with VUndef => Some JNull | _ => str e end),
            stringify_elements str es' with
      | Some t, Some ts => Some (t :: ts)
      | _, _ => None
      end
  end.

Fixpoint JSON_stringify (fuel : nat) (h : heap) (v : val) : option json :=
  match v with
  | VUndef => None
  | VNull => Some JNull
  | VBool b => Some (JBool b)
  | VNum n => Some (JNum n)
  | VStr s => Some (JStr s)
  | VRef l =>
      match fuel with
      | O => None
      | S fuel' =>
          match h !! l with
          | Some (CObj props) => JObj <$> stringify_members (JSON_stringify fuel' h) props
          | Some (CArr elems) => JArr <$> stringify_elements (JSON_stringify fuel' h) elems
          | None => None
          end
      end
  end.

(** [JSON.parse] of the text of a tree: the cells of the fresh object
    graph, laid out from address [n] on, children before their parent,
    and the value denoting its root. *)
Fixpoint layout (n : loc) (t : json) : val * list cell :=
  match t with
  | JNull => (VNull, [])
  | JBool b => (VBool b, [])
  | JNum z => (VNum z, [])
  | JStr s => (VStr s, [])
  | JArr ts =>
      let '(vs, cs) :=
        (fix elements (n : loc) (ts : list json) : list val * list cell :=
           match ts with
           | [] => ([], [])
           | t :: ts' =>
               let '(v, c1) := layout n t in
               let '(vs, c2) := elements (n + length c1)%nat ts' in
               (v :: vs, c1 ++ c2)
           end) n ts in
      (VRef (n + length cs)%nat, cs ++ [CArr vs])
  | JObj ms =>
      let '(ps, cs) :=
        (fix members (n : loc) (ms : list (string * json)) : list (string * val) * list cell :=
           match ms with
           | [] => ([], [])
           | (k, t) :: ms' =>
               let '(v, c1) := layout n t in
               let '(ps, c2) := members (n + length c1)%nat ms' in
               ((k, v) :: ps, c1 ++ c2)
           end) n ms in
      (VRef (n + length cs)%nat, cs ++ [CObj ps])
  end.

Definition JSON_parse_tree (t : json) (h : heap) : val * heap :=
  let '(v, cs) := layout (length h) t in (v, h ++ cs).

(** ** Schema normalisation ([normalizeSchemaForStrictMode], openai.ts) *)

(** Loops over a heap that the loop body may update: [for (const k of ks)
    body(k)]. *)
Fixpoint for_each {K} (body : K -> heap -> option heap) (ks : list K) (h : heap)
  : option heap :=
  match ks with
  | [] => Some h
  | k :: ks' =>
      match body k h with
      | Some h' => for_each body ks' h'
      | None => None
      end
  end.

(** [for (const key in o) f(o[key])] and [o.forEach(f)], for an object or
    array [o]: both visit the keys that exist when the loop starts and read
    each value when its turn comes. *)
Definition keysOf (h : heap) (o : val) : list pkey :=
  match o with
  | VRef l => from_option ownKeys [] (h !! l)
  | _ => []
  end.

Definition forEach (f : val -> heap -> option heap) (o : val) (h : heap) : option heap :=
  for_each (fun key h => f (get h o key) h) (keysOf h o) h.

(** The inner function [processSchema], mutating the object graph in place. *)
Fixpoint processSchema (fuel : nat) (obj : val) (h : heap) : option heap :=
  match obj with
  | VRef _ =>
      match fuel with
      | O => None
      | S fuel' =>
          let h1 :=
            if strict_equal (getField h obj "type") (VStr "object") &&
               negb (hasField h obj "additionalProperties")
            then setField h obj "additionalProperties" (VBool false)
            else h in
          h2 ← (let properties := getField h1 obj "properties" in
                if truthy properties && typeof_object properties
                then for_each (fun key h =>
                                 processSchema fuel' (get h (getField h obj "properties") key) h)
                              (keysOf h1 properties) h1
                else Some h1);
          h3 ← (let items := getField h2 obj "items" in
                if truthy items then processSchema fuel' items h2 else Some h2);
          for_each (fun key h =>
                      if isArray h (getField h obj key)
                      then forEach (processSchema fuel') (getField h obj key) h
                      else Some h)
                   ["anyOf"; "allOf"; "oneOf"] h3
      end
  | _ => Some h
  end.

(** [normalizeSchemaForStrictMode]: [None] when [JSON.stringify] or
    [JSON.parse] raises.  The fuel is the number of cells of the heap: no
    chain of distinct objects is longer, so that [JSON.stringify] fails for
    want of fuel on a circular structure only, and the traversal of the
    parsed copy, a tree, never does. *)
Definition normalizeSchemaForStrictMode (schema : val) (h : heap) : option (val * heap) :=
  t ← JSON_stringify (length h) h schema;
  let '(normalized, h1) := JSON_parse_tree t h in
  h2 ← processSchema (length h1) normalized h1;
  Some (normalized, h2).

(** The value [v] of the heap [h] is JSON-shaped: it denotes the tree [t]. *)
Definition denotes (h : heap) (v : val) (t : json) : Prop :=
  exists fuel, JSON_stringify fuel h v = Some t.

(** *** The transformation on JSON trees, as the specification words it

    "For every sub-schema node whose [type] is "object" and which does not
    already declare [additionalProperties], set [additionalProperties:
    false].  Recurse into [properties] values, [items], and every element
    of [anyOf]/[allOf]/[oneOf]." *)

Definition combinator (k : string) : bool :=
  String.eqb k "anyOf" || String.eqb k "allOf" || String.eqb k "oneOf".

(** The values of a [properties] map (or array), and the elements of an
    [anyOf]/[allOf]/[oneOf] array. *)
Definition each_value (F : json -> json) (c : json) : json :=
  match c with
  | JObj pm => JObj (map (fun kc : string * json => (fst kc, F (snd kc))) pm)
  | JArr ts => JArr (map F ts)
  | _ => c
  end.

Definition each_element (F : json -> json) (c : json) : json :=
  match c with
  | JArr ts => JArr (map F ts)
  | _ => c
  end.

Definition on_member (F : json -> json) (k : string) (c : json) : json :=
  if String.eqb k "properties" then each_value F c
  else if String.eqb k "items" then F c
  else if combinator k then each_element F c
  else c.

(** The member list of a node whose [type] is "object". *)
Definition declares_object (ms : list (string * json)) : bool :=
  match assoc "type" ms with
  | Some (JStr s) => String.eqb s "object"
  | _ => false
  end.

Fixpoint closeObjects (t : json) : json :=
  match t with
  | JObj ms =>
      let ms' :=
        map (fun kc : string * json => (fst kc, on_member closeObjects (fst kc) (snd kc))) ms in
      JObj (if declares_object ms && negb (has_key "additionalProperties" ms)
            then ms' ++ [("additionalProperties", JBool false)]
            else ms')
  | _ => t
  end.

(** Sub-schemas and the paths that reach them. *)
Inductive step :=
  | InProperties (k : string)
  | InItems
  | InAnyOf (i : nat)
  | InAllOf (i : nat)
  | InOneOf (i : nat).

Definition members_of (t : json) : list (string * json) :=
  match t with JObj ms => ms | _ => [] end.

Definition elements_of (t : json) : list json :=
  match t with JArr ts => ts | _ => [] end.

Definition field (k : string) (t : json) : option json := assoc k (members_of t).

Definition subschema (s : step) (t : json) : option json :=
  match s with
  | InProperties k => field "properties" t ≫= field k
  | InItems => field "items" t
  | InAnyOf i => field "anyOf" t ≫= fun a => elements_of a !! i
  | InAllOf i => field "allOf" t ≫= fun a => elements_of a !! i
  | InOneOf i => field "oneOf" t ≫= fun a => elements_of a !! i
  end.

Fixpoint node_at (p : list step) (t : json) : option json :=
  match p with
  | [] => Some t
  | s :: p' => subschema s t ≫= node_at p'
  end.

(** The keys whose values the normalisation may touch. *)
Definition schema_keys : list string :=
  ["additionalProperties"; "properties"; "items"; "anyOf"; "allOf"; "oneOf"].

(** No object of the heap has two properties of the same name. *)
Definition heap_wf (h : heap) : bool :=
  forallb (fun c => match c with
                    | CObj props => bool_decide (NoDup (map fst props))
                    | CArr _ => true
                    end) h.

(** Measures on trees. *)
Fixpoint depth (t : json) : nat :=
  match t with
  | JArr ts => S (fold_right (fun c => Nat.max (depth c)) O ts)
  | JObj ms => S (fold_right (fun kc => Nat.max (depth (snd kc))) O ms)
  | _ => O
  end.

(** The number of cells [layout] allocates for a tree. *)
Fixpoint cells (t : json) : nat :=
  match t with
  | JArr ts => S (fold_right (fun c => Nat.add (cells c)) O ts)
  | JObj ms => S (fold_right (fun kc => Nat.add (cells (snd kc))) O ms)
  | _ => O
  end.

Fixpoint distinct_names (t : json) : bool :=
  match t with
  | JArr ts => forallb distinct_names ts
  | JObj ms =>
      bool_decide (NoDup (map fst ms)) && forallb (fun kc => distinct_names (snd kc)) ms
  | _ => true
  end.

(** *** Notions used to relate the in-place traversal to [closeObjects] *)

(** The value and the cells [JSON.parse] produces for a tree laid out from
    address [n] on. *)
Definition root (n : loc) (t : json) : val := fst (layout n t).
Definition body (n : loc) (t : json) : list cell := snd (layout n t).

Fixpoint roots (n : loc) (ts : list json) : list val :=
  match ts with
  | [] => []
  | t :: ts' => root n t :: roots (n + length (body n t)) ts'
  end.

Fixpoint bodies (n : loc) (ts : list json) : list cell :=
  match ts with
  | [] => []
  | t :: ts' => body n t ++ bodies (n + length (body n t)) ts'
  end.

Definition cells_list (ts : list json) : nat := fold_right (fun c => Nat.add (cells c)) O ts.

(** Two trees that occupy the same cells and have the same root value. *)
Definition similar (t t' : json) : Prop :=
  (cells t = cells t' /\ forall n, root n t = root n t') /\ depth t = depth t'.

Definition depth_list (ts : list json) : nat := fold_right (fun c => Nat.max (depth c)) O ts.

(** [f] rewrites the cells of a freshly parsed [t] into those of [F t],
    wherever they lie in the heap, and touches nothing else. *)
Definition transforms (f : val -> heap -> option heap) (F : json -> json) (t : json) : Prop :=
  forall pre suf,
    f (root (length pre) t) (pre ++ body (length pre) t ++ suf) =
    Some (pre ++ body (length pre) (F t) ++ suf).

(** Replacing the value of member [k]. *)
Definition alter_member (k : string) (G : json -> json) (ms : list (string * json))
  : list (string * json) :=
  map (fun kc : string * json => (fst kc, if String.eqb (fst kc) k then G (snd kc) else snd kc)) ms.

(** The three kinds of recursion of [processSchema]. *)
Definition visit_properties (f : val -> heap -> option heap) (v : val) (h : heap) : option heap :=
  if truthy v && typeof_object v then forEach f v h else Some h.

Definition visit_items (f : val -> heap -> option heap) (v : val) (h : heap) : option heap :=
  if truthy v then f v h else Some h.

Definition visit_combinator (f : val -> heap -> option heap) (v : val) (h : heap) : option heap :=
  if isArray h v then forEach f v h else Some h.

Definition primitive (t : json) : Prop :=
  match t with JArr _ | JObj _ => False | _ => True end.

Definition reads (fuel : nat) (t : json) : Prop :=
  forall pre suf,
    JSON_stringify fuel (pre ++ body (length pre) t ++ suf) (root (length pre) t) = Some t.

Definition fresh_value (n : loc) (v : val) : Prop := forall l, v = VRef l -> (n <= l)%nat.

(** The traversal assigns [additionalProperties] and nothing else. *)
Definition same_fields (h h' : heap) : Prop :=
  forall o k, k <> "additionalProperties" -> getField h' o k = getField h o k.

(** ** The error taxonomy ([src/core/errors.ts]) *)

(** An error from outside the taxonomy (raised by the SDK or by the
    runtime), as the adapter looks at it:
    [error as { name?: string; status?: number; message?: string }]. *)
Record JSError := {
  err_name : option string;
  err_status : option Z;
  err_message : option string
}.

(** [LLMError] and its subclasses; [name] tells the class. *)
Record LLMError := {
  name : string;
  message : string;
  statusCode : Z;
  error_provider : option LLMProvider;
  code : option string;
  originalError : option JSError
}.

(** [new LLMError(options)] *)
Definition new_LLMError (msg : string) (status : option Z) (p : option LLMProvider)
    (c : option string) (original : option JSError) : LLMError :=
  {| name := "LLMError";
     message := msg;
     statusCode := default 500 status;
     error_provider := p;
     code := c;
     originalError := original |}.

(** [String(v)], as template literals apply it.  Numbers print in decimal;
    an object prints as a plain object does. *)
Definition string_of_Z (n : Z) : string := NilZero.string_of_int (Z.to_int n).

Definition template (v : val) : string :=
  match v with
  | VUndef => "undefined"
  | VNull => "null"
  | VBool true => "true"
  | VBool false => "false"
  | VNum n => string_of_Z n
  | VStr s => s
  | VRef _ => "[object Object]"
  end.


Definition APIKeyError (p : LLMProvider) : LLMError :=
  let e := new_LLMError ("API key not configured for " +:+ provider_string p)
             (Some 401) (Some p) (Some "API_KEY_MISSING") None in
  {| name := "APIKeyError"; message := message e; statusCode := statusCode e;
     error_provider := error_provider e; code := code e;
     originalError := originalError e |}.

Definition TimeoutError (p : LLMProvider) (timeout : val) : LLMError :=
  let e := new_LLMError ("Request to " +:+ provider_string p +:+ " timed out after "
                         +:+ template timeout +:+ "ms")
             (Some 408) (Some p) (Some "TIMEOUT") None in
  {| name := "TimeoutError"; message := message e; statusCode := statusCode e;
     error_provider := error_provider e; code := code e;
     originalError := originalError e |}.

Definition UnsupportedProviderError (p : val) : LLMError :=
  let e := new_LLMError ("Unsupported LLM provider: " +:+ template p)
             (Some 400) None (Some "UNSUPPORTED_PROVIDER") None in
  {| name := "UnsupportedProviderError"; message := message e; statusCode := statusCode e;
     error_provider := error_provider e; code := code e;
     originalError := originalError e |}.

(** What a [throw] (or a rejected promise) carries, as a [catch (error:
    unknown)] can tell: an [LLMError] ([error instanceof LLMError]); any
    other value that has properties, read through its [name], [status] and
    [message] (an error object, or a primitive, whose three properties are
    all absent); or one of the two values that have none, [null] and
    [undefined]. *)
Inductive thrown :=
  | ThrownLLM (e : LLMError)
  | ThrownOther (e : JSError)
  | ThrownNull
  | ThrownUndefined.

(** The [TypeError] of the runtime. *)
Definition TypeError (msg : string) : thrown :=
  ThrownOther {| err_name := Some "TypeError"; err_status := None; err_message := Some msg |}.

(** ** Requests, completions and responses *)

(** The prompt: [string | LLMMessage[]]. *)
Inductive Prompt :=
  | PromptText (text : string)
  | PromptMessages (messages : list val).

(** An item of the backend's input list: a turn the adapter writes, or a
    caller's message passed on as it is. *)
Inductive InputItem :=
  | Turn (role : string) (content : val)
  | Passed (msg : val).

(** [config.temperature ?? 0.7]; the default is not an integer and stays
    symbolic. *)
Inductive Temperature :=
  | DefaultTemperature
  | GivenTemperature (v : val).

Record ResponseFormat := {
  format_type : string;
  format_name : val;
  format_schema : val;
  format_strict : bool
}.

Record Request := {
  req_model : val;
  req_input : list InputItem;
  req_temperature : Temperature;
  req_top_p : val;
  req_max_output_tokens : val;
  req_reasoning : option val;
  req_text : option ResponseFormat
}.

Record ContentPart := { part_type : string; part_text : string }.
Record OutputItem := { item_type : string; item_content : list ContentPart }.
Record BackendUsage := { input_tokens : Z; output_tokens : Z; total_tokens : Z }.
Record Completion := { output : list OutputItem; completion_usage : option BackendUsage }.

Inductive BackendOutcome :=
  | Returns (c : Completion)
  | Throws (e : thrown).

Record Usage := { inputTokens : Z; outputTokens : Z; totalTokens : Z }.

Record LLMResponse := {
  content : string;
  provider : LLMProvider;
  model : val;
  usage : option Usage;
  structuredOutput : option json
}.

(** ** The world a call runs in *)

Record Client := { apiKey : string; traced : bool }.

Record World := {
  heap_of : heap;
  OPENAI_API_KEY : option string;   (* process.env.OPENAI_API_KEY *)
  openaiClient : option Client;     (* the module's singleton *)
  requests : list Request           (* the calls made to the backend *)
}.

Definition with_heap (h : heap) (w : World) : World :=
  {| heap_of := h; OPENAI_API_KEY := OPENAI_API_KEY w;
     openaiClient := openaiClient w; requests := requests w |}.

Inductive outcome (A : Type) :=
  | Ok (a : A)
  | Throw (e : thrown).
Arguments Ok {A} a.
Arguments Throw {A} e.

(** Computations: state passing, with exceptions. *)
Definition M (A : Type) : Type := World -> outcome A * World.

Definition ret {A} (a : A) : M A := fun w => (Ok a, w).
Definition throw {A} (e : thrown) : M A := fun w => (Throw e, w).
Definition bind {A B} (m : M A) (k : A -> M B) : M B :=
  fun w => match m w with
           | (Ok a, w') => k a w'
           | (Throw e, w') => (Throw e, w')
           end.
Definition try_catch {A} (body : M A) (handler : thrown -> M A) : M A :=
  fun w => match body w with
           | (Ok a, w') => (Ok a, w')
           | (Throw e, w') => handler e w'
           end.

Declare Scope js_scope.
Delimit Scope js_scope with js.
Notation "'let*' x := m 'in' k" := (bind m (fun x => k))
  (at level 10, x pattern, m at level 100, k at level 200) : js_scope.
Local Open Scope js_scope.

(** [config.k] *)
Definition read (o : val) (k : string) : M val :=
  fun w => (Ok (getField (heap_of w) o k), w).

(** An object literal. *)
Definition new_object (props : list (string * val)) : M val :=
  fun w => let '(v, h) := alloc (CObj props) (heap_of w) in (Ok v, with_heap h w).

(** The own enumerable properties [{ ...o }] copies; [undefined] and [null]
    have none. *)
Definition own_properties (h : heap) (o : val) : list (string * val) :=
  match o with
  | VRef l =>
      match h !! l with
      | Some (CObj props) => props
      | Some (CArr elems) => imap (fun i e => (string_of_Z (Z.of_nat i), e)) elems
      | None => []
      end
  | _ => []
  end.

(** ** The OpenAI adapter ([src/providers/openai.ts]) *)

(** [getOpenAIClient] *)
Definition getOpenAIClient (enableTracing : val) : M Client :=
  fun w =>
    match openaiClient w with
    | Some client => (Ok client, w)
    | None =>
        match OPENAI_API_KEY w with
        | Some key =>
            if String.eqb key "" then (Throw (ThrownLLM (APIKeyError OpenAI)), w)
            else
              let client := {| apiKey := key; traced := truthy enableTracing |} in
              (Ok client,
               {| heap_of := heap_of w; OPENAI_API_KEY := OPENAI_API_KEY w;
                  openaiClient := Some client; requests := requests w |})
        | None => (Throw (ThrownLLM (APIKeyError OpenAI)), w)
        end
    end.

(** [formatInput] *)
Definition formatInput (messages : Prompt) (systemPrompt : val) : list InputItem :=
  (if truthy systemPrompt then [Turn "system" systemPrompt] else []) ++
  match messages with
  | PromptText text => [Turn "user" (VStr text)]
  | PromptMessages msgs => map Passed msgs
  end.

(** [convertSchemaToResponseFormat] *)
Definition convertSchemaToResponseFormat (schema : val) : M ResponseFormat :=
  fun w =>
    let h := heap_of w in
    let title := getField h schema "title" in
    match normalizeSchemaForStrictMode schema h with
    | Some (normalized, h') =>
        (Ok {| format_type := "json_schema";
               format_name := if nullish title then VStr "response" else title;
               format_schema := normalized;
               format_strict := true |},
         with_heap h' w)
    | None => (Throw (TypeError "Converting circular structure to JSON"), w)
    end.

Section Backend.

(** [JSON.parse] on a text: [None] is its [SyntaxError]. *)
Variable JSON_parse : string -> option json.

(** [client.responses.create(params, { timeout })], whatever it does. *)
Variable backend : Client -> Request -> val -> BackendOutcome.

Definition responses_create (client : Client) (params : Request) (timeout : val)
  : M Completion :=
  fun w =>
    let w' := {| heap_of := heap_of w; OPENAI_API_KEY := OPENAI_API_KEY w;
                 openaiClient := openaiClient w;
                 requests := requests w ++ [params] |} in
    match backend client params timeout with
    | Returns c => (Ok c, w')
    | Throws e => (Throw e, w')
    end.

Definition unsupported_format : LLMError :=
  new_LLMError "Unsupported OpenAI response format" (Some 500) (Some OpenAI) None None.

(** The text of the first output item:
    [completion.output[0]?.type === 'message' &&
     completion.output[0].content[0].type === 'output_text'].
    Reading [.type] of a missing first content part raises. *)
Definition extract_content (completion : Completion) : M string :=
  match output completion with
  | item :: _ =>
      if String.eqb (item_type item) "message" then
        match item_content item with
        | part :: _ =>
            if String.eqb (part_type part) "output_text" then ret (part_text part)
            else throw (ThrownLLM unsupported_format)
        | [] => throw (TypeError "Cannot read properties of undefined (reading 'type')")
        end
      else throw (ThrownLLM unsupported_format)
  | [] => throw (ThrownLLM unsupported_format)
  end.

(** The [catch] clause of [generateWithOpenAI]. *)
Definition normalize_error {A} (config : val) (error : thrown) : M A :=
  match error with
  | ThrownLLM _ => throw error
  | ThrownOther err =>
      if bool_decide (err_name err = Some "AbortError") then
        let* timeout := read config "timeout" in
        throw (ThrownLLM (TimeoutError OpenAI
                            (if nullish timeout then VNum 90000 else timeout)))
      else
        throw (ThrownLLM
                 (new_LLMError
                    (match err_message err with
                     | Some m => if String.eqb m "" then "OpenAI generation failed" else m
                     | None => "OpenAI generation failed"
                     end)
                    (Some (match err_status err with
                           | Some s => if s =? 0 then 500 else s
                           | None => 500
                           end))
                    (Some OpenAI) None (Some err)))
  | ThrownNull =>
      (* [err.name] on [null] *)
      throw (TypeError "Cannot read properties of null (reading 'name')")
  | ThrownUndefined =>
      throw (TypeError "Cannot read properties of undefined (reading 'name')")
  end.

(** The statements of [generateWithOpenAI] that come before its [try]:
    the client and the request parameters. *)
Definition request_params (prompt : Prompt) (config : val) : M (Client * Request) :=
  let* enableTracing := read config "enableTracing" in
  let* client := getOpenAIClient (if nullish enableTracing then VBool true
                                  else enableTracing) in
  let* systemPrompt := read config "systemPrompt" in
  let input := formatInput prompt systemPrompt in
  let* model_ := read config "model" in
  let* temperature := read config "temperature" in
  let* topP := read config "topP" in
  let* maxTokens := read config "maxTokens" in
  let* reasoning := read config "reasoning" in
  let* schema := read config "schema" in
  let* text := (if truthy schema
                then let* format := convertSchemaToResponseFormat schema in ret (Some format)
                else ret None) in
  ret (client,
       {| req_model := model_;
          req_input := input;
          req_temperature := if nullish temperature then DefaultTemperature
                             else GivenTemperature temperature;
          req_top_p := topP;
          req_max_output_tokens := maxTokens;
          req_reasoning := if truthy reasoning then Some reasoning else None;
          req_text := text |}).

(** [generateWithOpenAI] *)
Definition generateWithOpenAI (prompt : Prompt) (config : val) : M LLMResponse :=
  let* prepared := request_params prompt config in
  let client := fst prepared in
  let params := snd prepared in
  try_catch
    (let* timeout := read config "timeout" in
     let* completion := responses_create client params timeout in
     let* content_ := extract_content completion in
     let* schema := read config "schema" in
     let structured :=
       if truthy schema && truthy (VStr content_)
       then JSON_parse content_   (* a failure is logged and swallowed *)
       else None in
     let* model_ := read config "model" in
     ret {| content := content_;
            provider := OpenAI;
            model := model_;
            usage := match completion_usage completion with
                     | Some u => Some {| inputTokens := input_tokens u;
                                         outputTokens := output_tokens u;
                                         totalTokens := total_tokens u |}
                     | None => None
                     end;
            structuredOutput := structured |})
    (normalize_error config).

(** ** The facade ([src/core/llm.ts]) *)

Definition DEFAULT_TIMEOUT : Z := 90000.

(** An instance of the class [LLM]: its private field. *)
Record LLM := { config : val }.

(** [new LLM(config)] *)
Definition LLM_constructor (config : val) : M LLM :=
    fun w =>
      let h := heap_of w in
      let explicit := getField h config "provider" in
      let resolved : outcome val :=
        if truthy explicit then Ok explicit
        else match getField h config "model" with
             | VStr m => Ok (VStr (provider_string (detectProvider m)))
             | _ => Throw (TypeError "model.toLowerCase is not a function")
             end in
      match resolved with
      | Throw e => (Throw e, w)
      | Ok p =>
          let timeout := getField h config "timeout" in
          let enableTracing := getField h config "enableTracing" in
          let props :=
            assign "enableTracing" (if nullish enableTracing then VBool true
                                     else enableTracing)
              (assign "timeout" (if truthy timeout then timeout
                                 else VNum DEFAULT_TIMEOUT)
                 (assign "provider" p (own_properties h config))) in
          let '(this_config, h') := alloc (CObj props) h in
          (Ok {| config := this_config |}, with_heap h' w)
      end.

(** [llm.generate(prompt)] *)
Definition LLM_generate (this : LLM) (prompt : Prompt) : M LLMResponse :=
    let* p := read (config this) "provider" in
    if strict_equal p (VStr "openai")
    then generateWithOpenAI prompt (config this)
    else throw (ThrownLLM (UnsupportedProviderError p)).

(** [llm.getConfig()] *)
Definition LLM_getConfig (this : LLM) : M val :=
  fun w => new_object (own_properties (heap_of w) (config this)) w.

Definition createLLM (config : val) : M LLM := LLM_constructor config.

(** The object literal [{ ...first, ...options }]. *)
Definition object_with (first : list (string * val)) (options : val) : M val :=
  fun w => new_object (spread first (own_properties (heap_of w) options)) w.

(** [generate(model, prompt, options?)] *)
Definition generate (model : string) (prompt : Prompt) (options : val) : M string :=
  let* config := object_with [("model", VStr model)] options in
  let* llm := createLLM config in
  let* response := LLM_generate llm prompt in
  ret (content response).

(** [generateStructured(model, prompt, schema, options?)] *)
Definition generateStructured (model : string) (prompt : Prompt) (schema : val)
    (options : val) : M json :=
  let* config := object_with [("model", VStr model); ("schema", schema)] options in
  let* llm := createLLM config in
  let* response := LLM_generate llm prompt in
  ret (match structuredOutput response with
       | None | Some JNull => JObj []
       | Some parsed => parsed
       end).

End Backend.

(** *** Notions used to state the properties of the adapter *)

(** The world once a request has been sent. *)
Definition sent (params : Request) (w : World) : World :=
  {| heap_of := heap_of w; OPENAI_API_KEY := OPENAI_API_KEY w;
     openaiClient := openaiClient w; requests := requests w ++ [params] |}.

(** The first output item is a message whose first content part is plain
    output text, [text]. *)
Definition plain_text_first (c : Completion) (text : string) : Prop :=
  exists item items part parts,
    output c = item :: items /\ item_type item = "message" /\
    item_content item = part :: parts /\ part_type part = "output_text" /\
    part_text part = text.

(** [v] is an object of the heap. *)
Definition is_object (h : heap) (v : val) : Prop :=
  exists l props, v = VRef l /\ h !! l = Some (CObj props).

(** *** Notions used to state the properties of the facade *)

(** The value of an optional field: the explicit one if given, else [d]. *)
Definition or_else (explicit : option val) (d : val) : val :=
  match explicit with
  | None | Some VUndef => d
  | Some v => v
  end.

(** An optional field of a given type is absent, [undefined], or a value of
    that type. *)
Definition optional (P : val -> Prop) (explicit : option val) : Prop :=
  explicit = None \/ explicit = Some VUndef \/ exists v, explicit = Some v /\ P v.

Definition is_provider (v : val) : Prop := exists p, v = VStr (provider_string p).
Definition is_boolean (v : val) : Prop := exists b, v = VBool b.

(** *** Notions used to state what a call sends *)

(** The request [generateWithOpenAI] builds from the fields of [cfg], with
    [text] as its output format. *)
Definition request_with (h : heap) (prompt : Prompt) (cfg : val) (text : option ResponseFormat)
  : Request :=
  {| req_model := getField h cfg "model";
     req_input := formatInput prompt (getField h cfg "systemPrompt");
     req_temperature := if nullish (getField h cfg "temperature") then DefaultTemperature
                        else GivenTemperature (getField h cfg "temperature");
     req_top_p := getField h cfg "topP";
     req_max_output_tokens := getField h cfg "maxTokens";
     req_reasoning := if truthy (getField h cfg "reasoning")
                      then Some (getField h cfg "reasoning") else None;
     req_text := text |}.

(** The format [convertSchemaToResponseFormat] returns for a schema that
    denotes [t], in a heap [h] the copy is appended to. *)
Definition closed_format (h : heap) (schema : val) (t : json) : ResponseFormat :=
  {| format_type := "json_schema";
     format_name := if nullish (getField h schema "title") then VStr "response"
                    else getField h schema "title";
     format_schema := root (length h) t;
     format_strict := true |}.

(** The request [generate(model, text)] sends when it is given no options. *)
Definition plain_request (model text : string) : Request :=
  {| req_model := VStr model;
     req_input := [Turn "user" (VStr text)];
     req_temperature := DefaultTemperature;
     req_top_p := VUndef;
     req_max_output_tokens := VUndef;
     req_reasoning := None;
     req_text := None |}.

(** The properties a dispatcher resolves from a literal that names neither
    provider, timeout nor tracing. *)
Definition resolved_defaults (model : string) (literal : list (string * val))
  : list (string * val) :=
  literal ++ [("provider", VStr (provider_string (detectProvider model)));
              ("timeout", VNum 90000); ("enableTracing", VBool true)].

(** ** Sample inputs *)

(** A schema, as the caller holds it and as a tree. *)
Definition sample_heap : heap :=
  [CObj [("type", VStr "object")];
   CObj [("type", VStr "array"); ("items", VRef 0)];
   CObj [("value", VRef 1)];
   CObj [("type", VStr "object"); ("properties", VRef 2)]].

Definition sample_schema : json :=
  JObj [("type", JStr "object");
        ("properties",
         JObj [("value",
                JObj [("type", JStr "array");
                      ("items", JObj [("type", JStr "object")])])])].

(** [JSON.parse] on a few texts. *)
Definition parse_literal (text : string) : option json :=
  if String.eqb text "null" then Some JNull
  else if String.eqb text "true" then Some (JBool true)
  else if String.eqb text "false" then Some (JBool false)
  else if String.eqb text "{}" then Some (JObj [])
  else if String.eqb text "[]" then Some (JArr [])
  else None.

(** Backends that always reply, or fail, the same way. *)
Definition replying (c : Completion) : Client -> Request -> val -> BackendOutcome :=
  fun _ _ _ => Returns c.

Definition failing (e : thrown) : Client -> Request -> val -> BackendOutcome :=
  fun _ _ _ => Throws e.

Definition text_reply (text : string) : Completion :=
  {| output := [{| item_type := "message";
                   item_content := [{| part_type := "output_text"; part_text := text |}] |}];
     completion_usage := Some {| input_tokens := 12; output_tokens := 3; total_tokens := 15 |} |}.

Definition refusal_reply : Completion :=
  {| output := [{| item_type := "message";
                   item_content := [{| part_type := "refusal"; part_text := "" |}] |}];
     completion_usage := None |}.

Definition tool_call_reply : Completion :=
  {| output := [{| item_type := "function_call"; item_content := [] |}];
     completion_usage := None |}.

Definition empty_reply : Completion := {| output := []; completion_usage := None |}.

(** A caller's configuration with trace metadata, and the options of a
    call that name another model. *)
Definition caller_heap : heap :=
  [CObj [("userId", VStr "u1")];
   CObj [("model", VStr "gpt-4"); ("traceMetadata", VRef 0)];
   CObj [("model", VStr "claude-3-5-sonnet"); ("schema", VNull)];
   CObj [("type", VStr "object")]].

Definition caller_world : World :=
  {| heap_of := caller_heap; OPENAI_API_KEY := Some "sk-test";
     openaiClient := None; requests := [] |}.

(** A resolved configuration, as a dispatcher holds it. *)
Definition resolved_world (p : LLMProvider) : World :=
  {| heap_of := [CObj [("type", VStr "object")];
                 CObj [("model", VStr "gpt-4"); ("schema", VRef 0);
                       ("provider", VStr (provider_string p));
                       ("timeout", VNum 5000); ("enableTracing", VBool true)]];
     OPENAI_API_KEY := Some "sk-test"; openaiClient := None; requests := [] |}.

Definition abort_error : JSError :=
  {| err_name := Some "AbortError"; err_status := None;
     err_message := Some "Request was aborted." |}.


(** A timeout as the client library reports it: an error that is not
    named "AbortError". *)
Definition library_timeout_error : JSError :=
  {| err_name := Some "Error"; err_status := None;
     err_message := Some "Request timed out." |}.

(** A world without an API key, and one whose configuration holds a schema
    that contains itself. *)
Definition keyless_world : World :=
  {| heap_of := heap_of (resolved_world OpenAI); OPENAI_API_KEY := None;
     openaiClient := None; requests := [] |}.

Definition circular_world : World :=
  {| heap_of := [CObj [("type", VStr "object"); ("self", VRef 0)];
                 CObj [("model", VStr "gpt-4"); ("schema", VRef 0)]];
     OPENAI_API_KEY := Some "sk-test"; openaiClient := None; requests := [] |}.

(** A backend that replies under the timeout 90000 and is aborted under
    any other. *)
Definition impatient (c : Completion) : Client -> Request -> val -> BackendOutcome :=
  fun _ _ timeout =>
    if val_eqb timeout (VNum 90000) then Returns c else Throws (ThrownOther abort_error).

(** A configuration that names a provider in another spelling, and no
    model. *)
Definition misspelt_world : World :=
  {| heap_of := [CObj [("provider", VStr "OpenAI")]];
     OPENAI_API_KEY := Some "sk-test"; openaiClient := None; requests := [] |}.

(* ===================================================================== *)
(** * Properties *)
(* ===================================================================== *)

(** ** The layout of a parsed tree *)

Lemma json_induction (P : json -> Prop) :
  P JNull -> (forall b, P (JBool b)) -> (forall n, P (JNum n)) -> (forall s, P (JStr s)) ->
  (forall ts, Forall P ts -> P (JArr ts)) ->
  (forall ms, Forall (fun kc => P (snd kc)) ms -> P (JObj ms)) ->
  forall t, P t.
Proof.
  intros Hnull Hbool Hnum Hstr Harr Hobj.
  fix IH 1. intros [ | b | n | s | ts | ms ].
  - exact Hnull.
  - apply Hbool.
  - apply Hnum.
  - apply Hstr.
  - apply Harr. induction ts as [ | t ts IHts ]; constructor; [ apply IH | exact IHts ].
  - apply Hobj. induction ms as [ | [k t] ms IHms ]; constructor; [ apply IH | exact IHms ].
Qed.

Lemma layout_JArr n ts :
  layout n (JArr ts) =
  (VRef (n + length (bodies n ts)), bodies n ts ++ [CArr (roots n ts)]).
Proof.
  assert (E : forall n,
    (fix elements (n : loc) (ts : list json) : list val * list cell :=
           match ts with
           | [] => ([], [])
           | t :: ts' =>
               let '(v, c1) := layout n t in
               let '(vs, c2) := elements (n + length c1)%nat ts' in
               (v :: vs, c1 ++ c2)
           end) n ts = (roots n ts, bodies n ts)).
  { induction ts as [ | t ts IH ]; intros m; [ reflexivity | ].
    cbn [roots bodies]. unfold root, body.
    destruct (layout m t) as [v c1] eqn:E1. rewrite IH. reflexivity. }
  cbn [layout]. rewrite E. reflexivity.
Qed.

Lemma layout_JObj n ms :
  layout n (JObj ms) =
  (VRef (n + length (bodies n (map snd ms))),
   bodies n (map snd ms) ++ [CObj (combine (map fst ms) (roots n (map snd ms)))]).
Proof.
  assert (E : forall n,
    (fix members (n : loc) (ms : list (string * json)) : list (string * val) * list cell :=
           match ms with
           | [] => ([], [])
           | (k, t) :: ms' =>
               let '(v, c1) := layout n t in
               let '(ps, c2) := members (n + length c1)%nat ms' in
               ((k, v) :: ps, c1 ++ c2)
           end) n ms =
    (combine (map fst ms) (roots n (map snd ms)), bodies n (map snd ms))).
  { induction ms as [ | [k t] ms IH ]; intros m; [ reflexivity | ].
    cbn [roots bodies map combine fst snd]. unfold root, body.
    destruct (layout m t) as [v c1] eqn:E1. rewrite IH. reflexivity. }
  cbn [layout]. rewrite E. reflexivity.
Qed.

Lemma body_JArr n ts : body n (JArr ts) = bodies n ts ++ [CArr (roots n ts)].
Proof. unfold body. now rewrite layout_JArr. Qed.

Lemma body_JObj n ms :
  body n (JObj ms) =
  bodies n (map snd ms) ++ [CObj (combine (map fst ms) (roots n (map snd ms)))].
Proof. unfold body. now rewrite layout_JObj. Qed.

Lemma root_JArr n ts : root n (JArr ts) = VRef (n + length (bodies n ts)).
Proof. unfold root. now rewrite layout_JArr. Qed.

Lemma root_JObj n ms : root n (JObj ms) = VRef (n + length (bodies n (map snd ms))).
Proof. unfold root. now rewrite layout_JObj. Qed.

Lemma cells_members ms :
  fold_right (fun kc : string * json => Nat.add (cells (snd kc))) O ms = cells_list (map snd ms).
Proof.
  induction ms as [ | [k t] ms IH ]; [ reflexivity | ].
  cbn [map fold_right snd cells_list]. now rewrite IH.
Qed.

Lemma body_length t : forall n, length (body n t) = cells t.
Proof.
  induction t as [ | b | z | s | ts IH | ms IH ] using json_induction; intros n; try reflexivity.
  - rewrite body_JArr, length_app. cbn [length cells]. 
    enough (forall n, length (bodies n ts) = cells_list ts) as -> by (unfold cells_list; lia).
    induction IH as [ | t ts Ht Hts IHts ]; intros m; [ reflexivity | ].
    cbn [bodies cells_list fold_right]. rewrite length_app, Ht, IHts. reflexivity.
  - rewrite body_JObj, length_app. cbn [length cells]. rewrite cells_members.
    enough (forall n, length (bodies n (map snd ms)) = cells_list (map snd ms)) as -> by lia.
    induction IH as [ | [k t] ms Ht Hts IHts ]; intros m; [ reflexivity | ].
    cbn [bodies cells_list fold_right map snd]. rewrite length_app, Ht, IHts. reflexivity.
Qed.

Lemma bodies_length ts : forall n, length (bodies n ts) = cells_list ts.
Proof.
  induction ts as [ | t ts IH ]; intros n; [ reflexivity | ].
  cbn [bodies cells_list fold_right]. now rewrite length_app, body_length, IH.
Qed.

Lemma roots_cons n t ts : roots n (t :: ts) = root n t :: roots (n + cells t) ts.
Proof. cbn [roots]. now rewrite body_length. Qed.

Lemma bodies_cons n t ts : bodies n (t :: ts) = body n t ++ bodies (n + cells t) ts.
Proof. cbn [bodies]. now rewrite body_length. Qed.

Lemma cells_list_app ts1 ts2 : cells_list (ts1 ++ ts2) = (cells_list ts1 + cells_list ts2)%nat.
Proof. unfold cells_list. induction ts1 as [ | t ts1 IH ]; cbn; [ reflexivity | ]. rewrite IH. lia. Qed.

Lemma bodies_app ts1 : forall n ts2,
  bodies n (ts1 ++ ts2) = bodies n ts1 ++ bodies (n + cells_list ts1) ts2.
Proof.
  induction ts1 as [ | t ts1 IH ]; intros n ts2.
  - cbn. now rewrite Nat.add_0_r.
  - rewrite <- app_comm_cons, !bodies_cons, IH, <- app_assoc.
    do 3 f_equal. cbn [cells_list fold_right]. fold (cells_list ts1). lia.
Qed.

Lemma roots_app ts1 : forall n ts2,
  roots n (ts1 ++ ts2) = roots n ts1 ++ roots (n + cells_list ts1) ts2.
Proof.
  induction ts1 as [ | t ts1 IH ]; intros n ts2.
  - cbn. now rewrite Nat.add_0_r.
  - rewrite <- app_comm_cons, !roots_cons, IH, <- app_comm_cons.
    do 3 f_equal. cbn [cells_list fold_right]. fold (cells_list ts1). lia.
Qed.

Lemma roots_length ts : forall n, length (roots n ts) = length ts.
Proof. induction ts as [ | t ts IH ]; intros n; cbn; [ reflexivity | now rewrite IH ]. Qed.

Lemma cells_JArr ts : cells (JArr ts) = S (cells_list ts).
Proof. reflexivity. Qed.

Lemma cells_JObj ms : cells (JObj ms) = S (cells_list (map snd ms)).
Proof. cbn [cells]. now rewrite cells_members. Qed.

Lemma root_JArr' n ts : root n (JArr ts) = VRef (n + cells_list ts).
Proof. now rewrite root_JArr, bodies_length. Qed.

Lemma root_JObj' n ms : root n (JObj ms) = VRef (n + cells_list (map snd ms)).
Proof. now rewrite root_JObj, bodies_length. Qed.

Lemma depth_JArr ts : depth (JArr ts) = S (depth_list ts).
Proof. reflexivity. Qed.

Lemma depth_JObj ms : depth (JObj ms) = S (depth_list (map snd ms)).
Proof.
  cbn [depth]. f_equal. induction ms as [ | [k t] ms IH ]; [ reflexivity | ].
  cbn [map fold_right snd depth_list]. now rewrite IH.
Qed.

Lemma similar_refl t : similar t t.
Proof. repeat split; reflexivity. Qed.

Lemma similar_list cs cs' :
  Forall2 similar cs cs' ->
  (cells_list cs = cells_list cs' /\ forall n, roots n cs = roots n cs') /\
  depth_list cs = depth_list cs'.
Proof.
  induction 1 as [ | t t' cs cs' [[Hc Hr] Hd] _ [[IHc IHr] IHd] ]; [ repeat split; reflexivity | ].
  split; [ split | ].
  - cbn [cells_list fold_right]. fold (cells_list cs) (cells_list cs'). lia.
  - intros n. rewrite !roots_cons, Hr, Hc, IHr. reflexivity.
  - cbn [depth_list fold_right]. fold (depth_list cs) (depth_list cs'). lia.
Qed.

Lemma similar_JArr ts ts' : Forall2 similar ts ts' -> similar (JArr ts) (JArr ts').
Proof.
  intros H. destruct (similar_list _ _ H) as [[Hc Hr] Hd]. split; [ split | ].
  - rewrite !cells_JArr. lia.
  - intros n. rewrite !root_JArr'. now rewrite Hc.
  - rewrite !depth_JArr. lia.
Qed.

Lemma similar_JObj ms ms' :
  Forall2 similar (map snd ms) (map snd ms') -> similar (JObj ms) (JObj ms').
Proof.
  intros H. destruct (similar_list _ _ H) as [[Hc Hr] Hd]. split; [ split | ].
  - rewrite !cells_JObj. lia.
  - intros n. rewrite !root_JObj'. now rewrite Hc.
  - rewrite !depth_JObj. lia.
Qed.

Lemma Forall2_similar_map (F : json -> json) ts :
  Forall (fun t => similar t (F t)) ts -> Forall2 similar ts (map F ts).
Proof. induction 1; constructor; auto. Qed.

Lemma similar_map_values (g : string -> json -> json) ms :
  Forall (fun kc => similar (snd kc) (g (fst kc) (snd kc))) ms ->
  Forall2 similar (map snd ms) (map snd (map (fun kc : string * json => (fst kc, g (fst kc) (snd kc))) ms)).
Proof. induction 1; constructor; auto. Qed.

Lemma similar_trans t1 t2 t3 : similar t1 t2 -> similar t2 t3 -> similar t1 t3.
Proof.
  intros [[H1 H2] H5] [[H3 H4] H6].
  split; [ split; [ congruence | intros n; now rewrite H2 ] | congruence ].
Qed.

Lemma similar_snoc ms k b : similar (JObj ms) (JObj (ms ++ [(k, JBool b)])).
Proof.
  split; [ split | ].
  - rewrite !cells_JObj, map_app, cells_list_app. cbn. lia.
  - intros n. rewrite !root_JObj', map_app, cells_list_app. cbn. f_equal. lia.
  - rewrite !depth_JObj, map_app. f_equal. cbn [map snd].
    induction (map snd ms) as [ | c cs IH ]; [ reflexivity | ].
    rewrite <- app_comm_cons. cbn [depth_list fold_right].
    fold (depth_list cs) (depth_list (cs ++ [JBool b])). lia.
Qed.

Lemma similar_each_value F t :
  Forall (fun c => similar c (F c)) (elements_of t) ->
  Forall (fun kc : string * json => similar (snd kc) (F (snd kc))) (members_of t) ->
  similar t (each_value F t).
Proof.
  intros He Hm. destruct t; try apply similar_refl; cbn [each_value elements_of members_of] in *.
  - apply similar_JArr, Forall2_similar_map, He.
  - apply similar_JObj. induction Hm; constructor; auto.
Qed.

Lemma similar_each_element F t :
  Forall (fun c => similar c (F c)) (elements_of t) ->
  similar t (each_element F t).
Proof.
  intros He. destruct t; try apply similar_refl; cbn [each_element elements_of] in *.
  apply similar_JArr, Forall2_similar_map, He.
Qed.

Lemma closeObjects_JObj ms :
  closeObjects (JObj ms) =
  JObj (let ms' := map (fun kc : string * json =>
                          (fst kc, on_member closeObjects (fst kc) (snd kc))) ms in
        if declares_object ms && negb (has_key "additionalProperties" ms)
        then ms' ++ [("additionalProperties", JBool false)]
        else ms').
Proof. reflexivity. Qed.

Lemma similar_closeObjects_all t :
  similar t (closeObjects t) /\
  Forall (fun c => similar c (closeObjects c)) (elements_of t) /\
  Forall (fun kc : string * json => similar (snd kc) (closeObjects (snd kc))) (members_of t).
Proof.
  induction t as [ | b | z | s | ts IH | ms IH ] using json_induction;
    try (split; [ apply similar_refl | split; constructor ]).
  - assert (He : Forall (fun c => similar c (closeObjects c)) ts).
    { eapply Forall_impl; [ exact IH | ]. intros c Hc. apply Hc. }
    split; [ apply similar_refl | split; [ exact He | constructor ] ].
  - assert (Hm : Forall (fun kc : string * json => similar (snd kc) (closeObjects (snd kc))) ms).
    { eapply Forall_impl; [ exact IH | ]. intros c Hc. apply Hc. }
    split; [ | split; [ constructor | exact Hm ] ].
    assert (S1 : similar (JObj ms)
                   (JObj (map (fun kc : string * json =>
                                 (fst kc, on_member closeObjects (fst kc) (snd kc))) ms))).
    { apply similar_JObj. clear Hm.
      induction IH as [ | [k c] ms (Hc & He & Hm) _ IHms ]; constructor; [ | exact IHms ].
      cbn [fst snd]. unfold on_member.
      destruct (String.eqb k "properties"); [ now apply similar_each_value | ].
      destruct (String.eqb k "items"); [ exact Hc | ].
      destruct (combinator k); [ now apply similar_each_element | apply similar_refl ]. }
    rewrite closeObjects_JObj. cbv zeta.
    destruct (declares_object ms && negb (has_key "additionalProperties" ms));
      [ | exact S1 ].
    eapply similar_trans; [ exact S1 | apply similar_snoc ].
Qed.

Lemma similar_closeObjects t : similar t (closeObjects t).
Proof. apply similar_closeObjects_all. Qed.

(** ** Heap segments *)

Lemma lookup_segment (pre B suf : list cell) c :
  (pre ++ B ++ c :: suf) !! (length pre + length B)%nat = Some c.
Proof.
  rewrite app_assoc. apply list_lookup_middle. now rewrite length_app.
Qed.

Lemma insert_segment (pre B suf : list cell) c c' :
  <[(length pre + length B)%nat := c']> (pre ++ B ++ c :: suf) = pre ++ B ++ c' :: suf.
Proof.
  rewrite insert_app_r, <- (Nat.add_0_r (length B)), insert_app_r. reflexivity.
Qed.

(** ** Property lists *)

Lemma assoc_app_l {A} k (l1 l2 : list (string * A)) a :
  assoc k l1 = Some a -> assoc k (l1 ++ l2) = Some a.
Proof.
  induction l1 as [ | [k' a'] l1 IH ]; cbn; [ discriminate | ].
  destruct (String.eqb k k'); auto.
Qed.

Lemma assoc_app_r {A} k (l1 l2 : list (string * A)) :
  assoc k l1 = None -> assoc k (l1 ++ l2) = assoc k l2.
Proof.
  induction l1 as [ | [k' a'] l1 IH ]; cbn; [ reflexivity | ].
  destruct (String.eqb k k'); [ discriminate | auto ].
Qed.

Lemma assoc_None {A} k (l : list (string * A)) :
  assoc k l = None <-> k ∉ map fst l.
Proof.
  induction l as [ | [k' a'] l IH ]; cbn.
  - split; [ intros _; apply not_elem_of_nil | reflexivity ].
  - rewrite not_elem_of_cons. destruct (String.eqb_spec k k') as [ -> | Hne ].
    + split; [ discriminate | intros [ ? _ ]; congruence ].
    + rewrite IH. tauto.
Qed.

Lemma assoc_split {A} k (l : list (string * A)) a :
  assoc k l = Some a ->
  exists l1 l2, l = l1 ++ (k, a) :: l2 /\ assoc k l1 = None.
Proof.
  induction l as [ | [k' a'] l IH ]; cbn; [ discriminate | ].
  destruct (String.eqb_spec k k') as [ -> | Hne ].
  - intros [= ->]. exists [], l. split; reflexivity.
  - intros H. destruct (IH H) as (l1 & l2 & -> & Hn).
    exists ((k', a') :: l1), l2. split; [ reflexivity | ].
    cbn. destruct (String.eqb_spec k k'); [ congruence | exact Hn ].
Qed.

Lemma assign_fresh {A} k (a : A) l :
  assoc k l = None -> assign k a l = l ++ [(k, a)].
Proof.
  induction l as [ | [k' a'] l IH ]; cbn; [ reflexivity | ].
  destruct (String.eqb k k'); [ discriminate | ]. intros H. now rewrite IH.
Qed.

Lemma assoc_assign_eq {A} k (a : A) l : assoc k (assign k a l) = Some a.
Proof.
  induction l as [ | [k' a'] l IH ]; cbn [assign assoc]; [ now rewrite String.eqb_refl | ].
  destruct (String.eqb k k') eqn:E; cbn [assoc]; [ now rewrite String.eqb_refl | now rewrite E ].
Qed.

Lemma assoc_assign_ne {A} k k' (a : A) l : k <> k' -> assoc k (assign k' a l) = assoc k l.
Proof.
  intros Hne. induction l as [ | [k0 a0] l IH ]; cbn [assign assoc].
  - now destruct (String.eqb_spec k k').
  - destruct (String.eqb_spec k' k0) as [ <- | ]; cbn [assoc].
    + now destruct (String.eqb_spec k k').
    + now rewrite IH.
Qed.

Lemma assign_id {A} k (a : A) l : assoc k l = Some a -> assign k a l = l.
Proof.
  induction l as [ | [k' a'] l IH ]; cbn [assign assoc]; [ discriminate | ].
  destruct (String.eqb_spec k k') as [ -> | ]; [ now intros [= ->] | ].
  intros H. now rewrite IH.
Qed.

Lemma assoc_combine_None {A B} k (ms : list (string * A)) (vs : list B) :
  assoc k ms = None -> assoc k (combine (map fst ms) vs) = None.
Proof.
  revert vs. induction ms as [ | [k' a'] ms IH ]; intros [ | v vs ]; cbn; auto.
  destruct (String.eqb k k'); [ discriminate | auto ].
Qed.

Lemma assoc_combine_roots k ms1 c ms2 n :
  assoc k ms1 = None ->
  assoc k (combine (map fst (ms1 ++ (k, c) :: ms2))
                   (roots n (map snd (ms1 ++ (k, c) :: ms2)))) =
  Some (root (n + cells_list (map snd ms1)) c).
Proof.
  revert n. induction ms1 as [ | [k' a'] ms1 IH ]; intros n.
  - intros _. cbn. rewrite String.eqb_refl, Nat.add_0_r. reflexivity.
  - cbn [assoc]. destruct (String.eqb k k') eqn:E; [ discriminate | ]. intros H.
    rewrite <- app_comm_cons. cbn [map fst snd]. rewrite roots_cons. cbn [combine assoc].
    rewrite E, IH by exact H. do 2 f_equal.
    cbn [cells_list fold_right]. fold (cells_list (map snd ms1)). lia.
Qed.

Lemma has_key_combine k ms n :
  has_key k (combine (map fst ms) (roots n (map snd ms))) = has_key k ms.
Proof.
  unfold has_key. destruct (assoc k ms) as [ c | ] eqn:E.
  - destruct (assoc_split _ _ _ E) as (ms1 & ms2 & -> & Hn).
    now rewrite assoc_combine_roots.
  - now rewrite assoc_combine_None.
Qed.

(** Reading every property of an object, and every element of an array. *)
Lemma read_properties (ks : list string) : forall (vs : list val),
  NoDup ks -> length vs = length ks ->
  map (getKey (CObj (combine ks vs))) (map PName ks) = vs.
Proof.
  induction ks as [ | k ks IH ]; intros [ | v vs ] Hnd Hlen; try discriminate; [ reflexivity | ].
  apply NoDup_cons in Hnd as [Hk Hnd]. cbn [map combine getKey assoc].
  rewrite String.eqb_refl. cbn [default from_option]. f_equal.
  rewrite <- (IH vs Hnd) at 2 by (cbn in Hlen; lia).
  rewrite !map_map. apply map_ext_in. intros k' Hin. cbn [getKey assoc].
  destruct (String.eqb_spec k' k) as [ -> | ]; [ | reflexivity ].
  exfalso. apply Hk. now apply list_elem_of_In.
Qed.

Lemma read_elements (vs : list val) :
  map (getKey (CArr vs)) (map PIndex (seq 0 (length vs))) = vs.
Proof.
  rewrite map_map. cbn [getKey].
  apply list_eq. intros i. rewrite list_lookup_fmap.
  destruct (vs !! i) as [ v | ] eqn:E.
  - rewrite (lookup_seq_lt _ _ _ (lookup_lt_Some _ _ _ E)). cbn. now rewrite E.
  - rewrite lookup_seq_ge by (now apply lookup_ge_None). reflexivity.
Qed.

(** ** The in-place traversal computes [closeObjects] *)

Lemma visit_children f F : forall todo ks pre suf c l,
  l = (length pre + cells_list todo)%nat ->
  map (getKey c) ks = roots (length pre) todo ->
  Forall (fun t => similar t (F t) /\ transforms f F t) todo ->
  for_each (fun key h => f (get h (VRef l) key) h) ks
           (pre ++ bodies (length pre) todo ++ c :: suf) =
  Some (pre ++ bodies (length pre) (map F todo) ++ c :: suf).
Proof.
  induction todo as [ | t todo IH ]; intros ks pre suf c l Hl Hks Hall.
  - destruct ks; [ reflexivity | discriminate ].
  - destruct ks as [ | k ks ]; [ discriminate | ].
    rewrite roots_cons in Hks. cbn [map] in Hks. injection Hks as Hk Hks.
    apply Forall_cons in Hall as [[[[Hc Hr] _] Ht] Hall].
    cbn [for_each map]. unfold get at 1.
    assert (Hlook : (pre ++ bodies (length pre) (t :: todo) ++ c :: suf) !! l = Some c).
    { subst l. rewrite <- (bodies_length (t :: todo) (length pre)). apply lookup_segment. }
    rewrite Hlook, Hk.
    rewrite bodies_cons, <- (app_assoc (body _ t)), (Ht pre).
    specialize (IH ks (pre ++ body (length pre) (F t)) suf c l).
    rewrite length_app, body_length, <- Hc in IH.
    rewrite <- !app_assoc in IH. rewrite IH; [ | | exact Hks | exact Hall ].
    + rewrite bodies_cons, <- Hc, <- !app_assoc. reflexivity.
    + subst l. cbn [cells_list fold_right]. fold (cells_list todo). lia.
Qed.

Lemma fst_combine_roots {A} (ms : list (string * A)) (vs : list val) :
  length vs = length ms -> map fst (combine (map fst ms) vs) = map fst ms.
Proof.
  revert vs. induction ms as [ | [k a] ms IH ]; intros [ | v vs ] H;
    try discriminate; try reflexivity.
  cbn. f_equal. apply IH. cbn in H. lia.
Qed.

Lemma forEach_JObj f F pm pre suf :
  NoDup (map fst pm) ->
  Forall (fun kc : string * json => similar (snd kc) (F (snd kc)) /\ transforms f F (snd kc)) pm ->
  forEach f (root (length pre) (JObj pm)) (pre ++ body (length pre) (JObj pm) ++ suf) =
  Some (pre ++ body (length pre) (JObj (map (fun kc : string * json => (fst kc, F (snd kc))) pm)) ++ suf).
Proof.
  intros Hnd Hall.
  assert (Hall' : Forall (fun t => similar t (F t) /\ transforms f F t) (map snd pm)).
  { clear Hnd. induction Hall; cbn [map]; constructor; auto. }
  assert (Hsim : Forall2 similar (map snd pm) (map F (map snd pm))).
  { apply Forall2_similar_map. eapply Forall_impl; [ exact Hall' | ]. now intros t [? _]. }
  destruct (similar_list _ _ Hsim) as [[_ Hroots] _].
  rewrite root_JObj', !body_JObj, <- !app_assoc. cbn [app].
  unfold forEach, keysOf.
  rewrite <- (bodies_length (map snd pm) (length pre)) at 1.
  rewrite lookup_segment. cbn [from_option ownKeys].
  rewrite <- (map_map fst PName), fst_combine_roots
    by (now rewrite roots_length, !length_map).
  rewrite (visit_children f F (map snd pm)); [ | reflexivity | | exact Hall' ].
  - do 4 f_equal.
    + now rewrite !map_map.
    + f_equal. rewrite !map_map. cbn [fst snd].
      rewrite <- (map_map snd F), <- Hroots. reflexivity.
  - apply read_properties; [ exact Hnd | now rewrite roots_length, !length_map ].
Qed.

Lemma forEach_JArr f F ts pre suf :
  Forall (fun t => similar t (F t) /\ transforms f F t) ts ->
  forEach f (root (length pre) (JArr ts)) (pre ++ body (length pre) (JArr ts) ++ suf) =
  Some (pre ++ body (length pre) (JArr (map F ts)) ++ suf).
Proof.
  intros Hall.
  assert (Hsim : Forall2 similar ts (map F ts)).
  { apply Forall2_similar_map. eapply Forall_impl; [ exact Hall | ]. now intros t [? _]. }
  destruct (similar_list _ _ Hsim) as [[_ Hroots] _].
  rewrite root_JArr', !body_JArr, <- !app_assoc. cbn [app].
  unfold forEach, keysOf.
  rewrite <- (bodies_length ts (length pre)) at 1.
  rewrite lookup_segment. cbn [from_option ownKeys].
  rewrite (visit_children f F ts); [ | reflexivity | | exact Hall ].
  - now rewrite <- Hroots.
  - apply read_elements.
Qed.

Lemma alter_member_absent k G ms : k ∉ map fst ms -> alter_member k G ms = ms.
Proof.
  intros Hk. unfold alter_member. rewrite <- (map_id ms) at 2.
  apply map_ext_in. intros [k' c] Hin. cbn [fst snd].
  destruct (String.eqb_spec k' k) as [ -> | ]; [ | reflexivity ].
  exfalso. apply Hk, list_elem_of_In, in_map_iff. exists (k, c). split; [ reflexivity | exact Hin ].
Qed.

Lemma alter_member_split k G ms1 c ms2 :
  k ∉ map fst ms1 -> k ∉ map fst ms2 ->
  alter_member k G (ms1 ++ (k, c) :: ms2) = ms1 ++ (k, G c) :: ms2.
Proof.
  intros H1 H2. unfold alter_member. rewrite map_app. cbn [map fst snd].
  rewrite String.eqb_refl.
  fold (alter_member k G ms1) (alter_member k G ms2).
  now rewrite !alter_member_absent.
Qed.

Lemma body_JObj_split n ms1 k c ms2 :
  let m := (n + cells_list (map snd ms1))%nat in
  body n (JObj (ms1 ++ (k, c) :: ms2)) =
  bodies n (map snd ms1) ++ body m c ++
  (bodies (m + cells c) (map snd ms2) ++
   [CObj (combine (map fst (ms1 ++ (k, c) :: ms2))
                  (roots n (map snd (ms1 ++ (k, c) :: ms2))))]).
Proof.
  intros m. rewrite body_JObj, map_app at 1. cbn [map snd].
  rewrite bodies_app, bodies_cons, <- !app_assoc. reflexivity.
Qed.

Lemma field_step k G op ms pre suf :
  NoDup (map fst ms) ->
  (forall c, assoc k ms = Some c -> similar c (G c) /\ transforms op G c) ->
  (forall h, op VUndef h = Some h) ->
  op (getField (pre ++ body (length pre) (JObj ms) ++ suf) (root (length pre) (JObj ms)) k)
     (pre ++ body (length pre) (JObj ms) ++ suf) =
  Some (pre ++ body (length pre) (JObj (alter_member k G ms)) ++ suf).
Proof.
  intros Hnd Hc Hu.
  assert (Hget : getField (pre ++ body (length pre) (JObj ms) ++ suf)
                          (root (length pre) (JObj ms)) k =
                 default VUndef (assoc k (combine (map fst ms)
                                                  (roots (length pre) (map snd ms))))).
  { rewrite root_JObj', body_JObj, <- app_assoc. cbn [app]. unfold getField, get.
    rewrite <- (bodies_length (map snd ms) (length pre)) at 1.
    rewrite lookup_segment. reflexivity. }
  rewrite Hget. clear Hget.
  destruct (assoc k ms) as [ c | ] eqn:E.
  - destruct (assoc_split _ _ _ E) as (ms1 & ms2 & -> & Hn1).
    destruct (Hc c eq_refl) as [[[Hcells Hroot] Hdepth] Ht].
    assert (Hk1 : k ∉ map fst ms1) by (now apply assoc_None).
    assert (Hk2 : k ∉ map fst ms2).
    { rewrite map_app in Hnd. cbn [map fst] in Hnd.
      apply NoDup_app in Hnd as (_ & _ & Hnd). now apply NoDup_cons in Hnd as [? _]. }
    rewrite assoc_combine_roots by exact Hn1. cbn [default from_option].
    rewrite alter_member_split by assumption.
    rewrite !body_JObj_split. cbv zeta.
    set (m := (length pre + cells_list (map snd ms1))%nat).
    assert (Hroots : roots (length pre) (map snd (ms1 ++ (k, G c) :: ms2)) =
                     roots (length pre) (map snd (ms1 ++ (k, c) :: ms2))).
    { symmetry. apply similar_list. rewrite !map_app. cbn [map snd].
      apply Forall2_app; [ apply Forall2_same_length_lookup_2; [ reflexivity | ] | ].
      - intros i x y Hx Hy. rewrite Hx in Hy. injection Hy as ->. apply similar_refl.
      - constructor; [ repeat split; assumption | ].
        apply Forall2_same_length_lookup_2; [ reflexivity | ].
        intros i x y Hx Hy. rewrite Hx in Hy. injection Hy as ->. apply similar_refl. }
    rewrite Hroots, <- Hcells.
    replace (map fst (ms1 ++ (k, G c) :: ms2)) with (map fst (ms1 ++ (k, c) :: ms2))
      by (now rewrite !map_app).
    match goal with
    | |- op _ (pre ++ (_ ++ _ ++ ?rest) ++ suf) = _ =>
        specialize (Ht (pre ++ bodies (length pre) (map snd ms1)) (rest ++ suf))
    end.
    rewrite length_app, bodies_length in Ht. fold m in Ht.
    rewrite <- !app_assoc in Ht. rewrite <- !app_assoc. apply Ht.
  - rewrite assoc_combine_None by exact E. cbn [default from_option].
    rewrite alter_member_absent by (now apply assoc_None). apply Hu.
Qed.

Lemma same_fields_refl h : same_fields h h.
Proof. intros o k _. reflexivity. Qed.

Lemma same_fields_trans h1 h2 h3 :
  same_fields h1 h2 -> same_fields h2 h3 -> same_fields h1 h3.
Proof. intros H12 H23 o k Hk. now rewrite H23, H12. Qed.

Lemma same_fields_setField h obj a :
  same_fields h (setField h obj "additionalProperties" a).
Proof.
  intros o k Hk. unfold setField.
  destruct obj as [ | | | | | l ]; try reflexivity.
  destruct (h !! l) as [ [ props | elems ] | ] eqn:El; try reflexivity.
  unfold getField, get. destruct o as [ | | | | | l' ]; try reflexivity.
  destruct (Nat.eq_dec l l') as [ <- | Hne ].
  - rewrite list_lookup_insert_eq by (now apply lookup_lt_Some in El).
    rewrite El. cbn [getKey]. now rewrite assoc_assign_ne.
  - now rewrite list_lookup_insert_ne.
Qed.

Lemma for_each_related {K} (R : heap -> heap -> Prop) (body : K -> heap -> option heap) ks :
  (forall h, R h h) -> (forall h1 h2 h3, R h1 h2 -> R h2 h3 -> R h1 h3) ->
  (forall k h h', body k h = Some h' -> R h h') ->
  forall h h', for_each body ks h = Some h' -> R h h'.
Proof.
  intros Hrefl Htrans Hbody. induction ks as [ | k ks IH ]; intros h h'; cbn [for_each].
  - intros [= <-]. apply Hrefl.
  - destruct (body k h) as [ h1 | ] eqn:E; [ | discriminate ].
    intros H. eapply Htrans; [ exact (Hbody _ _ _ E) | exact (IH _ _ H) ].
Qed.

Lemma processSchema_same_fields fuel : forall obj h h',
  processSchema fuel obj h = Some h' -> same_fields h h'.
Proof.
  induction fuel as [ | fuel IH ]; intros obj h h'.
  { destruct obj; cbn; try discriminate; intros [= <-]; apply same_fields_refl. }
  destruct obj as [ | | | | | l ]; try (cbn; intros [= <-]; apply same_fields_refl).
  cbn [processSchema]. cbv zeta.
  set (h1 := if _ && _ then _ else h).
  assert (H1 : same_fields h h1).
  { subst h1. destruct (_ && _); [ apply same_fields_setField | apply same_fields_refl ]. }
  clearbody h1.
  assert (Hloop : forall {K} (body : K -> heap -> option heap) ks ha hb,
            (forall k x x', body k x = Some x' -> same_fields x x') ->
            for_each body ks ha = Some hb -> same_fields ha hb).
  { intros K body ks ha hb Hbody.
    apply (for_each_related same_fields body ks same_fields_refl same_fields_trans Hbody). }
  destruct (if truthy _ && typeof_object _ then _ else _) as [ h2 | ] eqn:E2;
    [ | discriminate ].
  assert (H2 : same_fields h1 h2).
  { match type of E2 with (if ?c then _ else _) = _ => destruct c end;
      [ | injection E2 as <-; apply same_fields_refl ].
    eapply Hloop; [ | exact E2 ]. intros key x x'. apply IH. }
  cbn [mbind option_bind].
  destruct (if truthy _ then _ else _) as [ h3 | ] eqn:E3; [ | discriminate ].
  assert (H3 : same_fields h2 h3).
  { match type of E3 with (if ?c then _ else _) = _ => destruct c end;
      [ exact (IH _ _ _ E3) | injection E3 as <-; apply same_fields_refl ]. }
  cbn [mbind option_bind]. intros E4.
  assert (H4 : same_fields h3 h').
  { eapply Hloop; [ | exact E4 ]. intros key x x'. cbv beta.
    destruct (isArray x _); [ | intros [= <-]; apply same_fields_refl ].
    unfold forEach. apply Hloop. intros key' y y'. apply IH. }
  eauto using same_fields_trans.
Qed.

(** In the loop over [obj.properties] that property is read again at every
    turn; it is the same object every time. *)
Lemma for_each_properties fuel obj properties ks : forall h,
  getField h obj "properties" = properties ->
  for_each (fun key h => processSchema fuel (get h (getField h obj "properties") key) h) ks h =
  for_each (fun key h => processSchema fuel (get h properties key) h) ks h.
Proof.
  induction ks as [ | key ks IH ]; intros h Hp; [ reflexivity | ].
  cbn [for_each]. rewrite Hp.
  destruct (processSchema fuel (get h properties key) h) as [ h' | ] eqn:E; [ | reflexivity ].
  apply IH. rewrite <- Hp. now apply (processSchema_same_fields _ _ _ _ E).
Qed.

Lemma processSchema_step fuel l h :
  processSchema (S fuel) (VRef l) h =
  let obj := VRef l in
  let h1 :=
    if strict_equal (getField h obj "type") (VStr "object") &&
       negb (hasField h obj "additionalProperties")
    then setField h obj "additionalProperties" (VBool false)
    else h in
  h2 ← visit_properties (processSchema fuel) (getField h1 obj "properties") h1;
  h3 ← visit_items (processSchema fuel) (getField h2 obj "items") h2;
  h4 ← visit_combinator (processSchema fuel) (getField h3 obj "anyOf") h3;
  h5 ← visit_combinator (processSchema fuel) (getField h4 obj "allOf") h4;
  visit_combinator (processSchema fuel) (getField h5 obj "oneOf") h5.
Proof.
  cbn [processSchema for_each]. cbv zeta. unfold visit_properties, visit_items, visit_combinator.
  erewrite for_each_properties by reflexivity. fold (forEach (processSchema fuel)).
  destruct (if truthy _ && typeof_object _ then _ else _) as [ h2 | ]; [ | reflexivity ].
  cbn [mbind option_bind].
  destruct (if truthy _ then _ else _) as [ h3 | ]; [ | reflexivity ].
  cbn [mbind option_bind].
  destruct (if isArray h3 _ then _ else _) as [ h4 | ]; [ | reflexivity ].
  cbn [mbind option_bind].
  destruct (if isArray h4 _ then _ else _) as [ h5 | ]; [ | reflexivity ].
  cbn [mbind option_bind].
  destruct (if isArray h5 _ then _ else _) as [ h6 | ]; reflexivity.
Qed.

Lemma processSchema_primitive fuel v h :
  (forall l, v <> VRef l) -> processSchema fuel v h = Some h.
Proof. intros H. destruct fuel, v; try reflexivity; now destruct (H l). Qed.

Lemma root_primitive n t : primitive t -> (forall l, root n t <> VRef l) /\ body n t = [].
Proof. destruct t; cbn; try tauto; (split; [ discriminate | reflexivity ]). Qed.

Lemma closeObjects_primitive t : primitive t -> closeObjects t = t.
Proof. destruct t; cbn; tauto. Qed.

Lemma depth_elements ts c : c ∈ ts -> (depth c < depth (JArr ts))%nat.
Proof.
  cbn [depth]. induction 1 as [ c ts | c c' ts _ IH ]; cbn [fold_right]; lia.
Qed.

Lemma depth_members ms kc : kc ∈ ms -> (depth (snd kc) < depth (JObj ms))%nat.
Proof.
  cbn [depth]. induction 1 as [ c ts | c c' ts _ IH ]; cbn [fold_right]; lia.
Qed.

Lemma distinct_names_JObj ms :
  distinct_names (JObj ms) = true ->
  NoDup (map fst ms) /\ Forall (fun kc : string * json => distinct_names (snd kc) = true) ms.
Proof.
  cbn [distinct_names]. rewrite andb_true_iff, bool_decide_eq_true, forallb_forall.
  intros [Hnd Hall]. split; [ exact Hnd | ].
  apply Forall_forall. intros kc Hin. apply Hall. now apply list_elem_of_In.
Qed.

Lemma distinct_names_JArr ts :
  distinct_names (JArr ts) = true -> Forall (fun c => distinct_names c = true) ts.
Proof.
  cbn [distinct_names]. rewrite forallb_forall. intros Hall.
  apply Forall_forall. intros c Hin. apply Hall. now apply list_elem_of_In.
Qed.

Lemma lookup_root_JObj pre ms suf :
  (pre ++ body (length pre) (JObj ms) ++ suf) !! (length pre + cells_list (map snd ms))%nat =
  Some (CObj (combine (map fst ms) (roots (length pre) (map snd ms)))).
Proof.
  rewrite body_JObj, <- app_assoc. cbn [app].
  rewrite <- (bodies_length (map snd ms) (length pre)) at 1. apply lookup_segment.
Qed.

Lemma lookup_root_JArr pre ts suf :
  (pre ++ body (length pre) (JArr ts) ++ suf) !! (length pre + cells_list ts)%nat =
  Some (CArr (roots (length pre) ts)).
Proof.
  rewrite body_JArr, <- app_assoc. cbn [app].
  rewrite <- (bodies_length ts (length pre)) at 1. apply lookup_segment.
Qed.

Lemma similar_each_value_closeObjects t : similar t (each_value closeObjects t).
Proof. apply similar_each_value; apply similar_closeObjects_all. Qed.

Lemma similar_each_element_closeObjects t : similar t (each_element closeObjects t).
Proof. apply similar_each_element; apply similar_closeObjects_all. Qed.

Lemma root_JArr_object n ts :
  truthy (root n (JArr ts)) = true /\ typeof_object (root n (JArr ts)) = true.
Proof. now rewrite root_JArr'. Qed.

Lemma root_JObj_object n ms :
  truthy (root n (JObj ms)) = true /\ typeof_object (root n (JObj ms)) = true.
Proof. now rewrite root_JObj'. Qed.

Section traversal_step.
Variable fuel : nat.
Variable f : val -> heap -> option heap.
Hypothesis f_primitive : forall v h, (forall l, v <> VRef l) -> f v h = Some h.
Hypothesis f_transforms :
  forall t, (depth t <= fuel)%nat -> distinct_names t = true -> transforms f closeObjects t.

Lemma transforms_primitive (op : val -> heap -> option heap) G t :
  primitive t -> G t = t ->
  (forall h, op (root 0 t) h = Some h) ->
  transforms op G t.
Proof.
  intros Hp HG Hop pre suf. rewrite HG.
  replace (root (length pre) t) with (root 0 t) by (destruct t; cbn in *; tauto).
  apply Hop.
Qed.

Lemma visit_properties_transforms c :
  (depth c <= fuel)%nat -> distinct_names c = true ->
  transforms (visit_properties f) (each_value closeObjects) c.
Proof.
  intros Hd Hwf.
  destruct c as [ | b | z | s | ts | pm ];
    try (apply transforms_primitive; [ exact I | reflexivity | ];
         intros h; cbn; unfold visit_properties; cbn;
         now rewrite ?andb_false_r).
  - intros pre suf. unfold visit_properties.
    rewrite (proj1 (root_JArr_object _ _)), (proj2 (root_JArr_object _ _)).
    cbn [andb each_value].
    apply forEach_JArr. apply Forall_forall. intros c Hin.
    split; [ apply similar_closeObjects | ].
    apply f_transforms.
    + pose proof (depth_elements _ _ Hin). lia.
    + apply distinct_names_JArr in Hwf. rewrite Forall_forall in Hwf.
      now apply Hwf.
  - intros pre suf. unfold visit_properties.
    rewrite (proj1 (root_JObj_object _ _)), (proj2 (root_JObj_object _ _)).
    cbn [andb each_value].
    apply distinct_names_JObj in Hwf as [Hnd Hwf].
    apply forEach_JObj; [ exact Hnd | ].
    apply Forall_forall. intros kc Hin.
    split; [ apply similar_closeObjects | ].
    apply f_transforms.
    + pose proof (depth_members _ _ Hin). lia.
    + rewrite Forall_forall in Hwf. now apply Hwf.
Qed.

Lemma visit_items_transforms c :
  (depth c <= fuel)%nat -> distinct_names c = true ->
  transforms (visit_items f) closeObjects c.
Proof.
  intros Hd Hwf pre suf. unfold visit_items.
  destruct (truthy (root (length pre) c)) eqn:E; [ now apply f_transforms | ].
  assert (Hp : primitive c).
  { destruct c; cbn; auto; [ rewrite root_JArr' in E | rewrite root_JObj' in E ]; discriminate. }
  rewrite (closeObjects_primitive _ Hp). reflexivity.
Qed.

Lemma visit_combinator_transforms c :
  (depth c <= fuel)%nat -> distinct_names c = true ->
  transforms (visit_combinator f) (each_element closeObjects) c.
Proof.
  intros Hd Hwf.
  destruct c as [ | b | z | s | ts | pm ];
    try (apply transforms_primitive; [ exact I | reflexivity | ];
         intros h; reflexivity).
  - intros pre suf. unfold visit_combinator, isArray. rewrite root_JArr' at 1.
    rewrite lookup_root_JArr. cbn [each_element].
    apply forEach_JArr. apply Forall_forall. intros c Hin.
    split; [ apply similar_closeObjects | ].
    apply f_transforms.
    + pose proof (depth_elements _ _ Hin). lia.
    + apply distinct_names_JArr in Hwf. rewrite Forall_forall in Hwf.
      now apply Hwf.
  - intros pre suf. unfold visit_combinator, isArray. rewrite root_JObj' at 1.
    rewrite lookup_root_JObj. reflexivity.
Qed.
End traversal_step.

Lemma getField_JObj pre ms suf k :
  getField (pre ++ body (length pre) (JObj ms) ++ suf) (root (length pre) (JObj ms)) k =
  default VUndef (assoc k (combine (map fst ms) (roots (length pre) (map snd ms)))).
Proof.
  rewrite root_JObj'. unfold getField, get. now rewrite lookup_root_JObj.
Qed.

Lemma getField_JArr pre ts suf k :
  String.eqb k "length" = false ->
  getField (pre ++ body (length pre) (JArr ts) ++ suf) (root (length pre) (JArr ts)) k = VUndef.
Proof.
  intros Hk. rewrite root_JArr'. unfold getField, get. rewrite lookup_root_JArr.
  cbn [getKey]. now rewrite Hk.
Qed.

Lemma hasField_JObj pre ms suf k :
  hasField (pre ++ body (length pre) (JObj ms) ++ suf) (root (length pre) (JObj ms)) k =
  has_key k ms.
Proof.
  rewrite root_JObj'. unfold hasField. rewrite lookup_root_JObj. apply has_key_combine.
Qed.

Lemma strict_equal_root n t s :
  strict_equal (root n t) (VStr s) =
  match t with JStr s' => String.eqb s' s | _ => false end.
Proof.
  destruct t; try reflexivity; [ now rewrite root_JArr' | now rewrite root_JObj' ].
Qed.

Lemma type_test pre ms suf :
  strict_equal (getField (pre ++ body (length pre) (JObj ms) ++ suf)
                         (root (length pre) (JObj ms)) "type") (VStr "object") =
  declares_object ms.
Proof.
  rewrite getField_JObj. unfold declares_object.
  destruct (assoc "type" ms) as [ c | ] eqn:E.
  - destruct (assoc_split _ _ _ E) as (ms1 & ms2 & -> & Hn).
    rewrite assoc_combine_roots by exact Hn. cbn [default from_option id].
    rewrite strict_equal_root. now destruct c.
  - now rewrite assoc_combine_None.
Qed.

Lemma combine_snoc {A B} (ks : list A) (vs : list B) k v :
  length ks = length vs -> combine (ks ++ [k]) (vs ++ [v]) = combine ks vs ++ [(k, v)].
Proof.
  revert vs. induction ks as [ | k' ks IH ]; intros [ | v' vs ] H; try discriminate.
  - reflexivity.
  - cbn. f_equal. apply IH. cbn in H. lia.
Qed.

Lemma body_JObj_snoc n ms k b :
  body n (JObj (ms ++ [(k, JBool b)])) =
  bodies n (map snd ms) ++
  [CObj (combine (map fst ms) (roots n (map snd ms)) ++ [(k, VBool b)])].
Proof.
  rewrite body_JObj, !map_app. cbn [map fst snd].
  rewrite bodies_app, roots_app. cbn [bodies roots body root layout fst snd app].
  rewrite app_nil_r, combine_snoc by (now rewrite roots_length, !length_map).
  reflexivity.
Qed.

Lemma setField_JObj pre ms suf k b :
  has_key k ms = false ->
  setField (pre ++ body (length pre) (JObj ms) ++ suf) (root (length pre) (JObj ms)) k (VBool b) =
  pre ++ body (length pre) (JObj (ms ++ [(k, JBool b)])) ++ suf.
Proof.
  intros Hk. rewrite root_JObj'. unfold setField. rewrite lookup_root_JObj.
  rewrite assign_fresh.
  - rewrite body_JObj, body_JObj_snoc, <- !app_assoc. cbn [app].
    rewrite <- (bodies_length (map snd ms) (length pre)) at 1. apply insert_segment.
  - rewrite <- (has_key_combine k ms (length pre)) in Hk. unfold has_key in Hk.
    now destruct (assoc k _).
Qed.

Lemma assoc_alter_member_ne k k' G ms :
  k' <> k -> assoc k' (alter_member k G ms) = assoc k' ms.
Proof.
  intros Hne. induction ms as [ | [k0 c] ms IH ]; [ reflexivity | ].
  cbn [alter_member map fst snd assoc]. fold (alter_member k G ms).
  destruct (String.eqb_spec k' k0) as [ <- | ]; [ | exact IH ].
  destruct (String.eqb_spec k' k); [ contradiction | reflexivity ].
Qed.

Lemma keys_alter_member k G ms : map fst (alter_member k G ms) = map fst ms.
Proof. unfold alter_member. rewrite map_map. reflexivity. Qed.

Lemma similar_alter_member k G ms :
  (forall c, similar c (G c)) -> similar (JObj ms) (JObj (alter_member k G ms)).
Proof.
  intros HG. apply similar_JObj. induction ms as [ | [k0 c] ms IH ]; [ constructor | ].
  cbn [alter_member map fst snd]. constructor; [ | exact IH ].
  destruct (String.eqb k0 k); [ apply HG | apply similar_refl ].
Qed.

Lemma assoc_elem {A} k (ms : list (string * A)) c : assoc k ms = Some c -> (k, c) ∈ ms.
Proof.
  intros H. destruct (assoc_split _ _ _ H) as (ms1 & ms2 & -> & _).
  apply elem_of_app. right. constructor.
Qed.

Lemma field_step_chain k G op ms pre suf obj :
  obj = root (length pre) (JObj ms) ->
  NoDup (map fst ms) ->
  (forall c, similar c (G c)) ->
  (forall c, assoc k ms = Some c -> transforms op G c) ->
  (forall h, op VUndef h = Some h) ->
  op (getField (pre ++ body (length pre) (JObj ms) ++ suf) obj k)
     (pre ++ body (length pre) (JObj ms) ++ suf) =
  Some (pre ++ body (length pre) (JObj (alter_member k G ms)) ++ suf) /\
  obj = root (length pre) (JObj (alter_member k G ms)) /\
  NoDup (map fst (alter_member k G ms)).
Proof.
  intros -> Hnd HG Hop Hu. split; [ | split ].
  - apply field_step; auto.
  - apply similar_alter_member, HG.
  - now rewrite keys_alter_member.
Qed.

Lemma members_dispatch F ms :
  alter_member "oneOf" (each_element F)
    (alter_member "allOf" (each_element F)
       (alter_member "anyOf" (each_element F)
          (alter_member "items" F
             (alter_member "properties" (each_value F) ms)))) =
  map (fun kc : string * json => (fst kc, on_member F (fst kc) (snd kc))) ms.
Proof.
  unfold alter_member. rewrite !map_map. apply map_ext. intros [k c]. cbn [fst snd].
  unfold on_member, combinator.
  destruct (String.eqb_spec k "properties") as [ -> | _ ]; [ reflexivity | ].
  destruct (String.eqb_spec k "items") as [ -> | _ ]; [ reflexivity | ].
  destruct (String.eqb_spec k "anyOf") as [ -> | _ ]; [ reflexivity | ].
  destruct (String.eqb_spec k "allOf") as [ -> | _ ]; [ reflexivity | ].
  destruct (String.eqb k "oneOf"); reflexivity.
Qed.

Lemma processSchema_transforms fuel : forall t,
  (depth t <= fuel)%nat -> distinct_names t = true ->
  transforms (processSchema fuel) closeObjects t.
Proof.
  induction fuel as [ | fuel IH ]; intros t Hd Hwf.
  { destruct t; cbn [depth] in Hd; try lia; intros pre suf; reflexivity. }
  destruct t as [ | b | z | s | ts | ms ]; try (intros pre suf; reflexivity).
  - (* arrays are left alone *)
    intros pre suf. pose proof (root_JArr' (length pre) ts) as Hr.
    rewrite Hr, processSchema_step. cbv zeta. rewrite <- Hr.
    repeat (rewrite getField_JArr by reflexivity;
            cbn [strict_equal val_eqb andb visit_properties visit_items visit_combinator
                 truthy typeof_object isArray mbind option_bind]).
    reflexivity.
  - intros pre suf. pose proof (root_JObj' (length pre) ms) as Hr.
    rewrite Hr, processSchema_step. cbv zeta. rewrite <- Hr.
    destruct (distinct_names_JObj _ Hwf) as [Hnd Hch].
    assert (Hchild : forall k c, assoc k ms = Some c ->
                                 (depth c <= fuel)%nat /\ distinct_names c = true).
    { intros k c Hc. apply assoc_elem in Hc. split.
      - pose proof (depth_members _ _ Hc). cbn [snd] in *. lia.
      - rewrite Forall_forall in Hch. exact (Hch _ Hc). }
    rewrite type_test, hasField_JObj, closeObjects_JObj. cbv zeta.
    set (ms' := map (fun kc : string * json =>
                       (fst kc, on_member closeObjects (fst kc) (snd kc))) ms).
    (* the node after the [additionalProperties] assignment *)
    set (ms1 := if declares_object ms && negb (has_key "additionalProperties" ms)
                then ms ++ [("additionalProperties", JBool false)] else ms).
    assert (H1 : (if declares_object ms && negb (has_key "additionalProperties" ms)
                  then setField (pre ++ body (length pre) (JObj ms) ++ suf)
                                (root (length pre) (JObj ms)) "additionalProperties" (VBool false)
                  else pre ++ body (length pre) (JObj ms) ++ suf) =
                 pre ++ body (length pre) (JObj ms1) ++ suf).
    { subst ms1. destruct (declares_object ms); [ | reflexivity ].
      destruct (has_key "additionalProperties" ms) eqn:E; [ reflexivity | ].
      now apply setField_JObj. }
    rewrite H1. clear H1.
    assert (Hobj1 : root (length pre) (JObj ms) = root (length pre) (JObj ms1)).
    { subst ms1. destruct (_ && _); [ apply similar_snoc | reflexivity ]. }
    assert (Hnd1 : NoDup (map fst ms1)).
    { subst ms1. destruct (declares_object ms); [ | exact Hnd ].
      destruct (has_key "additionalProperties" ms) eqn:E; [ exact Hnd | ].
      cbn [andb negb]. rewrite map_app. apply NoDup_app. split; [ exact Hnd | ].
      split; [ | apply NoDup_singleton ].
      intros k Hk Hin. cbn [map fst] in Hin. apply list_elem_of_singleton in Hin. subst k.
      apply assoc_None in Hk; [ exact Hk | ].
      unfold has_key in E. now destruct (assoc _ ms). }
    assert (Hchild1 : forall k c, k <> "additionalProperties" -> assoc k ms1 = Some c ->
                                  (depth c <= fuel)%nat /\ distinct_names c = true).
    { intros k c Hk Hc. apply (Hchild k). subst ms1.
      destruct (_ && _); [ | exact Hc ].
      destruct (assoc k ms) as [ c' | ] eqn:E.
      - now rewrite (assoc_app_l _ _ _ _ E) in Hc.
      - rewrite (assoc_app_r _ _ _ E) in Hc. cbn in Hc.
        destruct (String.eqb_spec k "additionalProperties"); [ contradiction | discriminate ]. }
    assert (Hfinal : (if declares_object ms && negb (has_key "additionalProperties" ms)
                      then ms' ++ [("additionalProperties", JBool false)] else ms') =
                     map (fun kc : string * json =>
                            (fst kc, on_member closeObjects (fst kc) (snd kc))) ms1).
    { subst ms1 ms'. destruct (_ && _); [ | reflexivity ]. now rewrite map_app. }
    rewrite Hfinal, <- members_dispatch. clear Hfinal.
    clearbody ms1. clear ms' Hchild Hch Hnd Hr Hd Hwf.
    set (obj := root (length pre) (JObj ms)) in *. clearbody obj.
    (* properties *)
    destruct (field_step_chain "properties" (each_value closeObjects)
                (visit_properties (processSchema fuel)) ms1 pre suf obj)
      as (-> & Hobj2 & Hnd2);
      [ exact Hobj1 | exact Hnd1 | apply similar_each_value_closeObjects | | reflexivity | ].
    { intros c Hc. destruct (Hchild1 "properties" c ltac:(discriminate) Hc).
      apply (visit_properties_transforms fuel); auto. }
    cbn [mbind option_bind].
    (* items *)
    set (ms2 := alter_member "properties" _ ms1) in *.
    destruct (field_step_chain "items" closeObjects
                (visit_items (processSchema fuel)) ms2 pre suf obj)
      as (-> & Hobj3 & Hnd3);
      [ exact Hobj2 | exact Hnd2 | apply similar_closeObjects | | reflexivity | ].
    { intros c Hc. subst ms2. rewrite assoc_alter_member_ne in Hc by discriminate.
      destruct (Hchild1 "items" c ltac:(discriminate) Hc).
      apply (visit_items_transforms fuel); auto. }
    cbn [mbind option_bind].
    (* anyOf, allOf, oneOf *)
    set (ms3 := alter_member "items" _ ms2) in *.
    destruct (field_step_chain "anyOf" (each_element closeObjects)
                (visit_combinator (processSchema fuel)) ms3 pre suf obj)
      as (-> & Hobj4 & Hnd4);
      [ exact Hobj3 | exact Hnd3 | apply similar_each_element_closeObjects | | reflexivity | ].
    { intros c Hc. subst ms3 ms2. rewrite !assoc_alter_member_ne in Hc by discriminate.
      destruct (Hchild1 "anyOf" c ltac:(discriminate) Hc).
      apply (visit_combinator_transforms fuel); auto. }
    cbn [mbind option_bind].
    set (ms4 := alter_member "anyOf" _ ms3) in *.
    destruct (field_step_chain "allOf" (each_element closeObjects)
                (visit_combinator (processSchema fuel)) ms4 pre suf obj)
      as (-> & Hobj5 & Hnd5);
      [ exact Hobj4 | exact Hnd4 | apply similar_each_element_closeObjects | | reflexivity | ].
    { intros c Hc. subst ms4 ms3 ms2. rewrite !assoc_alter_member_ne in Hc by discriminate.
      destruct (Hchild1 "allOf" c ltac:(discriminate) Hc).
      apply (visit_combinator_transforms fuel); auto. }
    cbn [mbind option_bind].
    set (ms5 := alter_member "allOf" _ ms4) in *.
    destruct (field_step_chain "oneOf" (each_element closeObjects)
                (visit_combinator (processSchema fuel)) ms5 pre suf obj)
      as (-> & _ & _);
      [ exact Hobj5 | exact Hnd5 | apply similar_each_element_closeObjects | | reflexivity | ].
    { intros c Hc. subst ms5 ms4 ms3 ms2. rewrite !assoc_alter_member_ne in Hc by discriminate.
      destruct (Hchild1 "oneOf" c ltac:(discriminate) Hc).
      apply (visit_combinator_transforms fuel); auto. }
    reflexivity.
Qed.

(** ** Reading a parsed tree back *)

Lemma root_defined n t : root n t <> VUndef.
Proof. destruct t; try discriminate; [ now rewrite root_JArr' | now rewrite root_JObj' ]. Qed.

Lemma stringify_elements_roots fuel : forall ts pre suf,
  Forall (reads fuel) ts ->
  stringify_elements (JSON_stringify fuel (pre ++ bodies (length pre) ts ++ suf))
                     (roots (length pre) ts) = Some ts.
Proof.
  induction ts as [ | t ts IH ]; intros pre suf Hall; [ reflexivity | ].
  apply Forall_cons in Hall as [Ht Hall].
  rewrite roots_cons, bodies_cons. cbn [stringify_elements].
  rewrite <- (app_assoc (body _ t)), (Ht pre).
  specialize (IH (pre ++ body (length pre) t) suf Hall).
  rewrite length_app, body_length, <- !app_assoc in IH. rewrite IH.
  pose proof (root_defined (length pre) t). now destruct (root (length pre) t).
Qed.

Lemma stringify_members_roots fuel : forall (ms : list (string * json)) pre suf,
  Forall (fun kc : string * json => reads fuel (snd kc)) ms ->
  stringify_members (JSON_stringify fuel (pre ++ bodies (length pre) (map snd ms) ++ suf))
                    (combine (map fst ms) (roots (length pre) (map snd ms))) = Some ms.
Proof.
  induction ms as [ | [k t] ms IH ]; intros pre suf Hall; [ reflexivity | ].
  apply Forall_cons in Hall as [Ht Hall]. cbn [map fst snd] in *.
  rewrite roots_cons, bodies_cons. cbn [combine stringify_members].
  rewrite <- (app_assoc (body _ t)), (Ht pre).
  specialize (IH (pre ++ body (length pre) t) suf Hall).
  rewrite length_app, body_length, <- !app_assoc in IH. rewrite IH.
  pose proof (root_defined (length pre) t). now destruct (root (length pre) t).
Qed.

Lemma stringify_layout fuel : forall t, (depth t <= fuel)%nat -> reads fuel t.
Proof.
  induction fuel as [ | fuel IH ]; intros t Hd.
  { destruct t; cbn [depth] in Hd; try lia; intros pre suf; reflexivity. }
  destruct t as [ | b | z | s | ts | ms ]; try (intros pre suf; reflexivity).
  - intros pre suf. rewrite root_JArr'. cbn [JSON_stringify].
    rewrite lookup_root_JArr, body_JArr, <- app_assoc.
    rewrite stringify_elements_roots; [ reflexivity | ].
    apply Forall_forall. intros c Hin. apply IH.
    pose proof (depth_elements _ _ Hin). lia.
  - intros pre suf. rewrite root_JObj'. cbn [JSON_stringify].
    rewrite lookup_root_JObj, body_JObj, <- app_assoc.
    rewrite stringify_members_roots; [ reflexivity | ].
    apply Forall_forall. intros c Hin. apply IH.
    pose proof (depth_members _ _ Hin). lia.
Qed.

(** ** What [JSON.stringify] returns *)

Lemma fold_max_le (ds : list nat) n : Forall (fun d => (d <= n)%nat) ds ->
  (fold_right Nat.max O ds <= n)%nat.
Proof. induction 1; cbn; lia. Qed.

Lemma stringify_elements_Forall (P : json -> Prop) str : forall es ts,
  P JNull -> (forall v t, str v = Some t -> P t) ->
  stringify_elements str es = Some ts -> Forall P ts.
Proof.
  induction es as [ | e es IH ]; intros ts Pnull Hstr; cbn [stringify_elements].
  - intros [= <-]. constructor.
  - destruct (match e with VUndef => Some JNull | _ => str e end) as [ t | ] eqn:Et;
      [ | discriminate ].
    destruct (stringify_elements str es) as [ ts' | ] eqn:Ets; [ | discriminate ].
    intros [= <-]. constructor; [ | now apply IH ].
    destruct e; try (now apply (Hstr _ _ Et)). now injection Et as <-.
Qed.

Lemma stringify_members_Forall (P : json -> Prop) str : forall ps ms,
  (forall v t, str v = Some t -> P t) ->
  stringify_members str ps = Some ms ->
  Forall (fun kc : string * json => P (snd kc)) ms /\ sublist (map fst ms) (map fst ps).
Proof.
  induction ps as [ | [k a] ps IH ]; intros ms Hstr; cbn [stringify_members].
  - intros [= <-]. split; constructor.
  - assert (Hskip : stringify_members str ps = Some ms ->
                    Forall (fun kc : string * json => P (snd kc)) ms /\
                    sublist (map fst ms) (map fst ((k, a) :: ps))).
    { intros H. destruct (IH _ Hstr H). split; [ assumption | now constructor ]. }
    assert (Hkeep : match str a, stringify_members str ps with
                    | Some t, Some ms => Some ((k, t) :: ms)
                    | _, _ => None
                    end = Some ms ->
                    Forall (fun kc : string * json => P (snd kc)) ms /\
                    sublist (map fst ms) (map fst ((k, a) :: ps))).
    { destruct (str a) as [ t | ] eqn:Et; [ | discriminate ].
      destruct (stringify_members str ps) as [ ms' | ] eqn:Ems; [ | discriminate ].
      intros [= <-]. destruct (IH _ Hstr eq_refl). split.
      - constructor; [ now apply (Hstr _ _ Et) | assumption ].
      - cbn [map fst]. now constructor. }
    destruct a; assumption.
Qed.

Lemma depth_JArr_le ts n : Forall (fun c => (depth c <= n)%nat) ts -> (depth (JArr ts) <= S n)%nat.
Proof. cbn [depth]. induction 1; cbn [fold_right]; lia. Qed.

Lemma depth_JObj_le (ms : list (string * json)) n :
  Forall (fun kc : string * json => (depth (snd kc) <= n)%nat) ms -> (depth (JObj ms) <= S n)%nat.
Proof. cbn [depth]. induction 1; cbn [fold_right]; lia. Qed.

Lemma stringify_depth fuel h : forall v t,
  JSON_stringify fuel h v = Some t -> (depth t <= fuel)%nat.
Proof.
  induction fuel as [ | fuel IH ]; intros v t.
  { destruct v; cbn; intros [= <-] || discriminate; cbn; lia. }
  destruct v as [ | | b | z | s | l ]; cbn [JSON_stringify];
    try (intros [= <-] || discriminate; cbn; lia).
  destruct (h !! l) as [ [ ps | es ] | ]; [ | | discriminate ].
  - destruct (stringify_members _ ps) as [ ms | ] eqn:E; [ | discriminate ].
    intros [= <-]. apply depth_JObj_le.
    now apply (stringify_members_Forall (fun t => (depth t <= fuel)%nat) _ _ _ IH E).
  - destruct (stringify_elements _ es) as [ ts | ] eqn:E; [ | discriminate ].
    intros [= <-]. apply depth_JArr_le.
    apply (stringify_elements_Forall (fun t => (depth t <= fuel)%nat) _ _ _ ltac:(cbn; lia) IH E).
Qed.

Lemma heap_wf_lookup h l ps : heap_wf h = true -> h !! l = Some (CObj ps) -> NoDup (map fst ps).
Proof.
  unfold heap_wf. rewrite forallb_forall. intros Hwf Hl.
  specialize (Hwf (CObj ps)). cbn in Hwf. eapply bool_decide_eq_true_1, Hwf.
  apply list_elem_of_In, list_elem_of_lookup. eauto.
Qed.

Lemma stringify_distinct fuel h : heap_wf h = true -> forall v t,
  JSON_stringify fuel h v = Some t -> distinct_names t = true.
Proof.
  intros Hwf. induction fuel as [ | fuel IH ]; intros v t.
  { destruct v; cbn; intros [= <-] || discriminate; reflexivity. }
  destruct v as [ | | b | z | s | l ]; cbn [JSON_stringify];
    try (intros [= <-] || discriminate; reflexivity).
  destruct (h !! l) as [ [ ps | es ] | ] eqn:El; [ | | discriminate ].
  - destruct (stringify_members _ ps) as [ ms | ] eqn:E; [ | discriminate ].
    intros [= <-].
    destruct (stringify_members_Forall (fun t => distinct_names t = true) _ _ _ IH E)
      as [Hall Hsub].
    cbn [distinct_names]. apply andb_true_iff. split.
    + apply bool_decide_eq_true. eapply sublist_NoDup; [ | exact Hsub ].
      eapply heap_wf_lookup; eauto.
    + apply forallb_forall. intros kc Hin. rewrite Forall_forall in Hall.
      now apply Hall, list_elem_of_In.
  - destruct (stringify_elements _ es) as [ ts | ] eqn:E; [ | discriminate ].
    intros [= <-]. cbn [distinct_names]. apply forallb_forall. intros c Hin.
    pose proof (stringify_elements_Forall (fun t => distinct_names t = true) _ _ _ eq_refl IH E) as Hall.
    rewrite Forall_forall in Hall. now apply Hall, list_elem_of_In.
Qed.

(** ** Extending the heap *)

Lemma stringify_extend fuel h cs : forall v t,
  JSON_stringify fuel h v = Some t -> JSON_stringify fuel (h ++ cs) v = Some t.
Proof.
  induction fuel as [ | fuel IH ]; intros v t.
  { destruct v; cbn; auto. }
  destruct v as [ | | b | z | s | l ]; cbn [JSON_stringify]; auto.
  destruct (h !! l) as [ c | ] eqn:El; [ | discriminate ].
  rewrite (lookup_app_l_Some _ _ _ _ El).
  assert (Hm : forall ps ms, stringify_members (JSON_stringify fuel h) ps = Some ms ->
                             stringify_members (JSON_stringify fuel (h ++ cs)) ps = Some ms).
  { induction ps as [ | [k a] ps IHps ]; intros ms; cbn [stringify_members]; auto.
    assert (Hkeep : match JSON_stringify fuel h a, stringify_members (JSON_stringify fuel h) ps with
                    | Some t, Some ms => Some ((k, t) :: ms)
                    | _, _ => None
                    end = Some ms ->
                    match JSON_stringify fuel (h ++ cs) a,
                          stringify_members (JSON_stringify fuel (h ++ cs)) ps with
                    | Some t, Some ms => Some ((k, t) :: ms)
                    | _, _ => None
                    end = Some ms).
    { destruct (JSON_stringify fuel h a) as [ ta | ] eqn:Ea; [ | discriminate ].
      destruct (stringify_members (JSON_stringify fuel h) ps) as [ ms' | ] eqn:Ems;
        [ | discriminate ].
      now rewrite (IH _ _ Ea), (IHps _ eq_refl). }
    destruct a; auto. }
  assert (He : forall es ts, stringify_elements (JSON_stringify fuel h) es = Some ts ->
                             stringify_elements (JSON_stringify fuel (h ++ cs)) es = Some ts).
  { induction es as [ | e es IHes ]; intros ts; cbn [stringify_elements]; auto.
    destruct (match e with VUndef => Some JNull | _ => JSON_stringify fuel h e end)
      as [ te | ] eqn:Ee; [ | discriminate ].
    destruct (stringify_elements (JSON_stringify fuel h) es) as [ ts' | ] eqn:Ets;
      [ | discriminate ].
    rewrite (IHes _ eq_refl).
    assert (match e with VUndef => Some JNull | _ => JSON_stringify fuel (h ++ cs) e end = Some te)
      as -> by (destruct e; auto).
    auto. }
  destruct c as [ ps | es ].
  - destruct (stringify_members _ ps) as [ ms | ] eqn:E; [ | discriminate ].
    now rewrite (Hm _ _ E).
  - destruct (stringify_elements _ es) as [ ts | ] eqn:E; [ | discriminate ].
    now rewrite (He _ _ E).
Qed.

(** ** A parsed tree refers to its own cells only *)

Lemma snd_combine_same {A B} (ks : list A) : forall (vs : list B),
  length vs = length ks -> map snd (combine ks vs) = vs.
Proof.
  induction ks as [ | k ks IH ]; intros [ | v vs ] H; try discriminate; try reflexivity.
  cbn. f_equal. apply IH. cbn in H. lia.
Qed.

Lemma root_fresh n m t : (n <= m)%nat -> fresh_value n (root m t).
Proof.
  intros Hle l. destruct t; try discriminate;
    [ rewrite root_JArr' | rewrite root_JObj' ]; intros [= <-]; lia.
Qed.

Lemma roots_fresh n : forall ts m, (n <= m)%nat -> Forall (fresh_value n) (roots m ts).
Proof.
  induction ts as [ | t ts IH ]; intros m Hle; [ constructor | ].
  rewrite roots_cons. constructor; [ now apply root_fresh | apply IH; lia ].
Qed.

Lemma body_fresh n t : forall m, (n <= m)%nat ->
  Forall (fun c => Forall (fresh_value n) (cell_values c)) (body m t).
Proof.
  induction t as [ | b | z | s | ts IH | ms IH ] using json_induction; intros m Hle;
    try constructor.
  - rewrite body_JArr. apply Forall_app. split.
    + clear -IH Hle. revert m Hle. induction IH as [ | t ts Ht _ IHts ]; intros m Hle;
        [ constructor | ].
      rewrite bodies_cons. apply Forall_app. split; [ now apply Ht | apply IHts; lia ].
    + constructor; [ | constructor ]. cbn [cell_values]. now apply roots_fresh.
  - rewrite body_JObj. apply Forall_app. split.
    + clear -IH Hle. revert m Hle. induction IH as [ | [k t] ms Ht _ IHms ]; intros m Hle;
        [ constructor | ].
      cbn [map snd]. rewrite bodies_cons. apply Forall_app.
      split; [ now apply Ht | apply IHms; lia ].
    + constructor; [ | constructor ]. cbn [cell_values].
      rewrite snd_combine_same by (now rewrite roots_length, !length_map).
      now apply roots_fresh.
Qed.

(** ** The nodes of a normalised schema *)

Lemma assoc_map_values {A B} (g : string -> A -> B) k ms :
  assoc k (map (fun kc : string * A => (fst kc, g (fst kc) (snd kc))) ms) = g k <$> assoc k ms.
Proof.
  induction ms as [ | [k' c] ms IH ]; [ reflexivity | ]. cbn [map assoc fst snd].
  destruct (String.eqb_spec k k') as [ -> | ]; [ reflexivity | exact IH ].
Qed.

Lemma assoc_snoc_ne {A} k k' (a : A) ms : k <> k' -> assoc k (ms ++ [(k', a)]) = assoc k ms.
Proof.
  intros Hne. destruct (assoc k ms) as [ c | ] eqn:E.
  - now apply assoc_app_l.
  - rewrite (assoc_app_r _ _ _ E). cbn. now destruct (String.eqb_spec k k').
Qed.

Lemma field_closeObjects k ms :
  k <> "additionalProperties" ->
  field k (closeObjects (JObj ms)) = on_member closeObjects k <$> assoc k ms.
Proof.
  intros Hk. rewrite closeObjects_JObj. cbv zeta. unfold field. cbn [members_of].
  destruct (_ && _); [ rewrite assoc_snoc_ne by exact Hk | ]; apply assoc_map_values.
Qed.

Lemma field_additionalProperties ms :
  field "additionalProperties" (closeObjects (JObj ms)) =
  if declares_object ms
  then Some (default (JBool false) (assoc "additionalProperties" ms))
  else assoc "additionalProperties" ms.
Proof.
  rewrite closeObjects_JObj. cbv zeta. unfold field, has_key. cbn [members_of].
  pose proof (assoc_map_values (on_member closeObjects) "additionalProperties" ms) as Hmap.
  destruct (declares_object ms); cbn [andb].
  - destruct (assoc "additionalProperties" ms) as [ a | ] eqn:E; cbn [negb].
    + rewrite Hmap. reflexivity.
    + rewrite assoc_app_r by (now rewrite Hmap). reflexivity.
  - rewrite Hmap. now destruct (assoc "additionalProperties" ms).
Qed.

Lemma closeObjects_not_object t : (forall ms, t <> JObj ms) -> closeObjects t = t.
Proof. destruct t; try reflexivity. intros H. now destruct (H members). Qed.

Lemma field_each_value k t :
  field k (each_value closeObjects t) = closeObjects <$> field k t.
Proof.
  destruct t; try reflexivity. unfold field. cbn [each_value members_of].
  apply (assoc_map_values (fun _ => closeObjects)).
Qed.

Lemma element_each_element i t :
  elements_of (each_element closeObjects t) !! i = closeObjects <$> elements_of t !! i.
Proof.
  destruct t; try reflexivity. cbn [each_element elements_of]. apply list_lookup_fmap.
Qed.

Lemma subschema_closeObjects s t :
  subschema s (closeObjects t) = closeObjects <$> subschema s t.
Proof.
  destruct t as [ | b | z | x | ts | ms ]; try (destruct s; reflexivity).
  destruct s as [ k | | i | i | i ]; cbn [subschema];
    rewrite field_closeObjects by discriminate; unfold field; cbn [members_of];
    match goal with |- context [assoc ?key ms] => destruct (assoc key ms) as [ c | ] end;
    try reflexivity; cbn [fmap option_fmap option_map mbind option_bind].
  - apply field_each_value.
  - apply element_each_element.
  - apply element_each_element.
  - apply element_each_element.
Qed.

Lemma node_at_closeObjects p : forall t,
  node_at p (closeObjects t) = closeObjects <$> node_at p t.
Proof.
  induction p as [ | s p IH ]; intros t; [ reflexivity | ].
  cbn [node_at]. rewrite subschema_closeObjects.
  destruct (subschema s t) as [ c | ]; [ apply IH | reflexivity ].
Qed.

Lemma declares_object_field n :
  declares_object (members_of n) = true <-> field "type" n = Some (JStr "object").
Proof.
  unfold declares_object, field. destruct (assoc "type" (members_of n)) as [ [ | | | s | | ] | ];
    try (split; discriminate).
  rewrite String.eqb_eq. split; [ now intros -> | now intros [= ->] ].
Qed.

(** ** How much fuel [JSON.stringify] needs *)

Lemma stringify_members_ext (f g : val -> option json) ps ms :
  (forall a t, f a = Some t -> g a = Some t) ->
  stringify_members f ps = Some ms -> stringify_members g ps = Some ms.
Proof.
  intros Hfg. revert ms. induction ps as [ | [k a] ps IH ]; intros ms; cbn [stringify_members]; auto.
  assert (Hkeep : match f a, stringify_members f ps with
                  | Some t, Some ms => Some ((k, t) :: ms)
                  | _, _ => None
                  end = Some ms ->
                  match g a, stringify_members g ps with
                  | Some t, Some ms => Some ((k, t) :: ms)
                  | _, _ => None
                  end = Some ms).
  { destruct (f a) as [ ta | ] eqn:Ea; [ | discriminate ].
    destruct (stringify_members f ps) as [ ms' | ] eqn:Ems; [ | discriminate ].
    now rewrite (Hfg _ _ Ea), (IH _ eq_refl). }
  destruct a; auto.
Qed.

Lemma stringify_elements_ext (f g : val -> option json) es ts :
  (forall a t, f a = Some t -> g a = Some t) ->
  stringify_elements f es = Some ts -> stringify_elements g es = Some ts.
Proof.
  intros Hfg. revert ts. induction es as [ | e es IH ]; intros ts; cbn [stringify_elements]; auto.
  destruct (match e with VUndef => Some JNull | _ => f e end) as [ te | ] eqn:Ee; [ | discriminate ].
  destruct (stringify_elements f es) as [ ts' | ] eqn:Ets; [ | discriminate ].
  rewrite (IH _ eq_refl).
  assert (match e with VUndef => Some JNull | _ => g e end = Some te) as ->
    by (destruct e; auto).
  auto.
Qed.

Lemma stringify_step fuel h l :
  JSON_stringify (S fuel) h (VRef l) =
  match h !! l with
  | Some (CObj props) => JObj <$> stringify_members (JSON_stringify fuel h) props
  | Some (CArr elems) => JArr <$> stringify_elements (JSON_stringify fuel h) elems
  | None => None
  end.
Proof. reflexivity. Qed.

Lemma stringify_more_fuel h : forall fuel fuel' v t,
  (fuel <= fuel')%nat ->
  JSON_stringify fuel h v = Some t -> JSON_stringify fuel' h v = Some t.
Proof.
  induction fuel as [ | fuel IH ]; intros fuel' v t Hle.
  { destruct v; cbn; try discriminate; destruct fuel'; auto. }
  destruct fuel' as [ | fuel' ]; [ lia | ].
  destruct v as [ | | b | z | s | l ]; auto.
  rewrite !stringify_step.
  destruct (h !! l) as [ [ ps | es ] | ]; [ | | discriminate ].
  - destruct (stringify_members _ ps) as [ ms | ] eqn:E; [ | discriminate ].
    intros H. rewrite (stringify_members_ext _ (JSON_stringify fuel' h) _ _ ltac:(intros; eapply IH; [ | eassumption ]; lia) E).
    exact H.
  - destruct (stringify_elements _ es) as [ ts | ] eqn:E; [ | discriminate ].
    intros H. rewrite (stringify_elements_ext _ (JSON_stringify fuel' h) _ _ ltac:(intros; eapply IH; [ | eassumption ]; lia) E).
    exact H.
Qed.

Lemma stringify_members_within (P : json -> Prop) (f g : val -> option json) ps ms :
  (forall a t, f a = Some t -> P t -> g a = Some t) ->
  Forall (fun kc : string * json => P (snd kc)) ms ->
  stringify_members f ps = Some ms -> stringify_members g ps = Some ms.
Proof.
  intros Hfg. revert ms. induction ps as [ | [k a] ps IH ]; intros ms HP;
    cbn [stringify_members]; auto.
  assert (Hkeep : match f a, stringify_members f ps with
                  | Some t, Some ms => Some ((k, t) :: ms)
                  | _, _ => None
                  end = Some ms ->
                  match g a, stringify_members g ps with
                  | Some t, Some ms => Some ((k, t) :: ms)
                  | _, _ => None
                  end = Some ms).
  { destruct (f a) as [ ta | ] eqn:Ea; [ | discriminate ].
    destruct (stringify_members f ps) as [ ms' | ] eqn:Ems; [ | discriminate ].
    intros [= <-]. apply Forall_cons in HP as [Hta HP].
    now rewrite (Hfg _ _ Ea Hta), (IH _ HP eq_refl). }
  destruct a; auto.
Qed.

Lemma stringify_elements_within (P : json -> Prop) (f g : val -> option json) es ts :
  (forall a t, f a = Some t -> P t -> g a = Some t) ->
  Forall P ts ->
  stringify_elements f es = Some ts -> stringify_elements g es = Some ts.
Proof.
  intros Hfg. revert ts. induction es as [ | e es IH ]; intros ts HP;
    cbn [stringify_elements]; auto.
  destruct (match e with VUndef => Some JNull | _ => f e end) as [ te | ] eqn:Ee; [ | discriminate ].
  destruct (stringify_elements f es) as [ ts' | ] eqn:Ets; [ | discriminate ].
  intros [= <-]. apply Forall_cons in HP as [Hte HP].
  rewrite (IH _ HP eq_refl).
  assert (match e with VUndef => Some JNull | _ => g e end = Some te) as ->
    by (destruct e; auto).
  reflexivity.
Qed.

Lemma depth_list_bound ts : Forall (fun c => (depth c <= depth_list ts)%nat) ts.
Proof.
  induction ts as [ | c ts IH ]; constructor; cbn [depth_list fold_right];
    fold (depth_list ts); [ lia | ].
  eapply Forall_impl; [ exact IH | ]. cbn. intros; lia.
Qed.

Lemma depth_list_attained ts :
  depth_list ts = O \/ exists c, c ∈ ts /\ depth c = depth_list ts.
Proof.
  induction ts as [ | c ts IH ]; [ now left | ].
  cbn [depth_list fold_right]. fold (depth_list ts).
  destruct (Nat.max_spec (depth c) (depth_list ts)) as [ [Hlt ->] | [Hle ->] ].
  - destruct IH as [ H0 | (c' & Hin & Hc') ]; [ lia | ].
    right. exists c'. split; [ now constructor | exact Hc' ].
  - right. exists c. split; [ constructor | reflexivity ].
Qed.

(** The least fuel that reads a tree is its depth. *)
Lemma stringify_least_fuel h : forall fuel v t,
  JSON_stringify fuel h v = Some t -> JSON_stringify (depth t) h v = Some t.
Proof.
  induction fuel as [ | fuel IH ]; intros v t.
  { destruct v; cbn; try discriminate; intros [= <-]; reflexivity. }
  destruct v as [ | | b | z | s | l ]; try (cbn; try discriminate; intros [= <-]; reflexivity).
  rewrite stringify_step.
  destruct (h !! l) as [ [ ps | es ] | ] eqn:El; [ | | discriminate ].
  - destruct (stringify_members _ ps) as [ ms | ] eqn:E; [ | discriminate ].
    intros [= <-]. rewrite depth_JObj, stringify_step, El.
    rewrite (stringify_members_within
               (fun c => (depth c <= depth_list (map snd ms))%nat) (JSON_stringify fuel h)
               (JSON_stringify (depth_list (map snd ms)) h) _ _
               ltac:(intros a c Ha Hc; eapply stringify_more_fuel; [ exact Hc | now apply IH ])
               (proj1 (List.Forall_map snd
                         (fun c => (depth c <= depth_list (map snd ms))%nat) ms)
                      (depth_list_bound (map snd ms))) E).
    reflexivity.
  - destruct (stringify_elements _ es) as [ ts | ] eqn:E; [ | discriminate ].
    intros [= <-]. rewrite depth_JArr, stringify_step, El.
    rewrite (stringify_elements_within
               (fun c => (depth c <= depth_list ts)%nat) (JSON_stringify fuel h)
               (JSON_stringify (depth_list ts) h) _ _
               ltac:(intros a c Ha Hc; eapply stringify_more_fuel; [ exact Hc | now apply IH ])
               (depth_list_bound ts) E).
    reflexivity.
Qed.

(** Where the members and elements of a result come from. *)
Lemma stringify_members_source f ps ms k c :
  stringify_members f ps = Some ms -> (k, c) ∈ ms -> exists a, f a = Some c.
Proof.
  revert ms. induction ps as [ | [k' a] ps IH ]; intros ms; cbn [stringify_members].
  - intros [= <-] Hin. now apply elem_of_nil in Hin.
  - assert (Hkeep : match f a, stringify_members f ps with
                    | Some t, Some ms => Some ((k', t) :: ms)
                    | _, _ => None
                    end = Some ms -> (k, c) ∈ ms -> exists a, f a = Some c).
    { destruct (f a) as [ ta | ] eqn:Ea; [ | discriminate ].
      destruct (stringify_members f ps) as [ ms' | ] eqn:Ems; [ | discriminate ].
      intros [= <-] [ [= -> ->] | Hin ]%elem_of_cons; [ eauto | now apply (IH ms') ]. }
    destruct a; [ apply IH | exact Hkeep .. ].
Qed.

Lemma stringify_elements_source f es ts c :
  stringify_elements f es = Some ts -> c ∈ ts -> c = JNull \/ exists a, f a = Some c.
Proof.
  revert ts. induction es as [ | e es IH ]; intros ts; cbn [stringify_elements].
  - intros [= <-] Hin. now apply elem_of_nil in Hin.
  - destruct (match e with VUndef => Some JNull | _ => f e end) as [ te | ] eqn:Ee; [ | discriminate ].
    destruct (stringify_elements f es) as [ ts' | ] eqn:Ets; [ | discriminate ].
    intros [= <-] [ -> | Hin ]%elem_of_cons; [ | now apply (IH ts') ].
    destruct e; eauto. left. now injection Ee.
Qed.

(** A tree of depth [d] read from the heap passes through [d] distinct
    objects. *)
Lemma stringify_chain h : forall fuel v t,
  JSON_stringify fuel h v = Some t ->
  exists locs : list loc,
    length locs = depth t /\ NoDup locs /\
    Forall (fun l => exists t', JSON_stringify fuel h (VRef l) = Some t' /\
                                (depth t' <= depth t)%nat) locs.
Proof.
  induction fuel as [ | fuel IH ]; intros v t.
  { destruct v; cbn; try discriminate; intros [= <-]; exists []; repeat constructor. }
  destruct v as [ | | b | z | s | l ];
    try (cbn; try discriminate; intros [= <-]; exists []; repeat constructor).
  intros Ht.
  assert (Hone : depth t = 1%nat -> exists locs : list loc,
            length locs = depth t /\ NoDup locs /\
            Forall (fun l => exists t', JSON_stringify (S fuel) h (VRef l) = Some t' /\
                                        (depth t' <= depth t)%nat) locs).
  { intros H1. exists [l]. rewrite H1. split; [ reflexivity | ].
    split; [ apply NoDup_singleton | ]. constructor; [ | constructor ].
    exists t. split; [ exact Ht | lia ]. }
  assert (Hgrow : forall a c, JSON_stringify fuel h a = Some c -> depth t = S (depth c) ->
            exists locs : list loc,
              length locs = depth t /\ NoDup locs /\
              Forall (fun l => exists t', JSON_stringify (S fuel) h (VRef l) = Some t' /\
                                          (depth t' <= depth t)%nat) locs).
  { intros a c Ha Hd. destruct (IH _ _ Ha) as (locs & Hlen & Hnd & Hall).
    exists (l :: locs). split; [ cbn; lia | ]. split; [ | constructor ].
    - apply NoDup_cons. split; [ | exact Hnd ]. intros Hin.
      rewrite Forall_forall in Hall. destruct (Hall _ Hin) as (t' & Ht' & Hd').
      apply (stringify_more_fuel h fuel (S fuel)) in Ht'; [ | lia ].
      rewrite Ht in Ht'. injection Ht' as <-. lia.
    - exists t. split; [ exact Ht | lia ].
    - eapply Forall_impl; [ exact Hall | ]. cbv beta. intros l' (t' & Ht' & Hd').
      exists t'. split; [ eapply stringify_more_fuel; [ | exact Ht' ]; lia | lia ]. }
  rewrite stringify_step in Ht.
  destruct (h !! l) as [ [ ps | es ] | ] eqn:El; [ | | discriminate ].
  - destruct (stringify_members _ ps) as [ ms | ] eqn:E; [ | discriminate ].
    injection Ht as <-. rewrite depth_JObj in *.
    destruct (depth_list_attained (map snd ms)) as [ H0 | (c & Hin & Hc) ].
    + apply Hone. now rewrite H0.
    + apply list_elem_of_fmap in Hin as ([k c'] & -> & Hin). cbn [snd] in *.
      destruct (stringify_members_source _ _ _ _ _ E Hin) as (a & Ha).
      apply (Hgrow a c' Ha). now rewrite Hc.
  - destruct (stringify_elements _ es) as [ ts | ] eqn:E; [ | discriminate ].
    injection Ht as <-. rewrite depth_JArr in *.
    destruct (depth_list_attained ts) as [ H0 | (c & Hin & Hc) ].
    + apply Hone. now rewrite H0.
    + destruct (stringify_elements_source _ _ _ _ E Hin) as [ -> | (a & Ha) ].
      * apply Hone. now rewrite <- Hc.
      * apply (Hgrow a c Ha). now rewrite Hc.
Qed.

Lemma stringify_lookup fuel h l t :
  JSON_stringify fuel h (VRef l) = Some t -> (l < length h)%nat.
Proof.
  destruct fuel; [ discriminate | ]. rewrite stringify_step.
  destruct (h !! l) eqn:El; [ | discriminate ]. intros _. now apply lookup_lt_Some in El.
Qed.

Lemma stringify_depth_heap fuel h v t :
  JSON_stringify fuel h v = Some t -> (depth t <= length h)%nat.
Proof.
  intros Ht. destruct (stringify_chain _ _ _ _ Ht) as (locs & <- & Hnd & Hall).
  assert (Hsub : locs ⊆+ seq 0 (length h)); [ | apply submseteq_length in Hsub;
                                                 now rewrite length_seq in Hsub ].
  apply NoDup_submseteq; [ exact Hnd | ].
  intros l Hin. rewrite Forall_forall in Hall. destruct (Hall _ Hin) as (t' & Ht' & _).
  apply elem_of_seq. apply stringify_lookup in Ht'. lia.
Qed.

(** As much fuel as the heap has cells reads whatever can be read. *)
Theorem stringify_fuel_heap fuel h v t :
  JSON_stringify fuel h v = Some t -> JSON_stringify (length h) h v = Some t.
Proof.
  intros Ht. eapply stringify_more_fuel; [ | exact (stringify_least_fuel _ _ _ _ Ht) ].
  exact (stringify_depth_heap _ _ _ _ Ht).
Qed.

(** ** The normaliser *)

Lemma normalize_run schema h t :
  heap_wf h = true ->
  denotes h schema t ->
  normalizeSchemaForStrictMode schema h =
  Some (root (length h) t, h ++ body (length h) (closeObjects t)).
Proof.
  intros Hwf [fuel Ht]. apply stringify_fuel_heap in Ht.
  unfold normalizeSchemaForStrictMode, JSON_parse_tree.
  rewrite Ht. cbn [mbind option_bind].
  destruct (layout (length h) t) as [v cs] eqn:El.
  assert (v = root (length h) t) as -> by (unfold root; now rewrite El).
  assert (cs = body (length h) t) as -> by (unfold body; now rewrite El).
  pose proof (stringify_depth _ _ _ _ Ht) as Hd.
  assert (Hfuel : (depth t <= length (h ++ body (length h) t))%nat)
    by (rewrite length_app; lia).
  pose proof (processSchema_transforms _ t Hfuel (stringify_distinct _ _ Hwf _ _ Ht) h [])
    as Hp.
  rewrite !app_nil_r in Hp. rewrite Hp. reflexivity.
Qed.

Lemma normalize_extends schema h normalized h' :
  heap_wf h = true ->
  normalizeSchemaForStrictMode schema h = Some (normalized, h') ->
  exists t, denotes h schema t /\
            normalized = root (length h) t /\
            h' = h ++ body (length h) (closeObjects t).
Proof.
  intros Hwf Hrun.
  destruct (JSON_stringify (length h) h schema) as [ t | ] eqn:Ht;
    [ | unfold normalizeSchemaForStrictMode in Hrun; now rewrite Ht in Hrun ].
  assert (Hd : denotes h schema t) by (now exists (length h)).
  rewrite (normalize_run _ _ t Hwf Hd) in Hrun. injection Hrun as <- <-.
  exists t. repeat split. exact Hd.
Qed.

Lemma denotes_layout h t : denotes (h ++ body (length h) t) (root (length h) t) t.
Proof.
  exists (depth t). pose proof (stringify_layout (depth t) t (le_n _) h []) as Hread.
  now rewrite app_nil_r in Hread.
Qed.

(** C1.  For an input that denotes the JSON tree [t] (in a heap whose
    objects have distinct property names), [normalizeSchemaForStrictMode]
    returns, and what it returns denotes [closeObjects t].  Every node [n]
    of [t] reached through [properties] values, [items] and the elements of
    [anyOf], [allOf] and [oneOf] has a counterpart [n'] at the same place:
    if the [type] of [n] is "object", [n'] has [additionalProperties: false],
    or the value [n] declared for it; otherwise [additionalProperties] is as
    in [n]; every key outside [schema_keys] has the value it had; no other
    key appears or disappears; a node that is not an object is unchanged. *)
Theorem normalize_closes_objects h schema t :
  heap_wf h = true ->
  denotes h schema t ->
  exists normalized h',
    normalizeSchemaForStrictMode schema h = Some (normalized, h') /\
    denotes h' normalized (closeObjects t) /\
    forall p n, node_at p t = Some n ->
      exists n', node_at p (closeObjects t) = Some n' /\
        (field "type" n = Some (JStr "object") ->
         field "additionalProperties" n' =
         Some (default (JBool false) (field "additionalProperties" n))) /\
        (field "type" n <> Some (JStr "object") ->
         field "additionalProperties" n' = field "additionalProperties" n) /\
        (forall k, k ∉ schema_keys -> field k n' = field k n) /\
        (forall k, k <> "additionalProperties" -> is_Some (field k n') <-> is_Some (field k n)) /\
        ((forall ms, n <> JObj ms) -> n' = n).
Proof.
  intros Hwf Ht. eexists _, _. split; [ exact (normalize_run _ _ t Hwf Ht) | ]. split.
  - destruct (similar_closeObjects t) as [[_ Hr] _]. rewrite Hr. apply denotes_layout.
  - intros p n Hn. exists (closeObjects n). split; [ now rewrite node_at_closeObjects, Hn | ].
    destruct n as [ | b | z | s | ts | ms ];
      try (repeat split; try reflexivity; try discriminate; tauto).
    pose proof (declares_object_field (JObj ms)) as Hty. cbn [members_of] in Hty.
    rewrite field_additionalProperties. unfold field at 2 4. cbn [members_of].
    split; [ | split; [ | split; [ | split ] ] ].
    + intros H. apply Hty in H. now rewrite H.
    + intros H. destruct (declares_object ms); [ | reflexivity ]. destruct H. now apply Hty.
    + intros k Hk. rewrite field_closeObjects.
      * unfold field. cbn [members_of]. destruct (assoc k ms) as [ c | ]; [ | reflexivity ].
        cbn [fmap option_fmap option_map]. f_equal. unfold on_member, combinator.
        unfold schema_keys in Hk. rewrite !not_elem_of_cons in Hk.
        destruct Hk as (_ & H1 & H2 & H3 & H4 & H5 & _).
        rewrite <- String.eqb_neq in H1, H2, H3, H4, H5.
        now rewrite H1, H2, H3, H4, H5.
      * intros ->. apply Hk. constructor.
    + intros k Hk. rewrite field_closeObjects by exact Hk. unfold field. cbn [members_of].
      destruct (assoc k ms); cbn; split; intros [x Hx]; eauto; discriminate.
    + intros H. now destruct (H ms).
Qed.

(** C6.  [normalizeSchemaForStrictMode] works on a copy: when it returns,
    every cell of the caller's heap is as it was, so the caller's schema
    reads as before at every depth; the value returned is a new object, and
    the new objects refer to new objects only. *)
Theorem normalize_preserves_input schema h normalized h' :
  heap_wf h = true ->
  normalizeSchemaForStrictMode schema h = Some (normalized, h') ->
  take (length h) h' = h /\
  (forall l c, h !! l = Some c -> h' !! l = Some c) /\
  (forall fuel t, JSON_stringify fuel h schema = Some t ->
                  JSON_stringify fuel h' schema = Some t) /\
  (forall l, normalized = VRef l -> (length h <= l)%nat) /\
  (forall l c, (length h <= l)%nat -> h' !! l = Some c ->
               forall r, VRef r ∈ cell_values c -> (length h <= r)%nat).
Proof.
  intros Hwf Hrun.
  destruct (normalize_extends _ _ _ _ Hwf Hrun) as (t & _ & -> & ->).
  split; [ | split; [ | split; [ | split ] ] ].
  - now rewrite take_app_length.
  - intros l c Hl. now apply lookup_app_l_Some.
  - intros fuel' t' Ht'. now apply stringify_extend.
  - intros l Hl. exact (root_fresh (length h) (length h) t (le_n _) l Hl).
  - intros l c Hle Hl r Hr.
    rewrite lookup_app_r in Hl by exact Hle.
    pose proof (body_fresh (length h) (closeObjects t) (length h) (le_n _)) as Hf.
    rewrite Forall_forall in Hf. specialize (Hf c (list_elem_of_lookup_2 _ _ _ Hl)).
    rewrite Forall_forall in Hf. exact (Hf _ Hr r eq_refl).
Qed.

(** ** Provider detection *)

Lemma startsWith_spec pat : forall s,
  startsWith s pat = true <-> exists suf, s = pat +:+ suf.
Proof.
  induction pat as [ | p pat IH ]; intros s; cbn [startsWith].
  - split; [ intros _; now exists s | now destruct s ].
  - destruct s as [ | c s ].
    + split; [ discriminate | intros [suf H]; discriminate ].
    + cbn [startsWith]. rewrite andb_true_iff, IH, Ascii.eqb_eq. split.
      * intros [-> [suf ->]]. now exists suf.
      * intros [suf H]. cbn in H. injection H as -> ->. split; [ reflexivity | now exists suf ].
Qed.

Lemma includes_spec pat : forall s, includes s pat = true <-> occurs pat s.
Proof.
  unfold occurs. induction s as [ | c s IH ].
  - cbn [includes]. rewrite orb_false_r, startsWith_spec. split.
    + intros [suf H]. now exists EmptyString, suf.
    + intros ([ | a pre ] & suf & H); [ now exists suf | discriminate ].
  - cbn [includes]. rewrite orb_true_iff, startsWith_spec, IH. split.
    + intros [ [suf H] | (pre & suf & H) ].
      * now exists EmptyString, suf.
      * exists (String c pre), suf. cbn. now rewrite H.
    + intros ([ | a pre ] & suf & H).
      * left. now exists suf.
      * right. cbn in H. injection H as -> ->. now exists pre, suf.
Qed.

Lemma includes_markers s markers :
  existsb (includes s) markers = true <-> Exists (fun mk => occurs mk s) markers.
Proof.
  rewrite existsb_exists, Exists_exists. split.
  - intros (mk & Hin & H). exists mk. split; [ now apply list_elem_of_In | now apply includes_spec ].
  - intros (mk & Hin & H). exists mk. split; [ now apply list_elem_of_In | now apply includes_spec ].
Qed.

Lemma detectProvider_markers model :
  detectProvider model =
  let s := toLowerCase model in
  if existsb (includes s) openai_markers then OpenAI
  else if existsb (includes s) anthropic_markers then Anthropic
  else if existsb (includes s) gemini_markers then Gemini
  else OpenAI.
Proof.
  unfold detectProvider, openai_markers, anthropic_markers, gemini_markers.
  cbn [existsb]. now rewrite !orb_false_r, !orb_assoc.
Qed.

Lemma lower_ascii_same a b : same_letter a b -> lower_ascii a = lower_ascii b.
Proof.
  assert (Hul : forall x y, upper_lower x y -> lower_ascii x = lower_ascii y).
  { intros x y [Hx Hy]. unfold lower_ascii. rewrite Hy.
    destruct (N.leb_spec 65 (N_of_ascii x)); [ | lia ].
    destruct (N.leb_spec (N_of_ascii x) 90); [ | lia ].
    destruct (N.leb_spec (N_of_ascii x + 32) 90); [ lia | ].
    rewrite andb_false_r. cbn [andb]. now rewrite <- Hy, ascii_N_embedding. }
  intros [ -> | [ H | H ] ]; [ reflexivity | now apply Hul | symmetry; now apply Hul ].
Qed.

Lemma toLowerCase_caseless s t : caseless s t -> toLowerCase s = toLowerCase t.
Proof.
  induction 1 as [ | a b s t Hab _ IH ]; [ reflexivity | ].
  cbn [toLowerCase]. now rewrite (lower_ascii_same _ _ Hab), IH.
Qed.

(** C2.  [detectProvider] is a total function into the three providers; it
    does not distinguish identifiers that differ in letter case only; it
    answers openai when the lower-cased identifier contains an OpenAI
    marker, else anthropic when it contains "claude", else gemini when it
    contains "gemini" or "palm", else openai; and it maps the four
    identifiers of the specification as stated there. *)
Theorem detectProvider_total_prioritised :
  (detectProvider "gpt-4" = OpenAI /\
   detectProvider "Claude-3-5-Sonnet" = Anthropic /\
   detectProvider "gemini-pro" = Gemini /\
   detectProvider "llama-70b" = OpenAI) /\
  (forall model, detectProvider model = OpenAI \/
                 detectProvider model = Anthropic \/
                 detectProvider model = Gemini) /\
  (forall m1 m2, caseless m1 m2 -> detectProvider m1 = detectProvider m2) /\
  (forall model,
     let s := toLowerCase model in
     let marked markers := Exists (fun mk => occurs mk s) markers in
     (marked openai_markers -> detectProvider model = OpenAI) /\
     (~ marked openai_markers -> marked anthropic_markers ->
      detectProvider model = Anthropic) /\
     (~ marked openai_markers -> ~ marked anthropic_markers -> marked gemini_markers ->
      detectProvider model = Gemini) /\
     (~ marked openai_markers -> ~ marked anthropic_markers -> ~ marked gemini_markers ->
      detectProvider model = OpenAI)).
Proof.
  split; [ repeat split; reflexivity | ]. split; [ | split ].
  - intros model. destruct (detectProvider model); auto.
  - intros m1 m2 H. unfold detectProvider. now rewrite (toLowerCase_caseless _ _ H).
  - intros model s marked. subst marked. cbv beta.
    rewrite detectProvider_markers. fold s. cbv zeta.
    rewrite <- !includes_markers.
    destruct (existsb (includes s) openai_markers),
             (existsb (includes s) anthropic_markers),
             (existsb (includes s) gemini_markers);
      repeat split; intros; try reflexivity; congruence.
Qed.

(** ** The adapter *)

Lemma getOpenAIClient_heap enableTracing w r w' :
  getOpenAIClient enableTracing w = (r, w') ->
  heap_of w' = heap_of w /\ requests w' = requests w.
Proof.
  unfold getOpenAIClient.
  destruct (openaiClient w); [ now intros [= <- <-] | ].
  destruct (OPENAI_API_KEY w) as [ key | ]; [ | now intros [= <- <-] ].
  destruct (String.eqb key ""); now intros [= <- <-].
Qed.

Lemma getOpenAIClient_available enableTracing w :
  (is_Some (openaiClient w) \/ exists key, OPENAI_API_KEY w = Some key /\ key <> "") ->
  exists client w', getOpenAIClient enableTracing w = (Ok client, w').
Proof.
  unfold getOpenAIClient. intros [ [client ->] | (key & Hkey & Hne) ]; [ eauto | ].
  destruct (openaiClient w); [ eauto | ]. rewrite Hkey.
  destruct (String.eqb_spec key ""); [ contradiction | eauto ].
Qed.

(** What the statements before [try] do, step by step. *)
Lemma request_params_run prompt cfg w :
  request_params prompt cfg w =
  let h := heap_of w in
  let enableTracing := getField h cfg "enableTracing" in
  match getOpenAIClient (if nullish enableTracing then VBool true else enableTracing) w with
  | (Throw e, w') => (Throw e, w')
  | (Ok client, w') =>
      let schema := getField h cfg "schema" in
      let finish (text : option ResponseFormat) : Client * Request :=
        (client,
         {| req_model := getField h cfg "model";
            req_input := formatInput prompt (getField h cfg "systemPrompt");
            req_temperature := if nullish (getField h cfg "temperature")
                               then DefaultTemperature
                               else GivenTemperature (getField h cfg "temperature");
            req_top_p := getField h cfg "topP";
            req_max_output_tokens := getField h cfg "maxTokens";
            req_reasoning := if truthy (getField h cfg "reasoning")
                             then Some (getField h cfg "reasoning") else None;
            req_text := text |}) in
      if truthy schema then
        match normalizeSchemaForStrictMode schema h with
        | Some (normalized, h') =>
            (Ok (finish (Some {| format_type := "json_schema";
                                 format_name := if nullish (getField h schema "title")
                                                then VStr "response"
                                                else getField h schema "title";
                                 format_schema := normalized;
                                 format_strict := true |})),
             with_heap h' w')
        | None => (Throw (TypeError "Converting circular structure to JSON"), w')
        end
      else (Ok (finish None), w')
  end.
Proof.
  unfold request_params, bind at 1, read at 1. cbv zeta.
  unfold bind at 1.
  destruct (getOpenAIClient _ w) as [[ client | e ] w'] eqn:Hc; [ | reflexivity ].
  destruct (getOpenAIClient_heap _ _ _ _ Hc) as [Hh _].
  unfold bind, read, ret. rewrite !Hh.
  destruct (truthy (getField (heap_of w) cfg "schema")); [ | reflexivity ].
  unfold convertSchemaToResponseFormat. rewrite Hh.
  destruct (normalizeSchemaForStrictMode _ _) as [ [normalized h'] | ]; reflexivity.
Qed.

(** The request can be built whenever a client can be had and the schema,
    if there is one, is JSON-shaped. *)
Lemma request_params_succeeds prompt cfg w :
  heap_wf (heap_of w) = true ->
  (is_Some (openaiClient w) \/ exists key, OPENAI_API_KEY w = Some key /\ key <> "") ->
  (truthy (getField (heap_of w) cfg "schema") = true ->
   exists t, denotes (heap_of w) (getField (heap_of w) cfg "schema") t) ->
  exists client params w1, request_params prompt cfg w = (Ok (client, params), w1).
Proof.
  intros Hwf Hclient Hschema. rewrite request_params_run. cbv zeta.
  destruct (getOpenAIClient_available
              (if nullish (getField (heap_of w) cfg "enableTracing") then VBool true
               else getField (heap_of w) cfg "enableTracing") w Hclient)
    as (client & w' & ->).
  destruct (truthy (getField (heap_of w) cfg "schema")) eqn:E; [ | eauto ].
  destruct (Hschema eq_refl) as [t Ht]. rewrite (normalize_run _ _ t Hwf Ht). eauto.
Qed.

(** Building the request allocates, and changes nothing that was there. *)
Lemma request_params_preserves prompt cfg w client params w1 :
  heap_wf (heap_of w) = true ->
  request_params prompt cfg w = (Ok (client, params), w1) ->
  (forall l c, heap_of w !! l = Some c -> heap_of w1 !! l = Some c) /\
  (forall k, is_object (heap_of w) cfg ->
             getField (heap_of w1) cfg k = getField (heap_of w) cfg k) /\
  requests w1 = requests w.
Proof.
  intros Hwf. rewrite request_params_run. cbv zeta.
  destruct (getOpenAIClient _ w) as [[ client' | e ] w'] eqn:Hc; [ | discriminate ].
  destruct (getOpenAIClient_heap _ _ _ _ Hc) as [Hh Hr].
  assert (Hkeep : forall h', (forall l c, heap_of w !! l = Some c -> h' !! l = Some c) ->
            forall k, is_object (heap_of w) cfg ->
                      getField h' cfg k = getField (heap_of w) cfg k).
  { intros h' Hpre k (l & props & -> & Hl). unfold getField, get.
    now rewrite (Hpre _ _ Hl), Hl. }
  destruct (truthy (getField (heap_of w) cfg "schema")).
  - destruct (normalizeSchemaForStrictMode _ _) as [ [normalized h'] | ] eqn:Hn;
      [ | discriminate ].
    intros [= <- <- <-]. cbn [heap_of with_heap requests].
    destruct (normalize_extends _ _ _ _ Hwf Hn) as (t & _ & _ & ->).
    assert (Hpre : forall l c, heap_of w !! l = Some c ->
                               (heap_of w ++ body (length (heap_of w)) (closeObjects t)) !! l
                               = Some c)
      by (intros l c Hl; now apply lookup_app_l_Some).
    split; [ exact Hpre | ]. split; [ now apply Hkeep | exact Hr ].
  - intros [= <- <- <-]. rewrite Hh.
    split; [ auto | ]. split; [ reflexivity | exact Hr ].
Qed.

Section Adapter.

Variable JSON_parse : string -> option json.
Variable backend : Client -> Request -> val -> BackendOutcome.

Lemma generateWithOpenAI_prepared prompt cfg w client params w1 :
  request_params prompt cfg w = (Ok (client, params), w1) ->
  generateWithOpenAI JSON_parse backend prompt cfg w =
  match backend client params (getField (heap_of w1) cfg "timeout") with
  | Throws e => normalize_error cfg e (sent params w1)
  | Returns completion =>
      match extract_content completion (sent params w1) with
      | (Ok text, w2) =>
          (Ok {| content := text;
                 provider := OpenAI;
                 model := getField (heap_of w1) cfg "model";
                 usage := match completion_usage completion with
                          | Some u => Some {| inputTokens := input_tokens u;
                                              outputTokens := output_tokens u;
                                              totalTokens := total_tokens u |}
                          | None => None
                          end;
                 structuredOutput :=
                   if truthy (getField (heap_of w1) cfg "schema") && truthy (VStr text)
                   then JSON_parse text else None |}, w2)
      | (Throw e, w2) => normalize_error cfg e w2
      end
  end.
Proof.
  intros Hprep. unfold generateWithOpenAI, bind at 1. rewrite Hprep. cbn [fst snd].
  unfold try_catch, bind, read, responses_create. fold (sent params w1).
  destruct (backend client params _) as [ completion | e ]; [ | reflexivity ].
  destruct (extract_content completion (sent params w1)) as [[ text | e ] w2] eqn:E;
    [ | reflexivity ].
  assert (w2 = sent params w1) as ->.
  { unfold extract_content in E.
    repeat match type of E with
           | context [match ?x with _ => _ end] => destruct x
           end; now inversion E. }
  reflexivity.
Qed.

Lemma extract_content_text completion text w :
  plain_text_first completion text -> extract_content completion w = (Ok text, w).
Proof.
  intros (item & items & part & parts & Ho & Hi & Hc & Hp & Ht).
  unfold extract_content. rewrite Ho, Hi, Hc, Hp, Ht. reflexivity.
Qed.

Lemma extract_content_other completion w :
  (forall text, ~ plain_text_first completion text) ->
  extract_content completion w = (Throw (ThrownLLM unsupported_format), w) \/
  exists msg, extract_content completion w = (Throw (TypeError msg), w).
Proof.
  intros Hno. unfold extract_content.
  destruct (output completion) as [ | item items ] eqn:Ho; [ now left | ].
  destruct (String.eqb_spec (item_type item) "message") as [ Hi | ]; [ | now left ].
  destruct (item_content item) as [ | part parts ] eqn:Hc; [ right; eauto | ].
  destruct (String.eqb_spec (part_type part) "output_text") as [ Hp | ]; [ | now left ].
  destruct (Hno (part_text part)). now exists item, items, part, parts.
Qed.

(** C9.  When the first output item of the completion is not a message
    whose first content part is plain output text, [generateWithOpenAI]
    fails with a generic [LLMError] of status 500 tagged openai. *)
Theorem unsupported_shape_is_LLMError_500 prompt cfg w client params w1 completion :
  request_params prompt cfg w = (Ok (client, params), w1) ->
  backend client params (getField (heap_of w1) cfg "timeout") = Returns completion ->
  (forall text, ~ plain_text_first completion text) ->
  exists e,
    generateWithOpenAI JSON_parse backend prompt cfg w =
      (Throw (ThrownLLM e), sent params w1) /\
    name e = "LLMError" /\ statusCode e = 500 /\ error_provider e = Some OpenAI.
Proof.
  intros Hprep Hback Hshape.
  rewrite (generateWithOpenAI_prepared _ _ _ _ _ _ Hprep), Hback.
  destruct (extract_content_other completion (sent params w1) Hshape) as [ -> | [msg ->] ].
  - eexists. split; [ reflexivity | repeat split ].
  - eexists. split; [ reflexivity | repeat split ].
Qed.


Lemma LLM_generate_openai llm prompt w :
  getField (heap_of w) (config llm) "provider" = VStr "openai" ->
  LLM_generate JSON_parse backend llm prompt w =
  generateWithOpenAI JSON_parse backend prompt (config llm) w.
Proof. intros Hp. unfold LLM_generate, bind at 1, read. now rewrite Hp. Qed.

(** C8.  When the provider of the dispatcher's configuration is anthropic
    or gemini, [generate] fails with an [UnsupportedProviderError] of
    status 400 whose message carries that provider's string, and leaves the
    world as it found it: no client is acquired, nothing is allocated, no
    request is sent. *)
Theorem unsupported_provider_fails_first llm prompt w p :
  getField (heap_of w) (config llm) "provider" = VStr (provider_string p) ->
  p = Anthropic \/ p = Gemini ->
  exists e,
    LLM_generate JSON_parse backend llm prompt w = (Throw (ThrownLLM e), w) /\
    e = UnsupportedProviderError (VStr (provider_string p)) /\
    name e = "UnsupportedProviderError" /\
    statusCode e = 400 /\
    message e = "Unsupported LLM provider: " +:+ provider_string p.
Proof.
  intros Hp Hstub. eexists. split; [ | repeat split ].
  unfold LLM_generate, bind, read. rewrite Hp.
  destruct Hstub as [ -> | -> ]; reflexivity.
Qed.

(** C7.  A schema was requested and the backend replied with plain text.
    [generateWithOpenAI] returns that text; its [structuredOutput] is what
    [JSON.parse] makes of the text, and is unset when the text is not
    valid JSON.  On the same reply [generateStructured] returns the empty
    object when the text is not valid JSON, and the parsed value when it is
    (the empty object for the value [null]). *)
Theorem structured_output_parse model prompt schema options w0 cfg0 wa llm wb
    client params w1 completion text :
  JSON_parse "" = None ->
  object_with [("model", VStr model); ("schema", schema)] options w0 = (Ok cfg0, wa) ->
  createLLM cfg0 wa = (Ok llm, wb) ->
  getField (heap_of wb) (config llm) "provider" = VStr "openai" ->
  request_params prompt (config llm) wb = (Ok (client, params), w1) ->
  truthy (getField (heap_of w1) (config llm) "schema") = true ->
  backend client params (getField (heap_of w1) (config llm) "timeout") = Returns completion ->
  plain_text_first completion text ->
  (exists response,
     LLM_generate JSON_parse backend llm prompt wb = (Ok response, sent params w1) /\
     content response = text /\
     structuredOutput response = JSON_parse text) /\
  (JSON_parse text = None ->
   generateStructured JSON_parse backend model prompt schema options w0 =
     (Ok (JObj []), sent params w1)) /\
  (forall parsed, JSON_parse text = Some parsed ->
   generateStructured JSON_parse backend model prompt schema options w0 =
     (Ok (match parsed with JNull => JObj [] | _ => parsed end), sent params w1)).
Proof.
  intros Hempty Hcfg Hllm Hprov Hprep Hschema Hback Htext.
  assert (Hgen : LLM_generate JSON_parse backend llm prompt wb =
                 (Ok {| content := text;
                        provider := OpenAI;
                        model := getField (heap_of w1) (config llm) "model";
                        usage := match completion_usage completion with
                                 | Some u => Some {| inputTokens := input_tokens u;
                                                     outputTokens := output_tokens u;
                                                     totalTokens := total_tokens u |}
                                 | None => None
                                 end;
                        structuredOutput := JSON_parse text |}, sent params w1)).
  { rewrite (LLM_generate_openai _ _ _ Hprov).
    rewrite (generateWithOpenAI_prepared _ _ _ _ _ _ Hprep), Hback.
    rewrite (extract_content_text _ _ _ Htext), Hschema. cbn [andb truthy].
    destruct (String.eqb_spec text "") as [ -> | ]; [ now rewrite Hempty | reflexivity ]. }
  split; [ eexists; split; [ exact Hgen | split; reflexivity ] | ].
  assert (Hrun : generateStructured JSON_parse backend model prompt schema options w0 =
                 (Ok (match JSON_parse text with
                      | None | Some JNull => JObj []
                      | Some parsed => parsed
                      end), sent params w1)).
  { unfold generateStructured, bind at 1. rewrite Hcfg.
    unfold bind at 1. rewrite Hllm. unfold bind at 1. rewrite Hgen. reflexivity. }
  split.
  - intros Hnone. now rewrite Hrun, Hnone.
  - intros parsed Hsome. rewrite Hrun, Hsome. now destruct parsed.
Qed.

End Adapter.

(** ** The facade *)

Lemma assoc_spread {A} k (ext : list (string * A)) : forall base,
  NoDup (map fst ext) ->
  assoc k (spread base ext) =
  match assoc k ext with Some a => Some a | None => assoc k base end.
Proof.
  unfold spread. induction ext as [ | [k' a'] ext IH ]; intros base Hnd; [ reflexivity | ].
  cbn [map fst] in Hnd. apply NoDup_cons in Hnd as [Hk Hnd].
  cbn [fold_left fst snd assoc]. rewrite IH by exact Hnd.
  destruct (String.eqb_spec k k') as [ -> | Hne ].
  - apply assoc_None in Hk. now rewrite Hk, assoc_assign_eq.
  - now rewrite assoc_assign_ne.
Qed.

Lemma lookup_fresh (h : heap) c : (h ++ [c]) !! length h = Some c.
Proof. now apply list_lookup_middle. Qed.

Lemma getField_fresh (h : heap) props k :
  getField (h ++ [CObj props]) (VRef (length h)) k = default VUndef (assoc k props).
Proof. unfold getField, get. now rewrite lookup_fresh. Qed.

Lemma own_properties_fresh (h : heap) props :
  own_properties (h ++ [CObj props]) (VRef (length h)) = props.
Proof. unfold own_properties. now rewrite lookup_fresh. Qed.

Lemma getField_own_properties h o k :
  is_object h o -> getField h o k = default VUndef (assoc k (own_properties h o)).
Proof. intros (l & props & -> & Hl). unfold getField, get, own_properties. now rewrite Hl. Qed.

Lemma truthy_provider p : truthy (VStr (provider_string p)) = true.
Proof. now destruct p. Qed.

(** The properties [new LLM(config)] stores, from those of [config]. *)
Lemma LLM_constructor_run w cfg llm w1 :
  LLM_constructor cfg w = (Ok llm, w1) ->
  exists p,
    (if truthy (getField (heap_of w) cfg "provider")
     then p = getField (heap_of w) cfg "provider"
     else exists m, getField (heap_of w) cfg "model" = VStr m /\
                    p = VStr (provider_string (detectProvider m))) /\
    let timeout := getField (heap_of w) cfg "timeout" in
    let enableTracing := getField (heap_of w) cfg "enableTracing" in
    let resolved :=
      assign "enableTracing" (if nullish enableTracing then VBool true else enableTracing)
        (assign "timeout" (if truthy timeout then timeout else VNum 90000)
           (assign "provider" p (own_properties (heap_of w) cfg))) in
    config llm = VRef (length (heap_of w)) /\
    w1 = with_heap (heap_of w ++ [CObj resolved]) w.
Proof.
  unfold LLM_constructor, alloc.
  destruct (truthy (getField (heap_of w) cfg "provider")) eqn:Hp.
  - intros [= <- <-]. eexists. split; [ reflexivity | split; reflexivity ].
  - destruct (getField (heap_of w) cfg "model") as [ | | | | m | ] eqn:Hm; try discriminate.
    intros [= <- <-]. eexists. split; [ eauto | split; reflexivity ].
Qed.

(** C3.  Construction resolves a configuration whose [model] is a string
    and whose [provider] and [enableTracing], when given, are a provider
    and a boolean: the provider is the explicit one if given, else the
    detected one; the timeout is the explicit one if given and truthy, else
    90000; [enableTracing] is the explicit one if given, else [true]; every
    other field is as in the input, and construction changes nothing but
    to allocate the resolved configuration.  Resolving the [getConfig()] of
    a dispatcher again yields the same configuration. *)
Theorem constructor_merge_idempotent :
  (forall w cfg l props m,
     cfg = VRef l -> heap_of w !! l = Some (CObj props) ->
     assoc "model" props = Some (VStr m) ->
     optional is_provider (assoc "provider" props) ->
     optional is_boolean (assoc "enableTracing" props) ->
     exists resolved,
       LLM_constructor cfg w =
         (Ok {| config := VRef (length (heap_of w)) |},
          with_heap (heap_of w ++ [CObj resolved]) w) /\
       assoc "provider" resolved =
         Some (or_else (assoc "provider" props)
                       (VStr (provider_string (detectProvider m)))) /\
       assoc "timeout" resolved =
         Some (match assoc "timeout" props with
               | Some t => if truthy t then t else VNum 90000
               | None => VNum 90000
               end) /\
       assoc "enableTracing" resolved =
         Some (or_else (assoc "enableTracing" props) (VBool true)) /\
       (forall k, k ∉ ["provider"; "timeout"; "enableTracing"] ->
                  assoc k resolved = assoc k props)) /\
  (forall w cfg llm w1 copy w2,
     LLM_constructor cfg w = (Ok llm, w1) ->
     LLM_getConfig llm w1 = (Ok copy, w2) ->
     exists llm2 w3,
       LLM_constructor copy w2 = (Ok llm2, w3) /\
       own_properties (heap_of w3) (config llm2) = own_properties (heap_of w1) (config llm)).
Proof.
  split.
  - intros w cfg l props m -> Hl Hmodel Hprov Htrace.
    assert (Hget : forall k, getField (heap_of w) (VRef l) k = default VUndef (assoc k props)).
    { intros k. unfold getField, get. now rewrite Hl. }
    eexists. split; [ | split; [ | split; [ | split ] ] ].
    + unfold LLM_constructor, alloc, own_properties. rewrite Hl, !Hget, Hmodel.
      cbn [default from_option id].
      assert (Hres : (if truthy (default VUndef (assoc "provider" props))
                      then Ok (default VUndef (assoc "provider" props))
                      else Ok (VStr (provider_string (detectProvider m)))) =
                     Ok (or_else (assoc "provider" props)
                                 (VStr (provider_string (detectProvider m))))).
      { destruct Hprov as [ -> | [ -> | (v & -> & p & ->) ] ]; try reflexivity.
        cbn [default from_option id or_else]. rewrite truthy_provider. now destruct p. }
      rewrite Hres. reflexivity.
    + rewrite assoc_assign_ne, assoc_assign_ne, assoc_assign_eq by discriminate. reflexivity.
    + rewrite assoc_assign_ne, assoc_assign_eq by discriminate.
      now destruct (assoc "timeout" props).
    + rewrite assoc_assign_eq. f_equal.
      destruct Htrace as [ -> | [ -> | (v & -> & b & ->) ] ]; reflexivity.
    + intros k Hk. rewrite !not_elem_of_cons in Hk. destruct Hk as (H1 & H2 & H3 & _).
      now rewrite !assoc_assign_ne by congruence.
  - intros w cfg llm w1 copy w2 Hnew Hcopy.
    destruct (LLM_constructor_run _ _ _ _ Hnew) as (p & Hp & Hllm & ->). cbv zeta in *.
    set (h := heap_of w) in *.
    set (t := if truthy (getField h cfg "timeout") then getField h cfg "timeout"
              else VNum 90000) in *.
    set (e := if nullish (getField h cfg "enableTracing") then VBool true
              else getField h cfg "enableTracing") in *.
    set (resolved := assign "enableTracing" e
                       (assign "timeout" t (assign "provider" p (own_properties h cfg)))) in *.
    assert (Hp' : truthy p = true).
    { destruct (truthy (getField h cfg "provider")) eqn:E; [ now subst p | ].
      destruct Hp as (m & _ & ->). apply truthy_provider. }
    assert (Ht' : truthy t = true).
    { subst t. now destruct (truthy (getField h cfg "timeout")) eqn:E. }
    assert (He' : nullish e = false).
    { subst e. now destruct (nullish (getField h cfg "enableTracing")) eqn:E. }
    assert (Hrp : assoc "provider" resolved = Some p).
    { subst resolved. now rewrite !assoc_assign_ne, assoc_assign_eq by discriminate. }
    assert (Hrt : assoc "timeout" resolved = Some t).
    { subst resolved. now rewrite assoc_assign_ne, assoc_assign_eq by discriminate. }
    assert (Hre : assoc "enableTracing" resolved = Some e).
    { subst resolved. now rewrite assoc_assign_eq. }
    unfold LLM_getConfig, new_object, alloc in Hcopy. cbn [heap_of with_heap] in Hcopy.
    rewrite Hllm, own_properties_fresh in Hcopy. injection Hcopy as <- <-.
    cbn [heap_of with_heap]. rewrite Hllm, own_properties_fresh.
    eexists _, _. split.
    + unfold LLM_constructor, alloc. cbn [heap_of with_heap].
      rewrite !getField_fresh, own_properties_fresh, Hrp, Hrt, Hre.
      cbn [default from_option id]. rewrite Hp', Ht', He'.
      rewrite (assign_id "provider" p resolved Hrp), (assign_id "timeout" t resolved Hrt),
        (assign_id "enableTracing" e resolved Hre).
      reflexivity.
    + cbn [config heap_of with_heap]. apply own_properties_fresh.
Qed.

(** C5, as the code has it.  [getConfig()] returns a new object with the
    properties of the dispatcher's configuration.  Whatever the caller
    does to that object, every object that existed before the call, the
    dispatcher's configuration among them, is as it was: the dispatcher
    reads the same fields, and a later [getConfig()] returns the same
    properties.  (The values of the properties are shared, not copied.) *)
Theorem getConfig_copies_top_level llm w copy w1 (mutated : cell) :
  is_object (heap_of w) (config llm) ->
  LLM_getConfig llm w = (Ok copy, w1) ->
  copy = VRef (length (heap_of w)) /\
  own_properties (heap_of w1) copy = own_properties (heap_of w) (config llm) /\
  let w2 := with_heap (<[length (heap_of w) := mutated]> (heap_of w1)) w1 in
  (forall l c, heap_of w !! l = Some c -> heap_of w2 !! l = Some c) /\
  (forall k, getField (heap_of w2) (config llm) k = getField (heap_of w) (config llm) k) /\
  exists copy' w3,
    LLM_getConfig llm w2 = (Ok copy', w3) /\
    own_properties (heap_of w3) copy' = own_properties (heap_of w) (config llm).
Proof.
  intros (l & props & Hcfg & Hl) Hcopy.
  unfold LLM_getConfig, new_object, alloc in Hcopy. injection Hcopy as <- <-.
  cbn [heap_of with_heap].
  assert (Hown : own_properties (heap_of w) (config llm) = props).
  { rewrite Hcfg. unfold own_properties. now rewrite Hl. }
  rewrite Hown.
  assert (Hins : <[length (heap_of w) := mutated]> (heap_of w ++ [CObj props]) =
                 heap_of w ++ [mutated]).
  { rewrite <- (Nat.add_0_r (length (heap_of w))), insert_app_r. reflexivity. }
  rewrite Hins.
  split; [ reflexivity | ]. split; [ apply own_properties_fresh | ].
  split; [ | split ].
  - intros l' c Hc. now apply lookup_app_l_Some.
  - intros k. rewrite Hcfg. unfold getField, get.
    now rewrite (lookup_app_l_Some _ _ _ _ Hl), Hl.
  - unfold LLM_getConfig, new_object, alloc. cbn [heap_of with_heap].
    eexists _, _. split; [ reflexivity | ]. cbn [heap_of with_heap].
    rewrite own_properties_fresh, Hcfg. unfold own_properties.
    now rewrite (lookup_app_l_Some _ _ _ _ Hl).
Qed.

Section Convenience.

Variable JSON_parse : string -> option json.
Variable backend : Client -> Request -> val -> BackendOutcome.

Lemma object_with_run first options w l props :
  options = VRef l -> heap_of w !! l = Some (CObj props) ->
  object_with first options w =
  (Ok (VRef (length (heap_of w))),
   with_heap (heap_of w ++ [CObj (spread first props)]) w).
Proof.
  intros -> Hl. unfold object_with, new_object, alloc, own_properties. now rewrite Hl.
Qed.

Lemma constructor_passes_through cfg w llm w1 k :
  k ∉ ["provider"; "timeout"; "enableTracing"] ->
  is_object (heap_of w) cfg ->
  createLLM cfg w = (Ok llm, w1) ->
  getField (heap_of w1) (config llm) k = getField (heap_of w) cfg k.
Proof.
  intros Hk Hobj Hnew. rewrite !not_elem_of_cons in Hk. destruct Hk as (H1 & H2 & H3 & _).
  destruct (LLM_constructor_run _ _ _ _ Hnew) as (p & _ & -> & ->).
  cbn [heap_of with_heap]. rewrite getField_fresh, !assoc_assign_ne by congruence.
  symmetry. now apply getField_own_properties.
Qed.

Lemma positional_keys k :
  k ∈ ["model"; "schema"] -> k ∉ ["provider"; "timeout"; "enableTracing"].
Proof.
  intros H. rewrite !not_elem_of_cons. rewrite !elem_of_cons in H.
  destruct H as [ -> | [ -> | H ] ]; [ | | now apply elem_of_nil in H ];
    repeat split; (discriminate || apply not_elem_of_nil).
Qed.

(** C10.  The configuration the convenience functions build is the
    spread of [options] over the positional arguments: a new object, which
    has exactly the keys of [options] and the positional ones, each key of
    [options] with the value [options] gives it (the positional value lost
    where [options] names [model] or [schema]) and a positional key that
    [options] does not have with the positional value; no object that
    existed is changed.  The dispatcher [generate] asks is made from that
    object and has its [model] and [schema].  So when [options] has a
    [model] key the dispatcher is built with [options.model], not the
    positional [model], and [generateStructured] likewise takes
    [options.model] and [options.schema] where [options] has them. *)
Theorem options_override_positional model prompt schema options w l props :
  heap_wf (heap_of w) = true ->
  options = VRef l -> heap_of w !! l = Some (CObj props) ->
  let spread_over first k :=
    match assoc k props with Some given => Some given | None => assoc k first end in
  let built first cfg w1 :=
    object_with first options w = (Ok cfg, w1) /\
    cfg = VRef (length (heap_of w)) /\
    length (heap_of w1) = S (length (heap_of w)) /\
    (forall l' c, heap_of w !! l' = Some c -> heap_of w1 !! l' = Some c) /\
    (forall k, assoc k (own_properties (heap_of w1) cfg) = spread_over first k) /\
    (forall k, getField (heap_of w1) cfg k = default VUndef (spread_over first k)) /\
    (forall k llm w2, k ∈ ["model"; "schema"] -> createLLM cfg w1 = (Ok llm, w2) ->
       getField (heap_of w2) (config llm) k = default VUndef (spread_over first k)) in
  (exists cfg w1,
     built [("model", VStr model)] cfg w1 /\
     generate JSON_parse backend model prompt options w =
       (let* llm := createLLM cfg in
        let* response := LLM_generate JSON_parse backend llm prompt in
        ret (content response))%js w1 /\
     forall given, assoc "model" props = Some given ->
       getField (heap_of w1) cfg "model" = given /\
       forall llm w2, createLLM cfg w1 = (Ok llm, w2) ->
                      getField (heap_of w2) (config llm) "model" = given) /\
  (exists cfg w1,
     built [("model", VStr model); ("schema", schema)] cfg w1 /\
     generateStructured JSON_parse backend model prompt schema options w =
       (let* llm := createLLM cfg in
        let* response := LLM_generate JSON_parse backend llm prompt in
        ret (match structuredOutput response with
             | None | Some JNull => JObj []
             | Some parsed => parsed
             end))%js w1 /\
     forall k given, k ∈ ["model"; "schema"] -> assoc k props = Some given ->
       getField (heap_of w1) cfg k = given /\
       forall llm w2, createLLM cfg w1 = (Ok llm, w2) ->
                      getField (heap_of w2) (config llm) k = given).
Proof.
  intros Hwf Hopt Hl spread_over built.
  pose proof (heap_wf_lookup _ _ _ Hwf Hl) as Hnd.
  assert (Hbuilt : forall first,
            built first (VRef (length (heap_of w)))
              (with_heap (heap_of w ++ [CObj (spread first props)]) w)).
  { intros first. subst built. cbv beta. cbn [heap_of with_heap].
    assert (Hfield : forall k,
              getField (heap_of w ++ [CObj (spread first props)])
                       (VRef (length (heap_of w))) k =
              default VUndef (spread_over first k)).
    { intros k. subst spread_over. cbv beta.
      now rewrite getField_fresh, assoc_spread by exact Hnd. }
    split; [ exact (object_with_run _ _ _ _ _ Hopt Hl) | ]. split; [ reflexivity | ].
    split; [ rewrite length_app; cbn [length]; lia | ].
    split; [ intros l' c Hc; now apply lookup_app_l_Some | ].
    split; [ intros k; rewrite own_properties_fresh; now apply assoc_spread | ].
    split; [ exact Hfield | ].
    intros k llm w2 Hk Hnew.
    assert (Hobj : is_object
                     (heap_of (with_heap (heap_of w ++ [CObj (spread first props)]) w))
                     (VRef (length (heap_of w))))
      by (eexists _, _; split; [ reflexivity | apply lookup_fresh ]).
    rewrite (constructor_passes_through _ _ _ _ k (positional_keys _ Hk) Hobj Hnew).
    apply Hfield. }
  assert (Hgiven : forall first cfg w1 k given,
            built first cfg w1 -> k ∈ ["model"; "schema"] -> assoc k props = Some given ->
            getField (heap_of w1) cfg k = given /\
            forall llm w2, createLLM cfg w1 = (Ok llm, w2) ->
                           getField (heap_of w2) (config llm) k = given).
  { intros first cfg w1 k given (_ & _ & _ & _ & _ & Hfield & Hllm) Hk Hprops.
    assert (Hover : default VUndef (spread_over first k) = given)
      by (subst spread_over; cbv beta; now rewrite Hprops).
    split; [ now rewrite Hfield | ].
    intros llm w2 Hnew. now rewrite (Hllm k llm w2 Hk Hnew). }
  split.
  - eexists _, _. split; [ apply Hbuilt | ]. split.
    + unfold generate, bind at 1. now rewrite (object_with_run _ _ _ _ _ Hopt Hl).
    + intros given Hk. apply (Hgiven _ _ _ _ _ (Hbuilt _)); [ constructor | exact Hk ].
  - eexists _, _. split; [ apply Hbuilt | ]. split.
    + unfold generateStructured, bind at 1. now rewrite (object_with_run _ _ _ _ _ Hopt Hl).
    + intros k given Hin Hk. now apply (Hgiven _ _ _ _ _ (Hbuilt _)).
Qed.

End Convenience.

(** ** Instances of the theorems above *)

Lemma normalize_closes_objects_witness :
  heap_wf sample_heap = true /\
  denotes sample_heap (VRef 3) sample_schema /\
  exists normalized h',
    normalizeSchemaForStrictMode (VRef 3) sample_heap = Some (normalized, h') /\
    denotes h' normalized (closeObjects sample_schema).
Proof.
  assert (Hdenotes : denotes sample_heap (VRef 3) sample_schema)
    by (exists 4%nat; reflexivity).
  split; [ reflexivity | ]. split; [ exact Hdenotes | ].
  destruct (normalize_closes_objects sample_heap (VRef 3) sample_schema eq_refl Hdenotes)
    as (normalized & h' & Hrun & Hread & _).
  exists normalized, h'. split; assumption.
Defined.

Lemma normalize_preserves_input_witness :
  heap_wf sample_heap = true /\
  normalizeSchemaForStrictMode (VRef 3) sample_heap =
    Some (VRef 7, sample_heap ++ body 4 (closeObjects sample_schema)) /\
  take 4 (sample_heap ++ body 4 (closeObjects sample_schema)) = sample_heap.
Proof.
  split; [ reflexivity | ]. split; [ reflexivity | ].
  exact (proj1 (normalize_preserves_input (VRef 3) sample_heap (VRef 7)
                  (sample_heap ++ body 4 (closeObjects sample_schema)) eq_refl eq_refl)).
Defined.

Lemma detect_examples_uppercase :
  detectProvider "GPT-4" = OpenAI /\ detectProvider "CLAUDE-3" = Anthropic /\
  detectProvider "PaLM-2" = Gemini.
Proof. repeat split; reflexivity. Qed.

Lemma constructor_merge_idempotent_witness :
  exists resolved,
    LLM_constructor (VRef 1) caller_world =
      (Ok {| config := VRef 4 |}, with_heap (caller_heap ++ [CObj resolved]) caller_world) /\
    assoc "provider" resolved = Some (VStr "openai") /\
    assoc "timeout" resolved = Some (VNum 90000) /\
    assoc "enableTracing" resolved = Some (VBool true).
Proof.
  destruct (proj1 constructor_merge_idempotent caller_world (VRef 1) 1%nat
              [("model", VStr "gpt-4"); ("traceMetadata", VRef 0)] "gpt-4"
              eq_refl eq_refl eq_refl (or_introl eq_refl) (or_introl eq_refl))
    as (resolved & Hrun & Hp & Ht & He & _).
  exists resolved. repeat split; assumption.
Defined.



(** A timeout that is not named "AbortError", as the client library
    reports it, is not recognised: the call fails with a generic
    [LLMError] of status 500. *)
Lemma library_timeout_is_not_recognised :
  exists e w',
    generateWithOpenAI parse_literal (failing (ThrownOther library_timeout_error))
      (PromptText "hello") (VRef 1) (resolved_world OpenAI) = (Throw (ThrownLLM e), w') /\
    name e = "LLMError" /\ statusCode e = 500 /\ message e = "Request timed out.".
Proof.
  eexists _, _. split; [ vm_compute; reflexivity | ]. repeat split.
Qed.

Lemma unsupported_shape_is_LLMError_500_witness :
  exists e w',
    generateWithOpenAI parse_literal (replying refusal_reply)
      (PromptText "hello") (VRef 1) (resolved_world OpenAI) = (Throw (ThrownLLM e), w') /\
    statusCode e = 500.
Proof.
  edestruct (unsupported_shape_is_LLMError_500 parse_literal (replying refusal_reply)
               (PromptText "hello") (VRef 1) (resolved_world OpenAI))
    as (e & Hrun & _ & Hstatus & _); [ vm_compute; reflexivity | reflexivity | | ].
  - intros text (item & items & part & parts & Ho & _ & Hc & Hp & _).
    injection Ho as <- _. injection Hc as <- _. discriminate Hp.
  - exists e. eexists. split; [ exact Hrun | exact Hstatus ].
Defined.

Lemma unsupported_shapes_examples :
  (forall text, ~ plain_text_first tool_call_reply text) /\
  (forall text, ~ plain_text_first empty_reply text) /\
  fst (generateWithOpenAI parse_literal (replying tool_call_reply)
         (PromptText "hello") (VRef 1) (resolved_world OpenAI)) =
    Throw (ThrownLLM unsupported_format) /\
  fst (generateWithOpenAI parse_literal (replying empty_reply)
         (PromptText "hello") (VRef 1) (resolved_world OpenAI)) =
    Throw (ThrownLLM unsupported_format).
Proof.
  split; [ | split; [ | split; reflexivity ] ].
  - intros text (item & items & part & parts & Ho & Hi & _).
    injection Ho as <- _. discriminate Hi.
  - intros text (item & items & part & parts & Ho & _). discriminate Ho.
Qed.

Lemma unsupported_provider_fails_first_witness :
  exists e,
    LLM_generate parse_literal (replying (text_reply "4")) {| config := VRef 1 |}
      (PromptText "hello") (resolved_world Anthropic) =
      (Throw (ThrownLLM e), resolved_world Anthropic) /\
    statusCode e = 400 /\ message e = "Unsupported LLM provider: anthropic".
Proof.
  destruct (unsupported_provider_fails_first parse_literal (replying (text_reply "4"))
              {| config := VRef 1 |} (PromptText "hello") (resolved_world Anthropic)
              Anthropic eq_refl (or_introl eq_refl))
    as (e & Hrun & _ & _ & Hstatus & Hmsg).
  exists e. repeat split; assumption.
Defined.

Lemma structured_output_parse_witness :
  generateStructured parse_literal (replying (text_reply "not json")) "gpt-4"
    (PromptText "hello") (VRef 3) VUndef caller_world =
  (Ok (JObj []),
   snd (generateStructured parse_literal (replying (text_reply "not json")) "gpt-4"
          (PromptText "hello") (VRef 3) VUndef caller_world)).
Proof.
  edestruct (structured_output_parse parse_literal (replying (text_reply "not json"))
               "gpt-4" (PromptText "hello") (VRef 3) VUndef caller_world)
    as (_ & Hinvalid & _);
    [ reflexivity | vm_compute; reflexivity | vm_compute; reflexivity | reflexivity
    | vm_compute; reflexivity | reflexivity | reflexivity | | ].
  - eexists _, _, _, _. repeat split; reflexivity.
  - rewrite (Hinvalid eq_refl). reflexivity.
Defined.

Lemma structured_output_examples :
  fst (generateStructured parse_literal (replying (text_reply "{}")) "gpt-4"
         (PromptText "hello") (VRef 3) VUndef caller_world) = Ok (JObj []) /\
  fst (generateStructured parse_literal (replying (text_reply "[]")) "gpt-4"
         (PromptText "hello") (VRef 3) VUndef caller_world) = Ok (JArr []) /\
  fst (generateStructured parse_literal (replying (text_reply "null")) "gpt-4"
         (PromptText "hello") (VRef 3) VUndef caller_world) = Ok (JObj []).
Proof. repeat split; reflexivity. Qed.

Lemma getConfig_copies_top_level_witness :
  exists copy' w3,
    LLM_getConfig {| config := VRef 1 |}
      (with_heap (<[4%nat := CObj [("model", VStr "changed")]]>
                    (caller_heap ++ [CObj [("model", VStr "gpt-4"); ("traceMetadata", VRef 0)]]))
                 caller_world) = (Ok copy', w3) /\
    own_properties (heap_of w3) copy' = [("model", VStr "gpt-4"); ("traceMetadata", VRef 0)].
Proof.
  destruct (getConfig_copies_top_level {| config := VRef 1 |} caller_world (VRef 4)
              (with_heap (caller_heap ++
                            [CObj [("model", VStr "gpt-4"); ("traceMetadata", VRef 0)]])
                         caller_world)
              (CObj [("model", VStr "changed")]))
    as (_ & _ & _ & _ & copy' & w3 & Hrun & Hprops).
  - eexists _, _. split; reflexivity.
  - reflexivity.
  - exists copy', w3. split; assumption.
Defined.

(** A change the caller makes to the trace metadata reached through the
    copy is seen by the dispatcher and by a later [getConfig()]. *)
Lemma getConfig_shares_nested_values :
  exists llm w1 copy w2 copy' w4,
    LLM_constructor (VRef 1) caller_world = (Ok llm, w1) /\
    LLM_getConfig llm w1 = (Ok copy, w2) /\
    let nested := getField (heap_of w2) copy "traceMetadata" in
    let w3 := with_heap (setField (heap_of w2) nested "userId" (VStr "intruder")) w2 in
    LLM_getConfig llm w3 = (Ok copy', w4) /\
    JSON_stringify 2 (heap_of w4) copy' <> JSON_stringify 2 (heap_of w2) copy /\
    getField (heap_of w3) (getField (heap_of w3) (config llm) "traceMetadata") "userId" =
      VStr "intruder" /\
    getField (heap_of w1) (getField (heap_of w1) (config llm) "traceMetadata") "userId" =
      VStr "u1".
Proof.
  eexists _, _, _, _, _, _. split; [ vm_compute; reflexivity | ].
  split; [ vm_compute; reflexivity | ].
  cbv zeta. split; [ vm_compute; reflexivity | ]. split; [ vm_compute; discriminate | ].
  split; reflexivity.
Qed.

Lemma options_override_positional_witness :
  exists cfg w1,
    object_with [("model", VStr "gpt-4")] (VRef 2) caller_world = (Ok cfg, w1) /\
    getField (heap_of w1) cfg "model" = VStr "claude-3-5-sonnet" /\
    getField (heap_of w1) cfg "schema" = VNull /\
    cfg <> VRef 2.
Proof.
  pose proof (options_override_positional parse_literal (replying (text_reply "4"))
                "gpt-4" (PromptText "hello") (VRef 3) (VRef 2) caller_world 2%nat
                [("model", VStr "claude-3-5-sonnet"); ("schema", VNull)]
                eq_refl eq_refl eq_refl) as H.
  cbv zeta in H. destruct H as [(cfg & w1 & Hbuilt & _ & Hmodel) _].
  destruct Hbuilt as (Hcfg & Hfresh & _ & _ & _ & Hfield & _).
  exists cfg, w1. split; [ exact Hcfg | ].
  split; [ exact (proj1 (Hmodel _ eq_refl)) | ].
  split; [ exact (Hfield "schema") | ]. rewrite Hfresh. discriminate.
Defined.

Lemma options_override_examples :
  fst (generate parse_literal (replying (text_reply "4")) "gpt-4"
         (PromptText "hello") (VRef 2) caller_world) =
    Throw (ThrownLLM (UnsupportedProviderError (VStr "anthropic"))) /\
  fst (generate parse_literal (replying (text_reply "4")) "gpt-4"
         (PromptText "hello") VUndef caller_world) = Ok "4".
Proof. split; reflexivity. Qed.

(* ===================================================================== *)
(** * Further properties of the code *)
(* ===================================================================== *)

(** ** Normalising a normalised schema *)

Lemma on_member_type F ms :
  assoc "type" (map (fun kc : string * json => (fst kc, on_member F (fst kc) (snd kc))) ms) =
  assoc "type" ms.
Proof.
  rewrite (assoc_map_values (on_member F)). now destruct (assoc "type" ms).
Qed.

Lemma declares_object_closed ms :
  declares_object
    (map (fun kc : string * json => (fst kc, on_member closeObjects (fst kc) (snd kc))) ms) =
  declares_object ms.
Proof. unfold declares_object. now rewrite on_member_type. Qed.

Lemma has_key_map_values {A B} (g : string -> A -> B) k ms :
  has_key k (map (fun kc : string * A => (fst kc, g (fst kc) (snd kc))) ms) = has_key k ms.
Proof. unfold has_key. rewrite assoc_map_values. now destruct (assoc k ms). Qed.

Lemma keys_map_values {A B} (g : string -> A -> B) ms :
  map fst (map (fun kc : string * A => (fst kc, g (fst kc) (snd kc))) ms) = map fst ms.
Proof. rewrite map_map. reflexivity. Qed.

Lemma closeObjects_twice_all t :
  closeObjects (closeObjects t) = closeObjects t /\
  each_element closeObjects (each_element closeObjects t) = each_element closeObjects t /\
  each_value closeObjects (each_value closeObjects t) = each_value closeObjects t.
Proof.
  induction t as [ | b | z | s | ts IH | ms IH ] using json_induction;
    try (repeat split; reflexivity).
  - assert (He : map closeObjects (map closeObjects ts) = map closeObjects ts).
    { rewrite map_map. apply map_ext_Forall. eapply Forall_impl; [ exact IH | ].
      intros c Hc. apply Hc. }
    cbn [closeObjects each_element each_value]. now rewrite He.
  - assert (Hv : map (fun kc : string * json => (fst kc, closeObjects (snd kc)))
                   (map (fun kc : string * json => (fst kc, closeObjects (snd kc))) ms) =
                 map (fun kc : string * json => (fst kc, closeObjects (snd kc))) ms).
    { rewrite map_map. apply map_ext_Forall. eapply Forall_impl; [ exact IH | ].
      intros [k c] Hc. cbn [fst snd]. f_equal. apply Hc. }
    split; [ | split; [ reflexivity | cbn [each_value]; now rewrite Hv ] ].
    set (close := fun kc : string * json => (fst kc, on_member closeObjects (fst kc) (snd kc))).
    assert (Hm : map close (map close ms) = map close ms).
    { rewrite map_map. apply map_ext_Forall. eapply Forall_impl; [ exact IH | ].
      intros [k c] (Hc & He & Hvs). unfold close. cbn [fst snd]. f_equal. unfold on_member.
      destruct (String.eqb k "properties"); [ exact Hvs | ].
      destruct (String.eqb k "items"); [ exact Hc | ].
      destruct (combinator k); [ exact He | reflexivity ]. }
    rewrite closeObjects_JObj. cbv zeta. fold close.
    destruct (declares_object ms && negb (has_key "additionalProperties" ms)) eqn:E.
    + apply andb_true_iff in E as [Ed Ek]. rewrite closeObjects_JObj. cbv zeta. fold close.
      assert (Hd : declares_object (map close ms ++ [("additionalProperties", JBool false)])
                   = true).
      { unfold declares_object in *. pose proof (on_member_type closeObjects ms) as Hty.
        fold close in Hty.
        destruct (assoc "type" ms) as [ ty | ] eqn:Et; [ | discriminate ].
        now rewrite (assoc_app_l _ _ _ _ Hty). }
      assert (Hk : has_key "additionalProperties"
                     (map close ms ++ [("additionalProperties", JBool false)]) = true).
      { unfold has_key. rewrite assoc_app_r; [ reflexivity | ].
        pose proof (has_key_map_values (on_member closeObjects) "additionalProperties" ms) as H.
        fold close in H. rewrite <- H in Ek. unfold has_key in Ek.
        now destruct (assoc "additionalProperties" (map close ms)). }
      rewrite Hd, Hk. cbn [andb negb]. now rewrite map_app, Hm.
    + rewrite closeObjects_JObj. cbv zeta. fold close.
      pose proof (declares_object_closed ms) as Hd. fold close in Hd.
      pose proof (has_key_map_values (on_member closeObjects) "additionalProperties" ms) as Hk.
      fold close in Hk. now rewrite Hd, Hk, E, Hm.
Qed.

Lemma closeObjects_twice t : closeObjects (closeObjects t) = closeObjects t.
Proof. apply closeObjects_twice_all. Qed.

Lemma distinct_names_members ms :
  NoDup (map fst ms) -> Forall (fun kc : string * json => distinct_names (snd kc) = true) ms ->
  distinct_names (JObj ms) = true.
Proof.
  intros Hnd Hall. cbn [distinct_names].
  rewrite andb_true_iff, bool_decide_eq_true, forallb_forall. split; [ exact Hnd | ].
  intros kc Hin. rewrite Forall_forall in Hall. apply Hall. now apply list_elem_of_In.
Qed.

Lemma distinct_names_elements ts :
  Forall (fun c => distinct_names c = true) ts -> distinct_names (JArr ts) = true.
Proof.
  intros Hall. cbn [distinct_names]. rewrite forallb_forall.
  intros c Hin. rewrite Forall_forall in Hall. apply Hall. now apply list_elem_of_In.
Qed.

Lemma distinct_names_closed_all t :
  distinct_names t = true ->
  distinct_names (closeObjects t) = true /\
  distinct_names (each_element closeObjects t) = true /\
  distinct_names (each_value closeObjects t) = true.
Proof.
  induction t as [ | b | z | s | ts IH | ms IH ] using json_induction; intros Hd;
    try (repeat split; reflexivity).
  - apply distinct_names_JArr in Hd.
    assert (He : distinct_names (JArr (map closeObjects ts)) = true).
    { apply distinct_names_elements. apply Forall_map.
      induction IH as [ | c ts Hc _ IHts ]; [ constructor | ].
      apply Forall_cons in Hd as [Hdc Hd]. constructor; [ now apply Hc | now apply IHts ]. }
    split; [ now apply distinct_names_elements | split; exact He ].
  - apply distinct_names_JObj in Hd as [Hnd Hd].
    assert (Hv : distinct_names (each_value closeObjects (JObj ms)) = true).
    { cbn [each_value]. apply distinct_names_members.
      - now rewrite (keys_map_values (fun _ => closeObjects)).
      - apply Forall_map. clear Hnd.
        induction IH as [ | [k c] ms Hc _ IHms ]; [ constructor | ].
        apply Forall_cons in Hd as [Hdc Hd]. constructor; [ now apply Hc | now apply IHms ]. }
    split; [ | split; [ now apply distinct_names_members | exact Hv ] ].
    set (close := fun kc : string * json => (fst kc, on_member closeObjects (fst kc) (snd kc))).
    assert (Hm : Forall (fun kc : string * json => distinct_names (snd kc) = true)
                   (map close ms)).
    { apply Forall_map. clear Hnd Hv.
      induction IH as [ | [k c] ms Hc _ IHms ]; [ constructor | ].
      apply Forall_cons in Hd as [Hdc Hd]. constructor; [ | now apply IHms ].
      unfold close. cbn [fst snd] in *. unfold on_member.
      destruct (String.eqb k "properties"); [ now apply Hc | ].
      destruct (String.eqb k "items"); [ now apply Hc | ].
      destruct (combinator k); [ now apply Hc | exact Hdc ]. }
    assert (Hkeys : map fst (map close ms) = map fst ms)
      by apply (keys_map_values (on_member closeObjects)).
    rewrite closeObjects_JObj. cbv zeta. fold close.
    destruct (declares_object ms && negb (has_key "additionalProperties" ms)) eqn:E.
    + apply andb_true_iff in E as [_ Ek]. apply distinct_names_members.
      * rewrite map_app, Hkeys. cbn [map fst]. apply NoDup_app. split; [ exact Hnd | ].
        split; [ | apply NoDup_singleton ].
        intros k Hin Hk. apply list_elem_of_singleton in Hk as ->.
        apply assoc_None in Hin; [ exact Hin | ].
        unfold has_key in Ek. now destruct (assoc "additionalProperties" ms).
      * apply Forall_app. split; [ exact Hm | now constructor ].
    + apply distinct_names_members; [ now rewrite Hkeys | exact Hm ].
Qed.

Lemma distinct_names_closeObjects t :
  distinct_names t = true -> distinct_names (closeObjects t) = true.
Proof. intros H. now apply distinct_names_closed_all. Qed.

(** The run of the normaliser on an input known to denote a tree whose
    nodes have distinct member names. *)
Lemma normalize_run_tree schema h t :
  distinct_names t = true ->
  denotes h schema t ->
  normalizeSchemaForStrictMode schema h =
  Some (root (length h) t, h ++ body (length h) (closeObjects t)).
Proof.
  intros Hdn [fuel Ht]. apply stringify_fuel_heap in Ht.
  unfold normalizeSchemaForStrictMode, JSON_parse_tree.
  rewrite Ht. cbn [mbind option_bind].
  destruct (layout (length h) t) as [v cs] eqn:El.
  assert (v = root (length h) t) as -> by (unfold root; now rewrite El).
  assert (cs = body (length h) t) as -> by (unfold body; now rewrite El).
  pose proof (stringify_depth _ _ _ _ Ht) as Hd.
  assert (Hfuel : (depth t <= length (h ++ body (length h) t))%nat)
    by (rewrite length_app; lia).
  pose proof (processSchema_transforms _ t Hfuel Hdn h []) as Hp.
  rewrite !app_nil_r in Hp. rewrite Hp. reflexivity.
Qed.

Lemma denotes_closed h t :
  denotes (h ++ body (length h) (closeObjects t)) (root (length h) t) (closeObjects t).
Proof.
  destruct (similar_closeObjects t) as [[_ Hr] _]. rewrite Hr. apply denotes_layout.
Qed.

(** X1.  Normalisation is idempotent: a schema [normalizeSchemaForStrictMode]
    has returned is accepted by it again, and what it returns then denotes
    the same JSON value, key for key and in the same order. *)
Theorem normalize_idempotent h schema normalized h1 :
  heap_wf h = true ->
  normalizeSchemaForStrictMode schema h = Some (normalized, h1) ->
  exists again h2 out,
    normalizeSchemaForStrictMode normalized h1 = Some (again, h2) /\
    denotes h1 normalized out /\
    denotes h2 again out.
Proof.
  intros Hwf Hrun.
  destruct (normalize_extends _ _ _ _ Hwf Hrun) as (t & [fuel Ht] & -> & ->).
  pose proof (stringify_distinct _ _ Hwf _ _ Ht) as Hdn.
  pose proof (denotes_closed h t) as Hout.
  eexists _, _, (closeObjects t). split; [ | split; [ exact Hout | ] ].
  - exact (normalize_run_tree _ _ _ (distinct_names_closeObjects _ Hdn) Hout).
  - rewrite closeObjects_twice.
    pose proof (denotes_closed (h ++ body (length h) (closeObjects t)) (closeObjects t)) as H2.
    rewrite closeObjects_twice in H2. exact H2.
Qed.

(** ** The order of keys *)

(** X2.  The normalised schema has, at every node that is an object, the
    keys of the input node in their order; the [additionalProperties] the
    normaliser adds comes after them. *)
Theorem normalize_keeps_key_order h schema t :
  heap_wf h = true ->
  denotes h schema t ->
  exists normalized h',
    normalizeSchemaForStrictMode schema h = Some (normalized, h') /\
    denotes h' normalized (closeObjects t) /\
    forall p ms, node_at p t = Some (JObj ms) ->
      exists ms', node_at p (closeObjects t) = Some (JObj ms') /\
        map fst ms' =
          map fst ms ++
          (if declares_object ms && negb (has_key "additionalProperties" ms)
           then ["additionalProperties"] else []).
Proof.
  intros Hwf Ht. eexists _, _. split; [ exact (normalize_run _ _ t Hwf Ht) | ].
  split; [ apply denotes_closed | ].
  intros p ms Hn. rewrite node_at_closeObjects, Hn. cbn [fmap option_fmap option_map].
  rewrite closeObjects_JObj. cbv zeta. eexists. split; [ reflexivity | ].
  pose proof (keys_map_values (on_member closeObjects) ms) as Hkeys.
  destruct (declares_object ms && negb (has_key "additionalProperties" ms)).
  - now rewrite map_app, Hkeys.
  - now rewrite Hkeys, app_nil_r.
Qed.

(** ** Detection inside longer identifiers *)

Lemma string_append_assoc (a b c : string) : (a +:+ b) +:+ c = a +:+ b +:+ c.
Proof.
  induction a as [ | x a IH ]; [ reflexivity | ].
  change (String x ((a +:+ b) +:+ c) = String x (a +:+ b +:+ c)). now rewrite IH.
Qed.

Lemma toLowerCase_append s t : toLowerCase (s +:+ t) = toLowerCase s +:+ toLowerCase t.
Proof.
  induction s as [ | x s IH ]; [ reflexivity | ].
  change (String (lower_ascii x) (toLowerCase (s +:+ t)) =
          String (lower_ascii x) (toLowerCase s +:+ toLowerCase t)).
  now rewrite IH.
Qed.

Lemma occurs_affixes mk s a b : occurs mk s -> occurs mk (a +:+ s +:+ b).
Proof.
  intros (pre & suf & ->). exists (a +:+ pre), (suf +:+ b).
  now rewrite !string_append_assoc.
Qed.

(** X3.  An identifier that contains an OpenAI marker in any letter case
    is detected as openai wherever it is embedded: no prefix and no suffix
    (an organisation, a date, a fine-tune tag) changes the answer. *)
Theorem detectProvider_openai_affixes model pre suf :
  Exists (fun mk => occurs mk (toLowerCase model)) openai_markers ->
  detectProvider (pre +:+ model +:+ suf) = OpenAI.
Proof.
  intros Hmark. rewrite detectProvider_markers. cbv zeta.
  assert (H : existsb (includes (toLowerCase (pre +:+ model +:+ suf))) openai_markers = true).
  { apply includes_markers. rewrite !toLowerCase_append.
    eapply Exists_impl; [ exact Hmark | ]. intros mk Hmk. now apply occurs_affixes. }
  now rewrite H.
Qed.

(** ** Construction of a dispatcher *)

(** X4.  [createLLM] succeeds exactly when the configuration has a truthy
    [provider] or a [model] that is a string.  With an explicit provider
    the model is not looked at; without one, a missing model makes
    construction fail with the runtime's [TypeError], which is not an
    [LLMError], and nothing has been allocated. *)
Theorem createLLM_needs_provider_or_model cfg w :
  let h := heap_of w in
  (truthy (getField h cfg "provider") = true \/ (exists m, getField h cfg "model" = VStr m) ->
   exists llm w1, createLLM cfg w = (Ok llm, w1)) /\
  (truthy (getField h cfg "provider") = false ->
   (forall m, getField h cfg "model" <> VStr m) ->
   exists e, createLLM cfg w = (Throw (ThrownOther e), w) /\ err_name e = Some "TypeError").
Proof.
  cbv zeta. unfold createLLM, LLM_constructor, alloc. split.
  - intros [ Hp | [m Hm] ].
    + rewrite Hp. eauto.
    + destruct (truthy (getField (heap_of w) cfg "provider")); [ eauto | ]. rewrite Hm. eauto.
  - intros Hp Hm. rewrite Hp.
    destruct (getField (heap_of w) cfg "model") as [ | | | | m | ];
      try (eexists; split; reflexivity).
    now destruct (Hm m).
Qed.

(** The timeout a dispatcher holds. *)
Lemma resolved_timeout cfg w llm w1 :
  createLLM cfg w = (Ok llm, w1) ->
  is_object (heap_of w1) (config llm) /\
  getField (heap_of w1) (config llm) "timeout" =
    (if truthy (getField (heap_of w) cfg "timeout") then getField (heap_of w) cfg "timeout"
     else VNum 90000).
Proof.
  intros Hnew. destruct (LLM_constructor_run _ _ _ _ Hnew) as (p & _ & -> & ->).
  cbn [heap_of with_heap]. split.
  - eexists _, _. split; [ reflexivity | apply lookup_fresh ].
  - now rewrite getField_fresh, assoc_assign_ne, assoc_assign_eq by discriminate.
Qed.

(** X5.  The configuration of a dispatcher is complete, whatever it was
    built from: its [provider] and its [timeout] are truthy and its
    [enableTracing] is neither [undefined] nor [null]. *)
Theorem resolved_config_is_complete cfg w llm w1 :
  createLLM cfg w = (Ok llm, w1) ->
  let resolved := getField (heap_of w1) (config llm) in
  is_object (heap_of w1) (config llm) /\
  truthy (resolved "provider") = true /\
  truthy (resolved "timeout") = true /\
  nullish (resolved "enableTracing") = false.
Proof.
  intros Hnew. destruct (LLM_constructor_run _ _ _ _ Hnew) as (p & Hp & -> & ->).
  cbv zeta. cbn [heap_of with_heap]. split; [ | split; [ | split ] ].
  - eexists _, _. split; [ reflexivity | apply lookup_fresh ].
  - rewrite getField_fresh, !assoc_assign_ne, assoc_assign_eq by discriminate.
    cbn [default from_option id].
    destruct (truthy (getField (heap_of w) cfg "provider")) eqn:E; [ now subst p | ].
    destruct Hp as (m & _ & ->). apply truthy_provider.
  - rewrite getField_fresh, assoc_assign_ne, assoc_assign_eq by discriminate.
    cbn [default from_option id].
    now destruct (truthy (getField (heap_of w) cfg "timeout")) eqn:E.
  - rewrite getField_fresh, assoc_assign_eq. cbn [default from_option id].
    now destruct (nullish (getField (heap_of w) cfg "enableTracing")) eqn:E.
Qed.

(** X6.  The dispatcher holds an object of its own.  Fields other than
    [provider], [timeout] and [enableTracing] have the very values of the
    caller's configuration (objects among them are shared); and whatever
    the caller's configuration object becomes after construction, the
    dispatcher's configuration reads as it did. *)
Theorem constructor_copies_config cfg l props w llm w1 (mutated : cell) :
  cfg = VRef l -> heap_of w !! l = Some (CObj props) ->
  createLLM cfg w = (Ok llm, w1) ->
  config llm <> cfg /\
  (forall k, k ∉ ["provider"; "timeout"; "enableTracing"] ->
             getField (heap_of w1) (config llm) k = default VUndef (assoc k props)) /\
  let w2 := with_heap (<[l := mutated]> (heap_of w1)) w1 in
  (forall k, getField (heap_of w2) (config llm) k = getField (heap_of w1) (config llm) k) /\
  own_properties (heap_of w2) (config llm) = own_properties (heap_of w1) (config llm).
Proof.
  intros -> Hl Hnew.
  assert (Hlt : (l < length (heap_of w))%nat) by (now apply lookup_lt_Some in Hl).
  assert (Hpass : forall k, k ∉ ["provider"; "timeout"; "enableTracing"] ->
            getField (heap_of w1) (config llm) k = default VUndef (assoc k props)).
  { intros k Hk.
    rewrite (constructor_passes_through (VRef l) w llm w1 k Hk) by (eauto || eexists _, _; eauto).
    unfold getField, get. now rewrite Hl. }
  destruct (LLM_constructor_run _ _ _ _ Hnew) as (p & _ & Hllm & ->).
  cbv zeta in *. cbn [heap_of with_heap] in *. rewrite Hllm in *.
  split; [ intros [= H]; lia | ]. split; [ exact Hpass | ].
  rewrite insert_app_l by exact Hlt.
  assert (Hlen : length (<[l := mutated]> (heap_of w)) = length (heap_of w))
    by apply length_insert.
  split.
  - intros k. rewrite getField_fresh. rewrite <- Hlen. apply getField_fresh.
  - rewrite own_properties_fresh. rewrite <- Hlen. apply own_properties_fresh.
Qed.

(** ** The client singleton *)

Lemma getOpenAIClient_frame enableTracing w r w' :
  getOpenAIClient enableTracing w = (r, w') ->
  heap_of w' = heap_of w /\ requests w' = requests w /\
  OPENAI_API_KEY w' = OPENAI_API_KEY w /\
  (forall e, r = Throw e -> w' = w /\ e = ThrownLLM (APIKeyError OpenAI)).
Proof.
  unfold getOpenAIClient.
  destruct (openaiClient w);
    [ intros [= <- <-]; split; [ | split; [ | split ] ]; try reflexivity; discriminate | ].
  destruct (OPENAI_API_KEY w) as [ key | ] eqn:Ek; [ destruct (String.eqb key "") | ];
    intros [= <- <-]; (split; [ | split; [ | split ] ]); try reflexivity; try exact Ek;
    intros e H; try discriminate H; injection H as <-; split; reflexivity.
Qed.

(** X7.  The client is created at most once.  The first successful call
    of [getOpenAIClient] stores the client it returns; when it had to
    create it, the key is the non-empty [OPENAI_API_KEY] and tracing is on
    exactly if that call asked for it.  Every later call returns the stored
    client whatever tracing it asks for and whatever the environment then
    holds, and changes nothing. *)
Theorem client_is_created_once first later w client w1 :
  getOpenAIClient first w = (Ok client, w1) ->
  openaiClient w1 = Some client /\
  (openaiClient w = None ->
   OPENAI_API_KEY w = Some (apiKey client) /\ apiKey client <> "" /\
   traced client = truthy first) /\
  forall w2, openaiClient w2 = openaiClient w1 ->
             getOpenAIClient later w2 = (Ok client, w2).
Proof.
  unfold getOpenAIClient at 1. intros Hrun.
  assert (Hlater : openaiClient w1 = Some client ->
            forall w2, openaiClient w2 = openaiClient w1 ->
                       getOpenAIClient later w2 = (Ok client, w2)).
  { intros H1 w2 H2. unfold getOpenAIClient. now rewrite H2, H1. }
  destruct (openaiClient w) as [ existing | ] eqn:Ec.
  - injection Hrun as <- <-. split; [ exact Ec | ]. split; [ discriminate | auto ].
  - destruct (OPENAI_API_KEY w) as [ key | ]; [ | discriminate ].
    destruct (String.eqb_spec key "") as [ | Hne ]; [ discriminate | ].
    injection Hrun as <- <-. cbn [openaiClient apiKey traced].
    split; [ reflexivity | ]. split; [ now repeat split | ]. now apply Hlater.
Qed.

(** ** What a call of the adapter does *)

Lemma request_params_frame prompt cfg w r w1 :
  request_params prompt cfg w = (r, w1) ->
  requests w1 = requests w /\ OPENAI_API_KEY w1 = OPENAI_API_KEY w.
Proof.
  rewrite request_params_run. cbv zeta.
  destruct (getOpenAIClient _ w) as [[ client | e ] w'] eqn:Hc.
  - destruct (getOpenAIClient_frame _ _ _ _ Hc) as (_ & Hr & He & _).
    destruct (truthy _).
    + destruct (normalizeSchemaForStrictMode _ _) as [ [normalized h'] | ];
        intros [= <- <-]; now split.
    + intros [= <- <-]. now split.
  - destruct (getOpenAIClient_frame _ _ _ _ Hc) as (_ & Hr & He & _).
    intros [= <- <-]. now split.
Qed.

(** The [catch] clause throws, an [LLMError] unless the failure is [null]
    or [undefined], and leaves the world as it is. *)
Lemma normalize_error_throws {A} cfg failure w :
  (exists e, @normalize_error A cfg failure w = (Throw (ThrownLLM e), w)) \/
  ((failure = ThrownNull \/ failure = ThrownUndefined) /\
   exists msg, @normalize_error A cfg failure w = (Throw (TypeError msg), w)).
Proof.
  destruct failure as [ typed | err | | ]; cbn [normalize_error].
  - left. now exists typed.
  - left. destruct (bool_decide _); eexists; reflexivity.
  - right. split; [ now left | eexists; reflexivity ].
  - right. split; [ now right | eexists; reflexivity ].
Qed.

Lemma extract_content_outcome completion w :
  (exists text, extract_content completion w = (Ok text, w)) \/
  extract_content completion w = (Throw (ThrownLLM unsupported_format), w) \/
  exists msg, extract_content completion w = (Throw (TypeError msg), w).
Proof.
  unfold extract_content.
  destruct (output completion) as [ | item items ]; [ now right; left | ].
  destruct (String.eqb (item_type item) "message"); [ | now right; left ].
  destruct (item_content item) as [ | part parts ]; [ right; right; eauto | ].
  destruct (String.eqb (part_type part) "output_text"); [ left; eauto | now right; left ].
Qed.

(** The request built for a configuration whose schema denotes [t]. *)
Lemma request_params_closed prompt cfg w t :
  heap_wf (heap_of w) = true ->
  (is_Some (openaiClient w) \/ exists key, OPENAI_API_KEY w = Some key /\ key <> "") ->
  let h := heap_of w in
  let schema := getField h cfg "schema" in
  truthy schema = true ->
  denotes h schema t ->
  exists client w1,
    heap_of w1 = h /\ requests w1 = requests w /\
    request_params prompt cfg w =
      (Ok (client, request_with h prompt cfg (Some (closed_format h schema t))),
       with_heap (h ++ body (length h) (closeObjects t)) w1).
Proof.
  intros Hwf Hclient h schema Hs Ht. subst h schema.
  destruct (getOpenAIClient_available
              (if nullish (getField (heap_of w) cfg "enableTracing") then VBool true
               else getField (heap_of w) cfg "enableTracing") w Hclient)
    as (client & w1 & Hc).
  destruct (getOpenAIClient_frame _ _ _ _ Hc) as (Hh & Hr & _ & _).
  exists client, w1. split; [ exact Hh | ]. split; [ exact Hr | ].
  rewrite request_params_run. cbv zeta.
  now rewrite Hc, Hs, (normalize_run _ _ t Hwf Ht).
Qed.

Lemma getField_extend h cs v k t :
  denotes h v t -> getField (h ++ cs) v k = getField h v k.
Proof.
  intros [fuel Ht]. destruct v as [ | | b | z | s | l ]; try reflexivity.
  apply stringify_lookup in Ht. unfold getField, get. now rewrite lookup_app_l.
Qed.

Lemma heap_wf_app h cs : heap_wf (h ++ cs) = heap_wf h && heap_wf cs.
Proof. apply forallb_app. Qed.

Lemma assoc_cons_ne {A} k k' (a : A) l : k <> k' -> assoc k ((k', a) :: l) = assoc k l.
Proof. intros Hne. cbn [assoc]. now destruct (String.eqb_spec k k'). Qed.

Lemma getField_second (h : heap) c props k :
  getField (h ++ [c; CObj props]) (VRef (S (length h))) k = default VUndef (assoc k props).
Proof.
  unfold getField, get. rewrite lookup_app_r by lia.
  now replace (S (length h) - length h)%nat with 1%nat by lia.
Qed.

(** What the convenience functions build when they are given no options:
    the configuration literal, and the dispatcher's configuration. *)
Lemma convenience_config model rest w :
  assoc "provider" rest = None -> assoc "timeout" rest = None ->
  assoc "enableTracing" rest = None ->
  let h := heap_of w in
  let literal := ("model", VStr model) :: rest in
  object_with literal VUndef w = (Ok (VRef (length h)), with_heap (h ++ [CObj literal]) w) /\
  createLLM (VRef (length h)) (with_heap (h ++ [CObj literal]) w) =
    (Ok {| config := VRef (S (length h)) |},
     with_heap (h ++ [CObj literal; CObj (resolved_defaults model literal)]) w).
Proof.
  intros Hp Ht He h literal. split; [ reflexivity | ].
  assert (Hp' : assoc "provider" literal = None)
    by (subst literal; now rewrite assoc_cons_ne).
  assert (Ht' : assoc "timeout" literal = None)
    by (subst literal; now rewrite assoc_cons_ne).
  assert (He' : assoc "enableTracing" literal = None)
    by (subst literal; now rewrite assoc_cons_ne).
  assert (Hm : assoc "model" literal = Some (VStr model)) by reflexivity.
  unfold createLLM, LLM_constructor, alloc. cbn [heap_of with_heap]. fold h.
  rewrite !getField_fresh, own_properties_fresh, Hp', Ht', He', Hm.
  cbn [default from_option id truthy nullish].
  rewrite (assign_fresh "provider") by exact Hp'.
  rewrite (assign_fresh "timeout")
    by (rewrite assoc_app_r by exact Ht'; reflexivity).
  rewrite (assign_fresh "enableTracing")
    by (rewrite assoc_app_r by (rewrite assoc_app_r by exact He'; reflexivity); reflexivity).
  rewrite length_app, Nat.add_1_r. cbn [length]. unfold resolved_defaults.
  now rewrite <- !app_assoc.
Qed.

(** Building the request keeps every cell, also when it fails. *)
Lemma request_params_keeps_cells prompt cfg w r w1 :
  heap_wf (heap_of w) = true ->
  request_params prompt cfg w = (r, w1) ->
  forall l c, heap_of w !! l = Some c -> heap_of w1 !! l = Some c.
Proof.
  intros Hwf Hprep. destruct r as [ [client params] | e ].
  - now apply (request_params_preserves _ _ _ _ _ _ Hwf Hprep).
  - rewrite request_params_run in Hprep. cbv zeta in Hprep.
    destruct (getOpenAIClient _ w) as [[ client | e2 ] w2] eqn:Hc;
      destruct (getOpenAIClient_frame _ _ _ _ Hc) as (Hh & _).
    + destruct (truthy _); [ | discriminate ].
      destruct (normalizeSchemaForStrictMode _ _) as [ [normalized h'] | ]; [ discriminate | ].
      injection Hprep as _ <-. now rewrite Hh.
    + injection Hprep as _ <-. now rewrite Hh.
Qed.

(** The request a successful preparation has built. *)
Lemma request_params_request prompt cfg w client params w1 :
  request_params prompt cfg w = (Ok (client, params), w1) ->
  exists text,
    params = request_with (heap_of w) prompt cfg text /\
    (text = None <-> truthy (getField (heap_of w) cfg "schema") = false).
Proof.
  rewrite request_params_run. cbv zeta.
  destruct (getOpenAIClient _ w) as [[ client' | e ] w'] eqn:Hc; [ | discriminate ].
  destruct (truthy (getField (heap_of w) cfg "schema")).
  - destruct (normalizeSchemaForStrictMode _ _) as [ [normalized h'] | ]; [ | discriminate ].
    intros [= <- <- <-]. eexists. split; [ reflexivity | ]. split; discriminate.
  - intros [= <- <- <-]. exists None. split; [ reflexivity | ]. split; reflexivity.
Qed.

Section Calls.

Variable JSON_parse : string -> option json.
Variable backend : Client -> Request -> val -> BackendOutcome.

Lemma generateWithOpenAI_unprepared prompt cfg w e w1 :
  request_params prompt cfg w = (Throw e, w1) ->
  generateWithOpenAI JSON_parse backend prompt cfg w = (Throw e, w1).
Proof. intros Hprep. unfold generateWithOpenAI, bind at 1. now rewrite Hprep. Qed.

(** Once the request is built it is sent, and the call ends in a
    response, in an [LLMError], or, when the backend call is rejected with
    [null] or [undefined], in the [TypeError] the [catch] clause raises. *)
Lemma generateWithOpenAI_outcome prompt cfg w client params w1 :
  request_params prompt cfg w = (Ok (client, params), w1) ->
  (exists response,
     generateWithOpenAI JSON_parse backend prompt cfg w = (Ok response, sent params w1)) \/
  (exists e,
     generateWithOpenAI JSON_parse backend prompt cfg w =
       (Throw (ThrownLLM e), sent params w1)) \/
  ((backend client params (getField (heap_of w1) cfg "timeout") = Throws ThrownNull \/
    backend client params (getField (heap_of w1) cfg "timeout") = Throws ThrownUndefined) /\
   exists msg,
     generateWithOpenAI JSON_parse backend prompt cfg w =
       (Throw (TypeError msg), sent params w1)).
Proof.
  intros Hprep. rewrite (generateWithOpenAI_prepared _ _ _ _ _ _ _ _ Hprep).
  destruct (backend client params _) as [ completion | failure ].
  - destruct (extract_content_outcome completion (sent params w1))
      as [ [text ->] | [ -> | [msg ->] ] ].
    + left. eauto.
    + right. left. eexists. reflexivity.
    + right. left. eexists. reflexivity.
  - destruct (normalize_error_throws (A := LLMResponse) cfg failure (sent params w1))
      as [ [e ->] | [ [ -> | -> ] [msg ->] ] ]; eauto 6.
Qed.

Lemma generateWithOpenAI_world prompt cfg w client params w1 :
  request_params prompt cfg w = (Ok (client, params), w1) ->
  snd (generateWithOpenAI JSON_parse backend prompt cfg w) = sent params w1.
Proof.
  intros Hprep.
  destruct (generateWithOpenAI_outcome _ _ _ _ _ _ Hprep)
    as [ [r ->] | [ [e ->] | [_ [msg ->]] ] ]; reflexivity.
Qed.

(** X8.  A call sends at most one request: [generateWithOpenAI] never
    retries, whatever the backend answers; a call that returns a response
    has sent exactly one; and the same holds of [generate] on a
    dispatcher. *)
Theorem at_most_one_request prompt cfg w :
  let run := generateWithOpenAI JSON_parse backend prompt cfg w in
  (requests (snd run) = requests w \/
   exists params, requests (snd run) = requests w ++ [params]) /\
  (forall response, fst run = Ok response ->
                    exists params, requests (snd run) = requests w ++ [params]) /\
  forall llm,
    let dispatched := LLM_generate JSON_parse backend llm prompt w in
    requests (snd dispatched) = requests w \/
    exists params, requests (snd dispatched) = requests w ++ [params].
Proof.
  cbv zeta.
  assert (Hone : forall c,
            (requests (snd (generateWithOpenAI JSON_parse backend prompt c w)) = requests w \/
             exists params,
               requests (snd (generateWithOpenAI JSON_parse backend prompt c w)) =
               requests w ++ [params]) /\
            (forall response,
               fst (generateWithOpenAI JSON_parse backend prompt c w) = Ok response ->
               exists params,
                 requests (snd (generateWithOpenAI JSON_parse backend prompt c w)) =
                 requests w ++ [params])).
  { intros c.
    destruct (request_params prompt c w) as [[ [client params] | e ] w1] eqn:Hprep;
      destruct (request_params_frame _ _ _ _ _ Hprep) as [Hr _].
    - assert (Hw : snd (generateWithOpenAI JSON_parse backend prompt c w) = sent params w1)
        by exact (generateWithOpenAI_world _ _ _ _ _ _ Hprep).
      rewrite Hw. cbn [sent requests]. rewrite Hr. split; [ right; eauto | eauto ].
    - rewrite (generateWithOpenAI_unprepared _ _ _ _ _ Hprep). cbn [fst snd].
      split; [ now left | discriminate ]. }
  split; [ apply Hone | ]. split; [ apply Hone | ].
  intros llm. unfold LLM_generate, bind, read.
  destruct (strict_equal _ _); [ apply Hone | now left ].
Qed.

(** X9.  Without a client and without a usable [OPENAI_API_KEY] (unset,
    or empty) a call on a configuration object fails with the
    [APIKeyError] for openai, of status 401 and code API_KEY_MISSING.  This
    is the first thing the call does: the world is as it was, no schema has
    been copied and no request sent. *)
Theorem missing_key_fails_first prompt cfg w :
  is_object (heap_of w) cfg ->
  openaiClient w = None ->
  OPENAI_API_KEY w = None \/ OPENAI_API_KEY w = Some "" ->
  generateWithOpenAI JSON_parse backend prompt cfg w =
    (Throw (ThrownLLM (APIKeyError OpenAI)), w) /\
  name (APIKeyError OpenAI) = "APIKeyError" /\
  statusCode (APIKeyError OpenAI) = 401 /\
  code (APIKeyError OpenAI) = Some "API_KEY_MISSING" /\
  message (APIKeyError OpenAI) = "API key not configured for openai".
Proof.
  intros _ Hclient Hkey. split; [ | repeat split ].
  apply generateWithOpenAI_unprepared. rewrite request_params_run. cbv zeta.
  unfold getOpenAIClient. rewrite Hclient. now destruct Hkey as [ -> | -> ].
Qed.

(** X10.  What a call on a configuration object throws is an [LLMError]
    or the runtime's [TypeError], unwrapped, and the latter in two cases
    only.  A schema that [JSON.stringify] cannot write (one that contains
    itself) makes the call fail before anything is sent, the heap being as
    it was; with a client at hand such a schema always has this effect.
    And a backend call rejected with [null] or [undefined] makes the
    [catch] clause itself fail, after the request was sent. *)
Theorem unwrapped_errors_are_TypeErrors prompt cfg w :
  heap_wf (heap_of w) = true ->
  is_object (heap_of w) cfg ->
  let schema := getField (heap_of w) cfg "schema" in
  let unserialisable :=
    truthy schema = true /\ forall t, ~ denotes (heap_of w) schema t in
  let run := generateWithOpenAI JSON_parse backend prompt cfg w in
  let rejected_with_nothing client params w1 :=
    request_params prompt cfg w = (Ok (client, params), w1) /\
    (backend client params (getField (heap_of w1) cfg "timeout") = Throws ThrownNull \/
     backend client params (getField (heap_of w1) cfg "timeout") = Throws ThrownUndefined) in
  (forall failure w', run = (Throw failure, w') ->
     (exists e, failure = ThrownLLM e) \/
     (exists e, failure = ThrownOther e /\ err_name e = Some "TypeError" /\
        ((unserialisable /\ requests w' = requests w /\ heap_of w' = heap_of w) \/
         (exists client params w1,
            rejected_with_nothing client params w1 /\ w' = sent params w1)))) /\
  (unserialisable ->
   (is_Some (openaiClient w) \/ exists key, OPENAI_API_KEY w = Some key /\ key <> "") ->
   exists e w', run = (Throw (ThrownOther e), w') /\ requests w' = requests w) /\
  (forall client params w1, rejected_with_nothing client params w1 ->
   exists e, run = (Throw (ThrownOther e), sent params w1) /\
             err_name e = Some "TypeError").
Proof.
  intros Hwf _ schema unserialisable run rejected_with_nothing.
  subst schema unserialisable run rejected_with_nothing. cbv beta.
  assert (Hnone : normalizeSchemaForStrictMode (getField (heap_of w) cfg "schema") (heap_of w)
                  = None <-> forall t, ~ denotes (heap_of w) (getField (heap_of w) cfg "schema") t).
  { split.
    - intros Hn t Ht. now rewrite (normalize_run _ _ t Hwf Ht) in Hn.
    - intros Hno. destruct (normalizeSchemaForStrictMode _ _) as [ [normalized h'] | ] eqn:Hn;
        [ | reflexivity ].
      destruct (normalize_extends _ _ _ _ Hwf Hn) as (t & Ht & _). now destruct (Hno t). }
  split; [ | split ].
  - intros failure w' Hrun.
    destruct (request_params prompt cfg w) as [[ [client params] | e1 ] w1] eqn:Hprep.
    { destruct (generateWithOpenAI_outcome _ _ _ _ _ _ Hprep)
        as [ [r H] | [ [e2 H] | [Hback [msg H]] ] ]; rewrite H in Hrun.
      - discriminate.
      - injection Hrun as <- <-. left. eauto.
      - injection Hrun as <- <-. right. eexists. split; [ reflexivity | ].
        split; [ reflexivity | ]. right. exists client, params, w1. now repeat split. }
    rewrite (generateWithOpenAI_unprepared _ _ _ _ _ Hprep) in Hrun. injection Hrun as -> ->.
    rewrite request_params_run in Hprep. cbv zeta in Hprep.
    destruct (getOpenAIClient _ w) as [[ client | e2 ] w2] eqn:Hc.
    + destruct (getOpenAIClient_frame _ _ _ _ Hc) as (Hh & Hr & _ & _).
      destruct (truthy (getField (heap_of w) cfg "schema")) eqn:Es; [ | discriminate ].
      destruct (normalizeSchemaForStrictMode _ _) as [ [normalized h'] | ] eqn:Hn;
        [ discriminate | ].
      injection Hprep as <- <-. right. eexists. split; [ reflexivity | ].
      split; [ reflexivity | ]. left.
      split; [ split; [ reflexivity | now apply Hnone ] | split; assumption ].
    + destruct (getOpenAIClient_frame _ _ _ _ Hc) as (_ & _ & _ & Hthrow).
      destruct (Hthrow e2 eq_refl) as [_ ->]. injection Hprep as <- _. left. eauto.
  - intros [Hs Hno] Hclient. apply Hnone in Hno.
    destruct (getOpenAIClient_available
                (if nullish (getField (heap_of w) cfg "enableTracing") then VBool true
                 else getField (heap_of w) cfg "enableTracing") w Hclient)
      as (client & w1 & Hc).
    destruct (getOpenAIClient_frame _ _ _ _ Hc) as (_ & Hr & _ & _).
    eexists _, w1. split; [ | exact Hr ].
    apply generateWithOpenAI_unprepared. rewrite request_params_run. cbv zeta.
    now rewrite Hc, Hs, Hno.
  - intros client params w1 [Hprep Hback].
    rewrite (generateWithOpenAI_prepared _ _ _ _ _ _ _ _ Hprep).
    destruct Hback as [ -> | -> ]; eexists; split; reflexivity.
Qed.

(** X11.  When the first output item is a message whose first content part
    is output text, the call returns a response whose [content] is the text
    of that part alone (further parts and items are ignored), whose
    provider is openai, whose [model] is the configured one, and whose
    usage is the backend's, field by field, or absent as the backend's is.
    Without a schema in the configuration, or on an empty text,
    [structuredOutput] is unset and [JSON.parse] is not asked. *)
Theorem successful_response prompt cfg w client params w1 item items part parts reported :
  is_object (heap_of w) cfg ->
  request_params prompt cfg w = (Ok (client, params), w1) ->
  backend client params (getField (heap_of w1) cfg "timeout") =
    Returns {| output := item :: items; completion_usage := reported |} ->
  item_type item = "message" ->
  item_content item = part :: parts ->
  part_type part = "output_text" ->
  exists response,
    generateWithOpenAI JSON_parse backend prompt cfg w = (Ok response, sent params w1) /\
    content response = part_text part /\
    provider response = OpenAI /\
    model response = getField (heap_of w1) cfg "model" /\
    usage response =
      (u ← reported;
       Some {| inputTokens := input_tokens u; outputTokens := output_tokens u;
               totalTokens := total_tokens u |}) /\
    (truthy (getField (heap_of w1) cfg "schema") = false \/ part_text part = "" ->
     structuredOutput response = None).
Proof.
  intros _ Hprep Hback Hi Hc Hp.
  rewrite (generateWithOpenAI_prepared _ _ _ _ _ _ _ _ Hprep), Hback.
  rewrite (extract_content_text _ (part_text part)) by (now exists item, items, part, parts).
  eexists. split; [ reflexivity | ]. cbn [content provider model usage structuredOutput].
  split; [ reflexivity | ]. split; [ reflexivity | ]. split; [ reflexivity | ]. split.
  - cbn [completion_usage]. now destruct reported.
  - intros [ -> | -> ]; [ reflexivity | ]. cbn. now rewrite andb_false_r.
Qed.

(** X12.  When the configuration has a schema, the one request of the call
    carries a format of type json_schema in strict mode, named after the
    schema's [title] unless that is [undefined] or [null] (then
    "response"; an empty title is kept), whose schema is the closed copy:
    an object allocated by the call, never the caller's, while the
    caller's schema still reads as before. *)
Theorem request_carries_closed_schema prompt cfg w t :
  heap_wf (heap_of w) = true ->
  (is_Some (openaiClient w) \/ exists key, OPENAI_API_KEY w = Some key /\ key <> "") ->
  let schema := getField (heap_of w) cfg "schema" in
  truthy schema = true ->
  denotes (heap_of w) schema t ->
  let w' := snd (generateWithOpenAI JSON_parse backend prompt cfg w) in
  exists params format,
    requests w' = requests w ++ [params] /\
    req_text params = Some format /\
    format_type format = "json_schema" /\
    format_strict format = true /\
    format_name format =
      (if nullish (getField (heap_of w) schema "title") then VStr "response"
       else getField (heap_of w) schema "title") /\
    denotes (heap_of w') (format_schema format) (closeObjects t) /\
    denotes (heap_of w') schema t /\
    (forall l, format_schema format = VRef l -> (length (heap_of w) <= l)%nat).
Proof.
  intros Hwf Hclient schema Hs Ht w'. subst schema w'.
  destruct (request_params_closed prompt cfg w t Hwf Hclient Hs Ht)
    as (client & w1 & Hh & Hr & Hprep).
  match type of Hprep with
  | _ = (Ok (_, ?params), ?w2) =>
      assert (Hw : snd (generateWithOpenAI JSON_parse backend prompt cfg w) = sent params w2)
        by exact (generateWithOpenAI_world _ _ _ _ _ _ Hprep)
  end.
  rewrite Hw. cbn [sent requests heap_of with_heap].
  eexists _, _. split; [ now rewrite Hr | ]. split; [ reflexivity | ].
  cbn [closed_format format_type format_strict format_name format_schema].
  split; [ reflexivity | ]. split; [ reflexivity | ]. split; [ reflexivity | ].
  split; [ apply denotes_closed | ]. split.
  - destruct Ht as [fuel Ht]. exists fuel. now apply stringify_extend.
  - intros l Hl. exact (root_fresh _ _ t (le_n _) l Hl).
Qed.

(** X13.  An explicit provider is not validated at construction.  A
    configuration whose [provider] is a non-empty string other than
    "openai" (an unknown name, or "OpenAI" in another spelling) makes a
    dispatcher, even without a model; its [generate] then fails with an
    [UnsupportedProviderError] of status 400 and code UNSUPPORTED_PROVIDER
    that names the string and carries no provider tag, and does nothing
    else. *)
Theorem explicit_provider_is_not_validated cfg w s prompt :
  getField (heap_of w) cfg "provider" = VStr s -> s <> "" -> s <> "openai" ->
  exists llm w1 e,
    createLLM cfg w = (Ok llm, w1) /\
    LLM_generate JSON_parse backend llm prompt w1 = (Throw (ThrownLLM e), w1) /\
    name e = "UnsupportedProviderError" /\ statusCode e = 400 /\
    code e = Some "UNSUPPORTED_PROVIDER" /\ error_provider e = None /\
    message e = "Unsupported LLM provider: " +:+ s.
Proof.
  intros Hp Hne Hopenai.
  assert (Ht : truthy (VStr s) = true)
    by (cbn; now destruct (String.eqb_spec s "")).
  unfold createLLM, LLM_constructor, alloc. rewrite Hp, Ht.
  eexists _, _, (UnsupportedProviderError (VStr s)). split; [ reflexivity | ].
  cbn [config heap_of with_heap]. split; [ | repeat split ].
  unfold LLM_generate, bind, read. cbn [config heap_of with_heap].
  rewrite getField_fresh, !assoc_assign_ne, assoc_assign_eq by discriminate.
  cbn [default from_option id strict_equal val_eqb].
  now destruct (String.eqb_spec s "openai").
Qed.

(** X14.  Through a dispatcher the backend is called with the resolved
    timeout and no other: the caller's if it is truthy, else 90000 (so a
    timeout of [0] never reaches the backend).  A backend that differs
    at other timeouts only gives the same outcome; and when the call is
    aborted, the [TimeoutError] names that resolved timeout. *)
Theorem facade_passes_resolved_timeout cfg w llm w1 prompt :
  createLLM cfg w = (Ok llm, w1) ->
  heap_wf (heap_of w1) = true ->
  let given := getField (heap_of w) cfg "timeout" in
  let resolved := if truthy given then given else VNum 90000 in
  (forall other,
     (forall client params, other client params resolved = backend client params resolved) ->
     LLM_generate JSON_parse other llm prompt w1 =
     LLM_generate JSON_parse backend llm prompt w1) /\
  (forall client params w2 err,
     getField (heap_of w1) (config llm) "provider" = VStr "openai" ->
     request_params prompt (config llm) w1 = (Ok (client, params), w2) ->
     backend client params resolved = Throws (ThrownOther err) ->
     err_name err = Some "AbortError" ->
     LLM_generate JSON_parse backend llm prompt w1 =
       (Throw (ThrownLLM (TimeoutError OpenAI resolved)), sent params w2)).
Proof.
  intros Hnew Hwf given resolved.
  destruct (resolved_timeout _ _ _ _ Hnew) as (Hobj & Htimeout).
  fold given in Htimeout. fold resolved in Htimeout.
  assert (Hkept : forall client params w2,
            request_params prompt (config llm) w1 = (Ok (client, params), w2) ->
            getField (heap_of w2) (config llm) "timeout" = resolved).
  { intros client params w2 Hprep. rewrite <- Htimeout.
    now apply (request_params_preserves _ _ _ _ _ _ Hwf Hprep). }
  assert (Hdefined : nullish resolved = false).
  { subst resolved. destruct (truthy given) eqn:E; [ now destruct given | reflexivity ]. }
  split.
  - intros other Hagree. unfold LLM_generate, bind, read.
    destruct (strict_equal _ _); [ | reflexivity ].
    destruct (request_params prompt (config llm) w1) as [[ [client params] | e ] w2] eqn:Hprep.
    + rewrite !(generateWithOpenAI_prepared _ _ _ _ _ _ _ _ Hprep).
      now rewrite (Hkept _ _ _ eq_refl), Hagree.
    + assert (Hfails : forall b, generateWithOpenAI JSON_parse b prompt (config llm) w1 =
                                 (Throw e, w2))
        by (intros b; unfold generateWithOpenAI, bind at 1; now rewrite Hprep).
      now rewrite !Hfails.
  - intros client params w2 err Hp Hprep Hback Habort.
    rewrite LLM_generate_openai by exact Hp.
    rewrite (generateWithOpenAI_prepared _ _ _ _ _ _ _ _ Hprep).
    rewrite (Hkept _ _ _ Hprep), Hback. cbn [normalize_error].
    rewrite Habort, bool_decide_eq_true_2 by reflexivity.
    unfold bind, read, throw. cbn [sent heap_of]. rewrite (Hkept _ _ _ Hprep).
    now rewrite Hdefined.
Qed.

(** ** The convenience functions without options *)

(** X15.  [generate(model, text)] for a model detected as openai, with a
    client at hand and a backend that answers with output text: exactly
    one request is sent, for that model, with the text as the only (user)
    turn, the default temperature and nothing else set, under the timeout
    90000; the text of the answer is returned; and the call has allocated
    two objects, the configuration literal and the dispatcher's
    configuration with its defaults. *)
Theorem generate_returns_reply_text model text w completion reply :
  detectProvider model = OpenAI ->
  (is_Some (openaiClient w) \/ exists key, OPENAI_API_KEY w = Some key /\ key <> "") ->
  (forall client,
     backend client (plain_request model text) (VNum 90000) = Returns completion) ->
  plain_text_first completion reply ->
  exists w',
    generate JSON_parse backend model (PromptText text) VUndef w = (Ok reply, w') /\
    requests w' = requests w ++ [plain_request model text] /\
    heap_of w' =
      heap_of w ++ [CObj [("model", VStr model)];
                    CObj [("model", VStr model); ("provider", VStr "openai");
                          ("timeout", VNum 90000); ("enableTracing", VBool true)]].
Proof.
  intros Hdet Hclient Hback Hreply.
  destruct (convenience_config model [] w eq_refl eq_refl eq_refl) as [Hcfg Hllm].
  cbv zeta in Hcfg, Hllm. unfold resolved_defaults in Hllm. rewrite Hdet in Hllm.
  cbn [app provider_string] in Hllm.
  set (h := heap_of w) in *.
  set (w2 := with_heap (h ++ [_; _]) w) in Hllm.
  assert (Hfield : forall k,
            getField (heap_of w2) (VRef (S (length h))) k =
            default VUndef
              (assoc k [("model", VStr model); ("provider", VStr "openai");
                        ("timeout", VNum 90000); ("enableTracing", VBool true)]))
    by (intros k; apply getField_second).
  assert (Hclient2 : is_Some (openaiClient w2) \/
                     exists key, OPENAI_API_KEY w2 = Some key /\ key <> "") by exact Hclient.
  destruct (getOpenAIClient_available (VBool true) w2 Hclient2) as (client & w3 & Hc).
  destruct (getOpenAIClient_frame _ _ _ _ Hc) as (Hh3 & Hr3 & _ & _).
  assert (Hprep : request_params (PromptText text) (VRef (S (length h))) w2 =
                  (Ok (client, plain_request model text), w3)).
  { rewrite request_params_run. cbv zeta. rewrite !Hfield.
    cbn [assoc String.eqb Ascii.eqb Bool.eqb default from_option id nullish truthy].
    now rewrite Hc. }
  assert (Hrun : LLM_generate JSON_parse backend {| config := VRef (S (length h)) |}
                   (PromptText text) w2 =
                 (Ok {| content := reply; provider := OpenAI; model := VStr model;
                        usage := match completion_usage completion with
                                 | Some u => Some {| inputTokens := input_tokens u;
                                                     outputTokens := output_tokens u;
                                                     totalTokens := total_tokens u |}
                                 | None => None
                                 end;
                        structuredOutput := None |},
                  sent (plain_request model text) w3)).
  { rewrite LLM_generate_openai by (cbn [config]; rewrite Hfield; reflexivity).
    cbn [config]. rewrite (generateWithOpenAI_prepared _ _ _ _ _ _ _ _ Hprep).
    rewrite Hh3, !Hfield.
    cbn [assoc String.eqb Ascii.eqb Bool.eqb default from_option id truthy andb].
    now rewrite Hback, (extract_content_text _ _ _ Hreply). }
  exists (sent (plain_request model text) w3).
  split; [ | split ].
  - unfold generate, bind at 1. rewrite Hcfg. unfold bind at 1. rewrite Hllm.
    unfold bind at 1. now rewrite Hrun.
  - cbn [sent requests]. now rewrite Hr3.
  - cbn [sent heap_of]. now rewrite Hh3.
Qed.

(** X16.  [generate] and [generateStructured], given no options, reject
    every model that is not detected as openai (an identifier with
    "claude", "gemini" or "palm" and no OpenAI marker): they fail with the
    [UnsupportedProviderError] of status 400 that names the detected
    provider, without acquiring a client or sending a request. *)
Theorem convenience_rejects_other_providers model prompt schema w :
  detectProvider model <> OpenAI ->
  let e := UnsupportedProviderError (VStr (provider_string (detectProvider model))) in
  (exists w',
     generate JSON_parse backend model prompt VUndef w = (Throw (ThrownLLM e), w') /\
     requests w' = requests w /\ openaiClient w' = openaiClient w) /\
  (exists w',
     generateStructured JSON_parse backend model prompt schema VUndef w =
       (Throw (ThrownLLM e), w') /\
     requests w' = requests w /\ openaiClient w' = openaiClient w) /\
  statusCode e = 400 /\
  message e = "Unsupported LLM provider: " +:+ provider_string (detectProvider model).
Proof.
  intros Hdet e.
  assert (Hreject : forall rest w2,
            w2 = with_heap (heap_of w ++
                              [CObj (("model", VStr model) :: rest);
                               CObj (resolved_defaults model (("model", VStr model) :: rest))]) w ->
            assoc "provider" rest = None ->
            LLM_generate JSON_parse backend {| config := VRef (S (length (heap_of w))) |}
              prompt w2 = (Throw (ThrownLLM e), w2)).
  { intros rest w2 -> Hp. unfold LLM_generate, bind, read. cbn [config heap_of with_heap].
    rewrite getField_second. unfold resolved_defaults.
    rewrite assoc_app_r by (now rewrite assoc_cons_ne).
    cbn [assoc String.eqb Ascii.eqb Bool.eqb default from_option id strict_equal val_eqb].
    subst e. destruct (detectProvider model); [ now destruct Hdet | reflexivity | reflexivity ]. }
  split; [ | split; [ | split; reflexivity ] ].
  - destruct (convenience_config model [] w eq_refl eq_refl eq_refl) as [Hcfg Hllm].
    cbv zeta in Hcfg, Hllm. eexists. split.
    { unfold generate, bind at 1. rewrite Hcfg. unfold bind at 1. rewrite Hllm.
      unfold bind at 1. now rewrite (Hreject [] _ eq_refl eq_refl). }
    split; reflexivity.
  - destruct (convenience_config model [("schema", schema)] w eq_refl eq_refl eq_refl)
      as [Hcfg Hllm].
    cbv zeta in Hcfg, Hllm. eexists. split.
    { unfold generateStructured, bind at 1. rewrite Hcfg. unfold bind at 1. rewrite Hllm.
      unfold bind at 1. now rewrite (Hreject [("schema", schema)] _ eq_refl eq_refl). }
    split; reflexivity.
Qed.

(** X17.  [generateStructured(model, prompt, schema)] for a model detected
    as openai and a schema that denotes [t], with a client at hand and a
    backend that answers with a non-empty output text that is valid JSON:
    one request is sent, for that model, whose format is the closed copy
    of the schema, in strict mode and named after the schema's title; the
    caller's schema is left as it was; and the value parsed from the
    answer is returned (the empty object for [null]). *)
Theorem generateStructured_closes_and_parses
    model prompt schema w t completion reply parsed :
  heap_wf (heap_of w) = true ->
  detectProvider model = OpenAI ->
  (is_Some (openaiClient w) \/ exists key, OPENAI_API_KEY w = Some key /\ key <> "") ->
  truthy schema = true ->
  denotes (heap_of w) schema t ->
  (forall client params, backend client params (VNum 90000) = Returns completion) ->
  plain_text_first completion reply ->
  reply <> "" ->
  JSON_parse reply = Some parsed ->
  exists w' params format,
    generateStructured JSON_parse backend model prompt schema VUndef w =
      (Ok (match parsed with JNull => JObj [] | _ => parsed end), w') /\
    requests w' = requests w ++ [params] /\
    req_model params = VStr model /\
    req_text params = Some format /\
    format_type format = "json_schema" /\
    format_strict format = true /\
    format_name format =
      (if nullish (getField (heap_of w) schema "title") then VStr "response"
       else getField (heap_of w) schema "title") /\
    denotes (heap_of w') (format_schema format) (closeObjects t) /\
    denotes (heap_of w') schema t.
Proof.
  intros Hwf Hdet Hclient Hs Ht Hback Hreply Hne Hparsed.
  destruct (convenience_config model [("schema", schema)] w eq_refl eq_refl eq_refl)
    as [Hcfg Hllm].
  cbv zeta in Hcfg, Hllm. unfold resolved_defaults in Hllm. rewrite Hdet in Hllm.
  cbn [app provider_string] in Hllm.
  set (h := heap_of w) in *.
  set (w2 := with_heap (h ++ [_; _]) w) in Hllm.
  set (cfg := VRef (S (length h))) in *.
  assert (Hfield : forall k,
            getField (heap_of w2) cfg k =
            default VUndef
              (assoc k [("model", VStr model); ("schema", schema); ("provider", VStr "openai");
                        ("timeout", VNum 90000); ("enableTracing", VBool true)]))
    by (intros k; apply getField_second).
  assert (Hwf2 : heap_wf (heap_of w2) = true).
  { subst w2. cbn [heap_of with_heap]. rewrite heap_wf_app. fold h. rewrite Hwf.
    vm_compute. reflexivity. }
  assert (Hschema : getField (heap_of w2) cfg "schema" = schema) by (now rewrite Hfield).
  assert (Ht2 : denotes (heap_of w2) schema t).
  { destruct Ht as [fuel Ht]. exists fuel. now apply stringify_extend. }
  destruct (request_params_closed prompt cfg w2 t Hwf2 Hclient)
    as (client & w3 & Hh3 & Hr3 & Hprep);
    [ now rewrite Hschema | now rewrite Hschema | ].
  rewrite Hschema in Hprep.
  set (params := request_with (heap_of w2) prompt cfg
                   (Some (closed_format (heap_of w2) schema t))) in *.
  set (w4 := with_heap _ w3) in Hprep.
  assert (Hobj : is_object (heap_of w2) cfg).
  { eexists _, _. split; [ reflexivity | ]. subst w2. cbn [heap_of with_heap].
    rewrite lookup_app_r by lia.
    now replace (S (length h) - length h)%nat with 1%nat by lia. }
  assert (Hkept : forall k, getField (heap_of w4) cfg k = getField (heap_of w2) cfg k)
    by (intros k; now apply (request_params_preserves _ _ _ _ _ _ Hwf2 Hprep)).
  assert (Hrun : exists response,
            LLM_generate JSON_parse backend {| config := cfg |} prompt w2 =
              (Ok response, sent params w4) /\
            structuredOutput response = Some parsed).
  { rewrite LLM_generate_openai by (cbn [config]; rewrite Hfield; reflexivity).
    cbn [config]. rewrite (generateWithOpenAI_prepared _ _ _ _ _ _ _ _ Hprep).
    rewrite !Hkept, Hschema, Hfield.
    cbn [assoc String.eqb Ascii.eqb Bool.eqb default from_option id].
    rewrite Hback, (extract_content_text _ _ _ Hreply), Hs. cbn [truthy andb].
    destruct (String.eqb_spec reply ""); [ contradiction | ]. cbn [negb].
    eexists. split; [ reflexivity | exact Hparsed ]. }
  destruct Hrun as (response & Hrun & Hstructured).
  exists (sent params w4), params, (closed_format (heap_of w2) schema t).
  split; [ | split; [ | split; [ | split; [ | split; [ | split; [ | split; [ | split ] ] ] ] ] ] ].
  - unfold generateStructured, bind at 1. rewrite Hcfg. unfold bind at 1. rewrite Hllm.
    unfold bind at 1. rewrite Hrun. unfold ret. rewrite Hstructured. now destruct parsed.
  - cbn [sent requests]. subst w4. cbn [with_heap requests]. now rewrite Hr3.
  - subst params. cbn [request_with req_model]. now rewrite Hfield.
  - reflexivity.
  - reflexivity.
  - reflexivity.
  - cbn [closed_format format_name]. subst w2. cbn [heap_of with_heap].
    now rewrite (getField_extend _ _ _ _ _ Ht).
  - subst w4. cbn [sent heap_of with_heap closed_format format_schema]. apply denotes_closed.
  - subst w4. cbn [sent heap_of with_heap].
    destruct Ht2 as [fuel Ht2]. exists fuel. now apply stringify_extend.
Qed.

(** ** What a call leaves alone *)

(** X18.  A call of [generate] on a dispatcher allocates but never writes:
    whether it returns or fails, every object that existed before the call
    is as it was (the caller's schema and messages among them), and the
    dispatcher's configuration has the properties it had, so that the
    call can be repeated. *)
Theorem call_never_writes llm prompt w :
  heap_wf (heap_of w) = true ->
  let w' := snd (LLM_generate JSON_parse backend llm prompt w) in
  (forall l c, heap_of w !! l = Some c -> heap_of w' !! l = Some c) /\
  (is_object (heap_of w) (config llm) ->
   own_properties (heap_of w') (config llm) = own_properties (heap_of w) (config llm)).
Proof.
  intros Hwf w'.
  assert (Hcells : forall l c, heap_of w !! l = Some c -> heap_of w' !! l = Some c).
  { subst w'. unfold LLM_generate, bind, read.
    destruct (strict_equal _ _); [ | auto ].
    destruct (request_params prompt (config llm) w) as [[ [client params] | e ] w1] eqn:Hprep;
      pose proof (request_params_keeps_cells _ _ _ _ _ Hwf Hprep) as Hkeep.
    - rewrite (generateWithOpenAI_world _ _ _ _ _ _ Hprep). exact Hkeep.
    - now rewrite (generateWithOpenAI_unprepared _ _ _ _ _ Hprep). }
  split; [ exact Hcells | ].
  intros (l & props & Hcfg & Hl). rewrite Hcfg. unfold own_properties.
  now rewrite (Hcells _ _ Hl), Hl.
Qed.

(** X19.  The positional arguments of the convenience functions are
    defaults: when the options object has no [model] key, the
    configuration [generate] builds and the dispatcher made from it carry
    the positional [model]; for [generateStructured] the same holds of
    [model] and of [schema], each for itself. *)
Theorem positional_arguments_are_defaults model schema options w l props :
  heap_wf (heap_of w) = true ->
  options = VRef l -> heap_of w !! l = Some (CObj props) ->
  (assoc "model" props = None ->
   exists cfg w1,
     object_with [("model", VStr model)] options w = (Ok cfg, w1) /\
     getField (heap_of w1) cfg "model" = VStr model /\
     forall llm w2, createLLM cfg w1 = (Ok llm, w2) ->
                    getField (heap_of w2) (config llm) "model" = VStr model) /\
  (forall k positional,
     (k, positional) ∈ [("model", VStr model); ("schema", schema)] ->
     assoc k props = None ->
     exists cfg w1,
       object_with [("model", VStr model); ("schema", schema)] options w = (Ok cfg, w1) /\
       getField (heap_of w1) cfg k = positional /\
       forall llm w2, createLLM cfg w1 = (Ok llm, w2) ->
                      getField (heap_of w2) (config llm) k = positional).
Proof.
  intros Hwf Hopt Hl. pose proof (heap_wf_lookup _ _ _ Hwf Hl) as Hnd.
  assert (Hfield : forall first k positional,
            assoc k first = Some positional -> assoc k props = None ->
            getField (heap_of w ++ [CObj (spread first props)])
                     (VRef (length (heap_of w))) k = positional).
  { intros first k positional Hfirst Hk.
    now rewrite getField_fresh, assoc_spread, Hk, Hfirst by exact Hnd. }
  assert (Hobj : forall first,
            is_object (heap_of (with_heap (heap_of w ++ [CObj (spread first props)]) w))
                      (VRef (length (heap_of w)))).
  { intros first. eexists _, _. split; [ reflexivity | apply lookup_fresh ]. }
  split.
  - intros Hk. eexists _, _.
    split; [ exact (object_with_run _ _ _ _ _ Hopt Hl) | ]. split.
    + now apply Hfield.
    + intros llm w2 Hnew.
      rewrite (constructor_passes_through _ _ _ _ "model"
                 (positional_keys _ ltac:(constructor)) (Hobj _) Hnew).
      now apply Hfield.
  - intros k positional Hin Hk.
    assert (Hkey : k ∈ ["model"; "schema"] /\
                   assoc k [("model", VStr model); ("schema", schema)] = Some positional).
    { rewrite !elem_of_cons in Hin. destruct Hin as [ [= -> ->] | [ [= -> ->] | Hin ] ];
        [ | | now apply elem_of_nil in Hin ]; (split; [ | reflexivity ]).
      - constructor.
      - apply list_elem_of_further. constructor. }
    destruct Hkey as [Hkey Hfirst]. eexists _, _.
    split; [ exact (object_with_run _ _ _ _ _ Hopt Hl) | ]. split.
    + now apply Hfield.
    + intros llm w2 Hnew.
      rewrite (constructor_passes_through _ _ _ _ k (positional_keys _ Hkey) (Hobj _) Hnew).
      now apply Hfield.
Qed.

(** ** Settings that are falsy *)

(** X20.  The request a call sends reflects the configuration as it was
    when the call began.  Model, [topP] and [maxTokens] are passed as they
    are; the temperature is the default only when none is configured, so
    that a temperature of [0] is sent as [0]; [reasoning] and the output
    format are present exactly when [reasoning] and [schema] are truthy;
    a system turn comes first exactly when the system prompt is truthy (an
    empty one is dropped), and every other turn the adapter writes is the
    user's. *)
Theorem request_reflects_configuration prompt cfg w params :
  requests (snd (generateWithOpenAI JSON_parse backend prompt cfg w)) = requests w ++ [params] ->
  let field := getField (heap_of w) cfg in
  req_model params = field "model" /\
  req_top_p params = field "topP" /\
  req_max_output_tokens params = field "maxTokens" /\
  (req_temperature params = DefaultTemperature <-> nullish (field "temperature") = true) /\
  (field "temperature" = VNum 0 -> req_temperature params = GivenTemperature (VNum 0)) /\
  (req_reasoning params = None <-> truthy (field "reasoning") = false) /\
  (req_text params = None <-> truthy (field "schema") = false) /\
  (truthy (field "systemPrompt") = false ->
   forall role content, Turn role content ∈ req_input params -> role = "user") /\
  (truthy (field "systemPrompt") = true ->
   exists rest, req_input params = Turn "system" (field "systemPrompt") :: rest /\
                forall role content, Turn role content ∈ rest -> role = "user").
Proof.
  intros Hsent field.
  assert (Hturns : forall role content,
            Turn role content ∈ match prompt with
                                | PromptText text => [Turn "user" (VStr text)]
                                | PromptMessages msgs => map Passed msgs
                                end -> role = "user").
  { intros role content. destruct prompt as [ text | msgs ].
    - intros Hin. apply list_elem_of_singleton in Hin. now injection Hin as -> _.
    - intros Hin. apply list_elem_of_fmap in Hin as (m & Hm & _). discriminate Hm. }
  assert (Hparams : exists text,
            params = request_with (heap_of w) prompt cfg text /\
            (text = None <-> truthy (getField (heap_of w) cfg "schema") = false)).
  { destruct (request_params prompt cfg w) as [[ [client built] | e ] w1] eqn:Hprep.
    - destruct (request_params_frame _ _ _ _ _ Hprep) as [Hr _].
      assert (Hw : snd (generateWithOpenAI JSON_parse backend prompt cfg w) = sent built w1)
        by exact (generateWithOpenAI_world _ _ _ _ _ _ Hprep).
      rewrite Hw in Hsent. cbn [sent requests] in Hsent. rewrite Hr in Hsent.
      apply app_inj_tail in Hsent as [_ ->].
      exact (request_params_request _ _ _ _ _ _ Hprep).
    - rewrite (generateWithOpenAI_unprepared _ _ _ _ _ Hprep) in Hsent.
      cbn [snd] in Hsent. destruct (request_params_frame _ _ _ _ _ Hprep) as [Hr _].
      rewrite Hr in Hsent. apply (f_equal length) in Hsent.
      rewrite length_app in Hsent. cbn [length] in Hsent. lia. }
  destruct Hparams as (text & -> & Htext).
  cbn [request_with req_model req_top_p req_max_output_tokens req_temperature req_reasoning
       req_text req_input]. fold field.
  split; [ reflexivity | ]. split; [ reflexivity | ]. split; [ reflexivity | ].
  split; [ destruct (nullish (field "temperature")); split; (reflexivity || discriminate) | ].
  split; [ now intros -> | ].
  split; [ destruct (truthy (field "reasoning")); split; (reflexivity || discriminate) | ].
  split; [ exact Htext | ].
  unfold formatInput. split.
  - intros ->. exact Hturns.
  - intros ->. eexists. split; [ reflexivity | exact Hturns ].
Qed.

End Calls.

(** ** Instances of the further properties *)

Lemma normalize_idempotent_witness :
  exists again h2 out,
    normalizeSchemaForStrictMode (VRef 7) (sample_heap ++ body 4 (closeObjects sample_schema)) =
      Some (again, h2) /\
    denotes (sample_heap ++ body 4 (closeObjects sample_schema)) (VRef 7) out /\
    denotes h2 again out.
Proof.
  exact (normalize_idempotent sample_heap (VRef 3) (VRef 7)
           (sample_heap ++ body 4 (closeObjects sample_schema)) eq_refl eq_refl).
Defined.

Lemma normalize_keeps_key_order_witness :
  exists ms',
    node_at [InProperties "value"; InItems] (closeObjects sample_schema) = Some (JObj ms') /\
    map fst ms' = ["type"; "additionalProperties"].
Proof.
  assert (Hdenotes : denotes sample_heap (VRef 3) sample_schema)
    by (exists 4%nat; reflexivity).
  destruct (normalize_keeps_key_order sample_heap (VRef 3) sample_schema eq_refl Hdenotes)
    as (normalized & h' & _ & _ & Hkeys).
  exact (Hkeys [InProperties "value"; InItems] [("type", JStr "object")] eq_refl).
Defined.

Lemma detectProvider_openai_affixes_witness :
  detectProvider ("ft:" +:+ "gpt-4o" +:+ ":acme::7p4lURel") = OpenAI.
Proof.
  apply detectProvider_openai_affixes. apply Exists_cons_hd. exists "", "-4o". reflexivity.
Defined.

Lemma createLLM_needs_provider_or_model_witness :
  exists e,
    createLLM (VRef 3) caller_world = (Throw (ThrownOther e), caller_world) /\
    err_name e = Some "TypeError".
Proof.
  apply (proj2 (createLLM_needs_provider_or_model (VRef 3) caller_world)); [ reflexivity | ].
  intros m H. vm_compute in H. discriminate H.
Defined.

Lemma resolved_config_is_complete_witness :
  exists llm w1,
    createLLM (VRef 1) caller_world = (Ok llm, w1) /\
    truthy (getField (heap_of w1) (config llm) "timeout") = true.
Proof.
  eexists _, _. split; [ vm_compute; reflexivity | ].
  apply (resolved_config_is_complete (VRef 1) caller_world). vm_compute. reflexivity.
Defined.

Lemma constructor_copies_config_witness :
  exists llm w1,
    createLLM (VRef 1) caller_world = (Ok llm, w1) /\
    getField (heap_of (with_heap (<[1%nat := CObj [("model", VStr "changed")]]> (heap_of w1)) w1))
             (config llm) "model" = VStr "gpt-4".
Proof.
  eexists _, _. split; [ vm_compute; reflexivity | ].
  edestruct (constructor_copies_config (VRef 1) 1%nat
               [("model", VStr "gpt-4"); ("traceMetadata", VRef 0)] caller_world)
    as (_ & _ & Hsame & _); [ reflexivity | reflexivity | vm_compute; reflexivity | ].
  rewrite Hsame. reflexivity.
Defined.

Lemma client_is_created_once_witness :
  exists client w1,
    getOpenAIClient (VBool true) caller_world = (Ok client, w1) /\
    getOpenAIClient (VBool false)
      {| heap_of := heap_of w1; OPENAI_API_KEY := None;
         openaiClient := openaiClient w1; requests := requests w1 |} =
      (Ok client, {| heap_of := heap_of w1; OPENAI_API_KEY := None;
                     openaiClient := openaiClient w1; requests := requests w1 |}) /\
    traced client = true.
Proof.
  eexists _, _. split; [ reflexivity | ].
  destruct (client_is_created_once (VBool true) (VBool false) caller_world _ _ eq_refl)
    as (_ & Hfirst & Hlater).
  split; [ apply Hlater; reflexivity | apply Hfirst; reflexivity ].
Defined.

Lemma missing_key_fails_first_witness :
  generateWithOpenAI parse_literal (replying (text_reply "4")) (PromptText "hello") (VRef 1)
    keyless_world =
  (Throw (ThrownLLM (APIKeyError OpenAI)), keyless_world).
Proof.
  refine (proj1 (missing_key_fails_first parse_literal (replying (text_reply "4"))
                   (PromptText "hello") (VRef 1) keyless_world _ eq_refl (or_introl eq_refl))).
  eexists _, _. split; reflexivity.
Defined.

Lemma unwrapped_errors_are_TypeErrors_witness :
  (exists e w',
     generateWithOpenAI parse_literal (replying (text_reply "4")) (PromptText "hello") (VRef 1)
       circular_world = (Throw (ThrownOther e), w') /\
     requests w' = requests circular_world) /\
  (exists e w',
     generateWithOpenAI parse_literal (failing ThrownNull) (PromptText "hello") (VRef 1)
       caller_world = (Throw (ThrownOther e), w') /\
     err_name e = Some "TypeError" /\
     length (requests w') = 1%nat).
Proof.
  split.
  - assert (Hobj : is_object (heap_of circular_world) (VRef 1))
      by (eexists _, _; split; reflexivity).
    pose proof (unwrapped_errors_are_TypeErrors parse_literal (replying (text_reply "4"))
                  (PromptText "hello") (VRef 1) circular_world eq_refl Hobj) as H.
    cbv zeta in H. apply H.
    + split; [ reflexivity | ].
      intros t [fuel Ht]. apply stringify_fuel_heap in Ht. vm_compute in Ht. discriminate Ht.
    + right. exists "sk-test". split; [ reflexivity | discriminate ].
  - assert (Hobj : is_object (heap_of caller_world) (VRef 1))
      by (eexists _, _; split; reflexivity).
    pose proof (unwrapped_errors_are_TypeErrors parse_literal (failing ThrownNull)
                  (PromptText "hello") (VRef 1) caller_world eq_refl Hobj) as H.
    cbv zeta in H. destruct H as (_ & _ & Hnothing).
    edestruct Hnothing as (e & Hrun & Hname);
      [ split; [ vm_compute; reflexivity | left; reflexivity ] | ].
    exists e. eexists. split; [ exact Hrun | ]. split; [ exact Hname | reflexivity ].
Defined.

Lemma successful_response_witness :
  exists response w',
    generateWithOpenAI parse_literal (replying (text_reply "4")) (PromptText "hello") (VRef 1)
      (resolved_world OpenAI) = (Ok response, w') /\
    content response = "4" /\
    usage response = Some {| inputTokens := 12; outputTokens := 3; totalTokens := 15 |}.
Proof.
  edestruct (successful_response parse_literal (replying (text_reply "4"))
               (PromptText "hello") (VRef 1) (resolved_world OpenAI))
    as (response & Hrun & Hcontent & _ & _ & Husage & _);
    [ eexists _, _; split; reflexivity | vm_compute; reflexivity | reflexivity
    | reflexivity | reflexivity | reflexivity | ].
  exists response. eexists. split; [ exact Hrun | ]. split; [ exact Hcontent | exact Husage ].
Defined.

Lemma request_carries_closed_schema_witness :
  exists params format,
    requests (snd (generateWithOpenAI parse_literal (replying (text_reply "{}"))
                     (PromptText "hello") (VRef 1) (resolved_world OpenAI))) =
      requests (resolved_world OpenAI) ++ [params] /\
    req_text params = Some format /\
    format_strict format = true.
Proof.
  assert (Hwf : heap_wf (heap_of (resolved_world OpenAI)) = true)
    by (vm_compute; reflexivity).
  assert (Hclient : is_Some (openaiClient (resolved_world OpenAI)) \/
                    exists key, OPENAI_API_KEY (resolved_world OpenAI) = Some key /\ key <> "")
    by (right; exists "sk-test"; split; [ reflexivity | discriminate ]).
  assert (Hs : truthy (getField (heap_of (resolved_world OpenAI)) (VRef 1) "schema") = true)
    by reflexivity.
  assert (Ht : denotes (heap_of (resolved_world OpenAI))
                 (getField (heap_of (resolved_world OpenAI)) (VRef 1) "schema")
                 (JObj [("type", JStr "object")]))
    by (exists 1%nat; reflexivity).
  pose proof (request_carries_closed_schema parse_literal (replying (text_reply "{}"))
                (PromptText "hello") (VRef 1) (resolved_world OpenAI)
                (JObj [("type", JStr "object")]) Hwf Hclient Hs Ht) as H.
  cbv zeta in H. destruct H as (params & format & Hreq & Htext & _ & Hstrict & _).
  exists params, format. split; [ exact Hreq | ]. split; [ exact Htext | exact Hstrict ].
Defined.

Lemma explicit_provider_is_not_validated_witness :
  exists llm w1 e,
    createLLM (VRef 0) misspelt_world = (Ok llm, w1) /\
    LLM_generate parse_literal (replying (text_reply "4")) llm (PromptText "hello") w1 =
      (Throw (ThrownLLM e), w1) /\
    message e = "Unsupported LLM provider: OpenAI".
Proof.
  edestruct (explicit_provider_is_not_validated parse_literal (replying (text_reply "4"))
               (VRef 0) misspelt_world "OpenAI" (PromptText "hello"))
    as (llm & w1 & e & Hnew & Hrun & _ & _ & _ & _ & Hmsg);
    [ reflexivity | discriminate | discriminate | ].
  exists llm, w1, e. split; [ exact Hnew | ]. split; [ exact Hrun | exact Hmsg ].
Defined.

Lemma facade_passes_resolved_timeout_witness :
  exists llm w1,
    createLLM (VRef 1) caller_world = (Ok llm, w1) /\
    LLM_generate parse_literal (impatient (text_reply "4")) llm (PromptText "hello") w1 =
    LLM_generate parse_literal (replying (text_reply "4")) llm (PromptText "hello") w1.
Proof.
  edestruct (facade_passes_resolved_timeout parse_literal (replying (text_reply "4"))
               (VRef 1) caller_world) as [Hsame _];
    [ vm_compute; reflexivity | vm_compute; reflexivity | ].
  eexists _, _. split; [ reflexivity | ].
  apply Hsame. intros client params. reflexivity.
Defined.

Lemma generate_returns_reply_text_witness :
  exists w',
    generate parse_literal (replying (text_reply "4")) "gpt-4" (PromptText "hello") VUndef
      caller_world = (Ok "4", w') /\
    requests w' = requests caller_world ++ [plain_request "gpt-4" "hello"].
Proof.
  edestruct (generate_returns_reply_text parse_literal (replying (text_reply "4"))
               "gpt-4" "hello" caller_world (text_reply "4") "4")
    as (w' & Hrun & Hreq & _).
  - reflexivity.
  - right. exists "sk-test". split; [ reflexivity | discriminate ].
  - intros client. reflexivity.
  - eexists _, _, _, _. repeat split; reflexivity.
  - exists w'. split; [ exact Hrun | exact Hreq ].
Defined.

Lemma convenience_rejects_other_providers_witness :
  exists w',
    generate parse_literal (replying (text_reply "4")) "claude-3-5-sonnet"
      (PromptText "hello") VUndef caller_world =
      (Throw (ThrownLLM (UnsupportedProviderError
                           (VStr (provider_string (detectProvider "claude-3-5-sonnet"))))),
       w') /\
    requests w' = requests caller_world.
Proof.
  assert (Hother : detectProvider "claude-3-5-sonnet" <> OpenAI)
    by (vm_compute; discriminate).
  pose proof (convenience_rejects_other_providers parse_literal (replying (text_reply "4"))
                "claude-3-5-sonnet" (PromptText "hello") VNull caller_world Hother) as H.
  cbv zeta in H. destruct H as [(w' & Hrun & Hreq & _) _].
  exists w'. split; [ exact Hrun | exact Hreq ].
Defined.

Lemma generateStructured_closes_and_parses_witness :
  exists w',
    generateStructured parse_literal (replying (text_reply "{}")) "gpt-4"
      (PromptText "hello") (VRef 3) VUndef caller_world = (Ok (JObj []), w').
Proof.
  edestruct (generateStructured_closes_and_parses parse_literal (replying (text_reply "{}"))
               "gpt-4" (PromptText "hello") (VRef 3) caller_world
               (JObj [("type", JStr "object")]) (text_reply "{}") "{}" (JObj []))
    as (w' & params & format & Hrun & _).
  - vm_compute. reflexivity.
  - reflexivity.
  - right. exists "sk-test". split; [ reflexivity | discriminate ].
  - reflexivity.
  - exists 1%nat. reflexivity.
  - intros client params. reflexivity.
  - eexists _, _, _, _. repeat split; reflexivity.
  - discriminate.
  - reflexivity.
  - exists w'. exact Hrun.
Defined.

Lemma call_never_writes_witness :
  own_properties
    (heap_of (snd (LLM_generate parse_literal (replying (text_reply "{}"))
                     {| config := VRef 1 |} (PromptText "hello") (resolved_world OpenAI))))
    (VRef 1) =
  own_properties (heap_of (resolved_world OpenAI)) (VRef 1).
Proof.
  assert (Hwf : heap_wf (heap_of (resolved_world OpenAI)) = true)
    by (vm_compute; reflexivity).
  pose proof (call_never_writes parse_literal (replying (text_reply "{}"))
                {| config := VRef 1 |} (PromptText "hello") (resolved_world OpenAI) Hwf) as H.
  cbv zeta in H. apply H. eexists _, _. split; reflexivity.
Defined.

Lemma positional_arguments_are_defaults_witness :
  exists cfg w1,
    object_with [("model", VStr "gpt-4")] (VRef 0) caller_world = (Ok cfg, w1) /\
    getField (heap_of w1) cfg "model" = VStr "gpt-4".
Proof.
  assert (Hwf : heap_wf (heap_of caller_world) = true) by (vm_compute; reflexivity).
  destruct (proj1 (positional_arguments_are_defaults "gpt-4" VNull (VRef 0) caller_world 0%nat
                     [("userId", VStr "u1")] Hwf eq_refl eq_refl) eq_refl)
    as (cfg & w1 & Hcfg & Hmodel & _).
  exists cfg, w1. split; [ exact Hcfg | exact Hmodel ].
Defined.

Lemma request_reflects_configuration_witness :
  exists params,
    requests (snd (generateWithOpenAI parse_literal (replying (text_reply "4"))
                     (PromptText "hello") (VRef 1) caller_world)) =
      requests caller_world ++ [params] /\
    req_model params = VStr "gpt-4".
Proof.
  eexists. split; [ vm_compute; reflexivity | ].
  match goal with
  | |- req_model ?params = _ =>
      pose proof (request_reflects_configuration parse_literal (replying (text_reply "4"))
                    (PromptText "hello") (VRef 1) caller_world params) as H
  end.
  cbv zeta in H. apply H. vm_compute. reflexivity.
Defined.
